(** * Session, query-cache and validation logic of the AI Writer PRO frontend

    Shallow embedding of
    - the query-key factory, the list-query URL construction and the mutation
      hooks of the React Query layer ([hooks/api]),
    - the retry policy of the query client ([Providers]),
    - the [contentGenerationSchema] validation and the submit path of the
      content generation form,
    - the actions of the authentication store ([store/auth.ts]).

    JavaScript strings are [string]s holding the UTF-8 text of the string,
    as a string literal of this file does; a character outside ASCII takes
    two to four characters of the model, and [JsString.length] counts the
    UTF-16 code units, which is what [length] and the validation library
    count.  String arrays are lists, the query cache is the list of its
    queries, store actions are functions from the store's state to the state
    they leave and the trace of what they did.

    The code leans on three libraries whose behaviour it does not spell out:
    the key matching of [invalidateQueries]/[removeQueries] and the retry
    loop of the query library, and the resolver step of the form library.
    Each is modelled next to the code that uses it ([partialMatchKey],
    [retryer], [handleSubmit]).  [authService] and [API_ENDPOINTS] come from
    modules that are not part of the sources at hand; they are parameters. *)

From Stdlib Require Import ZArith QArith Qround DecimalString Lia.
From stdpp Require Import base list strings.

Open Scope string_scope.
Open Scope list_scope.

(** ** Strings and numbers *)

Module JsString.

(** The UTF-16 code units a character of the model accounts for: a byte that
    opens a character of one to three bytes stands for one code unit, a byte
    that opens a character of four bytes for the two of a surrogate pair,
    and a continuation byte for none. *)
Definition units (c : Ascii.ascii) : nat :=
  let b := Ascii.nat_of_ascii c in
  if (b <? 128)%nat then 1%nat
  else if (b <? 192)%nat then 0%nat
  else if (b <? 240)%nat then 1%nat
  else 2%nat.

(** [s.length] *)
Fixpoint length (s : string) : nat :=
  match s with
  | EmptyString => 0%nat
  | String c s' => (units c + length s')%nat
  end.

End JsString.

Module NumberValue.

(** A Number value as [String(value)] sees it ([Number::toString] of the
    language): [NaN], an infinity, zero, or a finite number other than zero
    given by its sign and by the integers [s] and [n] of its shortest
    decimal: the digits of [s], of which there are [k], with the decimal
    point after the first [n] of them, that is [s × 10^(n - k)].  The
    shortest decimal has no zero at its end; one written with such zeros
    stands for the same number. *)
Inductive t : Type :=
  | NaN
  | Infinity (negative : bool)
  | Zero
  | Finite (negative : bool) (s : positive) (n : Z).

#[global] Instance t_eq_dec : EqDecision t.
Proof. solve_decision. Defined.

Definition zero_digit : Ascii.ascii := Ascii.ascii_of_nat 48.

(** A string of digits without the zeros at its end. *)
Fixpoint trim_zeros (d : string) : string :=
  match d with
  | EmptyString => EmptyString
  | String c r =>
      match trim_zeros r with
      | EmptyString => if Ascii.eqb c zero_digit then EmptyString else String c EmptyString
      | r' => String c r'
      end
  end.

(** The digits of [s]: its decimal, which starts with a digit other than
    zero, without the zeros at its end. *)
Definition digits (s : positive) : string :=
  match NilZero.string_of_uint (Pos.to_uint s) with
  | EmptyString => EmptyString
  | String c r => String c (trim_zeros r)
  end.

Fixpoint zeros (m : nat) : string :=
  match m with
  | O => EmptyString
  | S m' => String zero_digit (zeros m')
  end.

(** The decimal of an integer that is not negative. *)
Definition decimal (z : Z) : string := NilZero.string_of_uint (N.to_uint (Z.to_N z)).

(** The text of a positive finite number with the digits [d] (there are [k])
    and the exponent [n]: the digits and [n - k] zeros when [k ≤ n ≤ 21]; the
    digits with a point after the first [n] when [0 < n ≤ 21]; [0.], [-n]
    zeros and the digits when [-6 < n ≤ 0]; otherwise the exponential
    notation, with the point after the first digit when there are several. *)
Definition format (d : string) (n : Z) : string :=
  let k := Z.of_nat (String.length d) in
  if (k <=? n)%Z && (n <=? 21)%Z then
    d +:+ zeros (Z.to_nat (n - k))
  else if (0 <? n)%Z && (n <=? 21)%Z then
    String.substring 0 (Z.to_nat n) d
    +:+ "." +:+ String.substring (Z.to_nat n) (Z.to_nat (k - n)) d
  else if (-6 <? n)%Z && (n <=? 0)%Z then
    "0." +:+ zeros (Z.to_nat (- n)) +:+ d
  else
    (if (k =? 1)%Z then d
     else String.substring 0 1 d
          +:+ "." +:+ String.substring 1 (Z.to_nat (k - 1)) d)
    +:+ "e" +:+ (if (n - 1 <? 0)%Z then "-" else "+") +:+ decimal (Z.abs (n - 1)).

(** [Number::toString(x)], radix 10. *)
Definition toString (x : t) : string :=
  match x with
  | NaN => "NaN"
  | Infinity false => "Infinity"
  | Infinity true => "-Infinity"
  | Zero => "0"
  | Finite negative s n =>
      (if negative then "-" else EmptyString) +:+ format (digits s) n
  end.

(** An integer that is a Number value, as a Number value: its digits are
    its decimal, all of them before the point.  Every integer up to 2^53 in
    magnitude is a Number value; beyond, the ones a double holds, and a
    literal of the program stands for the Number value nearest to it. *)
Definition of_Z (z : Z) : t :=
  match z with
  | Z0 => Zero
  | Zpos p =>
      Finite false p (Z.of_nat (String.length (NilZero.string_of_uint (Pos.to_uint p))))
  | Zneg p =>
      Finite true p (Z.of_nat (String.length (NilZero.string_of_uint (Pos.to_uint p))))
  end.

End NumberValue.

(** ** Query keys *)

Module Keys.

(** The value of one field of a search-params object.  [StyleSearchParams]
    and [ContentSearchParams] hold optional strings, numbers ([page],
    [per_page]) and a boolean ([is_active]); an optional field may be
    present with the value [undefined], and [null] is what the code also
    tests for. *)
Inductive JsValue : Type :=
  | VUndefined
  | VNull
  | VString (s : string)
  | VNum (x : NumberValue.t)
  | VBool (b : bool).

#[global] Instance JsValue_eq_dec : EqDecision JsValue.
Proof. solve_decision. Defined.

(** A number that is an integer, such as a page number ([n] is the integer
    the Number value is). *)
Definition VNumber (n : Z) : JsValue := VNum (NumberValue.of_Z n).

(** An object literal: its own enumerable string-keyed properties in
    insertion order, which is the order [Object.entries] walks them in. *)
Definition JsObject : Type := list (string * JsValue).

(** One element of a query key: a string, a search-params object, or the
    [undefined] that [useStyles]/[useContent] append when no search params
    are given. *)
Inductive Segment : Type :=
  | SegString (s : string)
  | SegObject (o : JsObject)
  | SegUndefined.

#[global] Instance Segment_eq_dec : EqDecision Segment.
Proof. solve_decision. Defined.

Definition QueryKey : Type := list Segment.

Definition strs (l : list string) : QueryKey := SegString <$> l.

(** [queryKeys] — the factory, member by member. *)
Module user.
Definition profile : QueryKey := strs ["user"; "profile"].
End user.

Module organization.
Definition list : QueryKey := strs ["organizations"].
Definition detail (id : string) : QueryKey := strs ["organizations"; id].
Definition members (id : string) : QueryKey := strs ["organizations"; id; "members"].
Definition usage (id : string) : QueryKey := strs ["organizations"; id; "usage"].
End organization.

Module style.
Definition list (orgId : string) : QueryKey := strs ["organizations"; orgId; "styles"].
Definition detail (orgId id : string) : QueryKey :=
    strs ["organizations"; orgId; "styles"; id].
Definition analysis (orgId id : string) : QueryKey :=
    strs ["organizations"; orgId; "styles"; id; "analysis"].
End style.

Module content.
Definition list (orgId : string) : QueryKey := strs ["organizations"; orgId; "content"].
Definition detail (orgId id : string) : QueryKey :=
    strs ["organizations"; orgId; "content"; id].
Definition iterations (orgId id : string) : QueryKey :=
    strs ["organizations"; orgId; "content"; id; "iterations"].
End content.

(** The members of the factory, as data: which key a query asks for. *)
Inductive KeyKind : Type :=
  | UserProfile
  | OrganizationList
  | OrganizationDetail (id : string)
  | OrganizationMembers (id : string)
  | OrganizationUsage (id : string)
  | StyleList (orgId : string)
  | StyleDetail (orgId id : string)
  | StyleAnalysis (orgId id : string)
  | ContentList (orgId : string)
  | ContentDetail (orgId id : string)
  | ContentIterations (orgId id : string).

#[global] Instance KeyKind_eq_dec : EqDecision KeyKind.
Proof. solve_decision. Defined.

Definition key_of (k : KeyKind) : QueryKey :=
  match k with
  | UserProfile => user.profile
  | OrganizationList => organization.list
  | OrganizationDetail id => organization.detail id
  | OrganizationMembers id => organization.members id
  | OrganizationUsage id => organization.usage id
  | StyleList o => style.list o
  | StyleDetail o id => style.detail o id
  | StyleAnalysis o id => style.analysis o id
  | ContentList o => content.list o
  | ContentDetail o id => content.detail o id
  | ContentIterations o id => content.iterations o id
  end.

(** The organization id a key carries: the string that follows a leading
    ["organizations"] segment. *)
Definition organization_of (k : QueryKey) : option string :=
  match k with
  | SegString "organizations" :: SegString orgId :: _ => Some orgId
  | _ => None
  end.

(** [l1] is a strict prefix of [l2]. *)
Definition strict_prefix (l1 l2 : QueryKey) : Prop :=
  l1 `prefix_of` l2 ∧ l1 ≠ l2.

(** The organization id a member of the factory was called with. *)
Definition scope_of (k : KeyKind) : option string :=
  match k with
  | UserProfile | OrganizationList => None
  | OrganizationDetail id | OrganizationMembers id | OrganizationUsage id => Some id
  | StyleList o | StyleDetail o _ | StyleAnalysis o _
  | ContentList o | ContentDetail o _ | ContentIterations o _ => Some o
  end.

(** The key [k] extends the key [p]: [p] is a prefix of [k]. *)
Definition extends (k p : QueryKey) : bool := bool_decide (p `prefix_of` k).

Definition is_style_or_content (k : KeyKind) : bool :=
  match k with
  | StyleList _ | StyleDetail _ _ | StyleAnalysis _ _
  | ContentList _ | ContentDetail _ _ | ContentIterations _ _ => true
  | _ => false
  end.

End Keys.

(** ** The query cache *)

Module Cache.
Import Keys.

(** One cached query: its key, the payload of the last successful fetch
    (the JSON text) and the flag [invalidateQueries] sets. *)
Record Query : Type := {
  queryKey : QueryKey;
  data : string;
  isInvalidated : bool;
}.

#[global] Instance Query_eq_dec : EqDecision Query.
Proof. solve_decision. Defined.

Definition QueryCache : Type := list Query.

Definition get_field (name : string) (o : JsObject) : JsValue :=
  match find (fun kv => bool_decide (kv.1 = name)) o with
  | Some kv => kv.2
  | None => VUndefined
  end.

(** The matching rule of the query library for [{ queryKey }] filters
    ([partialMatchKey]): equal values match; an object filter matches an
    object that agrees on each of the filter's keys; an array filter matches
    an array that agrees at each of the filter's indices, so a filter made of
    strings matches the keys it is a prefix of. *)
Definition object_matches (a b : JsObject) : bool :=
  forallb (fun kv => bool_decide (get_field kv.1 a = kv.2)) b.

Definition segment_matches (a b : Segment) : bool :=
  match a, b with
  | SegString x, SegString y => bool_decide (x = y)
  | SegObject x, SegObject y => object_matches x y
  | SegUndefined, SegUndefined => true
  | _, _ => false
  end.

Fixpoint partialMatchKey (a b : QueryKey) : bool :=
  match b with
  | [] => true
  | sb :: b' =>
      match a with
      | [] => segment_matches SegUndefined sb && partialMatchKey [] b'
      | sa :: a' => segment_matches sa sb && partialMatchKey a' b'
      end
  end.

Definition invalidate (q : Query) : Query :=
  {| queryKey := queryKey q; data := data q; isInvalidated := true |}.

(** [queryClient.invalidateQueries({ queryKey })]: every matching query is
    marked invalidated. *)
Definition invalidateQueries (filter : QueryKey) (qc : QueryCache) : QueryCache :=
  (fun q => if partialMatchKey (queryKey q) filter then invalidate q else q) <$> qc.

(** [queryClient.invalidateQueries()]: no filter, every query matches. *)
Definition invalidateAllQueries (qc : QueryCache) : QueryCache := invalidate <$> qc.

(** [queryClient.removeQueries({ queryKey })]: every matching query is
    dropped from the cache. *)
Definition removeQueries (filter : QueryKey) (qc : QueryCache) : QueryCache :=
  List.filter (fun q => negb (partialMatchKey (queryKey q) filter)) qc.

(** The query cached under exactly the key [k], if any. *)
Definition read (qc : QueryCache) (k : QueryKey) : option Query :=
  find (fun q => bool_decide (queryKey q = k)) qc.

(** A read is served from the cache without a refetch when the entry is there
    and has not been invalidated. *)
Definition read_fresh (qc : QueryCache) (k : QueryKey) : option Query :=
  match read qc k with
  | Some q => if isInvalidated q then None else Some q
  | None => None
  end.

End Cache.

(** ** The hooks of [hooks/api] *)

Module Hooks.
Import Keys Cache.

(** What an [onSuccess] callback does to the query cache. *)
Definition Handler : Type := QueryCache → QueryCache.

(** The part of [UseMutationOptions] that the hooks' spread can replace:
    [None] when the caller's object has no [onSuccess] property,
    [Some None] when it has one whose value is [undefined],
    [Some (Some h)] when it carries a callback. *)
Record UseMutationOptions : Type := {
  opt_onSuccess : option (option Handler);
}.

Inductive Method : Type := GET | POST | PUT | DELETE.

(** The members of [API_ENDPOINTS] the hooks call. *)
Inductive Endpoint : Type :=
  | STYLES_CREATE (orgId : string)
  | STYLES_UPDATE (orgId styleId : string)
  | STYLES_DELETE (orgId styleId : string)
  | CONTENT_GENERATE (orgId : string)
  | CONTENT_EDIT (orgId contentId : string)
  | CONTENT_DELETE (orgId contentId : string).

Record Mutation : Type := {
  mutationFn : Method * Endpoint;
  onSuccess : option Handler;
}.

(** [useMutation({ mutationFn, onSuccess, ...options })]: the properties of
    [options] are spread last and win over the hook's own. *)
Definition useMutation (fn : Method * Endpoint) (own : Handler)
    (options : option UseMutationOptions) : Mutation :=
  {| mutationFn := fn;
     onSuccess :=
       match options with
       | None => Some own
       | Some o =>
           match opt_onSuccess o with
           | None => Some own
           | Some h => h
           end
       end |}.

Definition useCreateStyle (organizationId : string)
    (options : option UseMutationOptions) : Mutation :=
  useMutation (POST, STYLES_CREATE organizationId)
    (fun qc => invalidateQueries (style.list organizationId) qc)
    options.

Definition useUpdateStyle (organizationId styleId : string)
    (options : option UseMutationOptions) : Mutation :=
  useMutation (PUT, STYLES_UPDATE organizationId styleId)
    (fun qc =>
       let qc := invalidateQueries (style.list organizationId) qc in
       invalidateQueries (style.detail organizationId styleId) qc)
    options.

Definition useDeleteStyle (organizationId styleId : string)
    (options : option UseMutationOptions) : Mutation :=
  useMutation (DELETE, STYLES_DELETE organizationId styleId)
    (fun qc =>
       let qc := invalidateQueries (style.list organizationId) qc in
       removeQueries (style.detail organizationId styleId) qc)
    options.

Definition useGenerateContent (organizationId : string)
    (options : option UseMutationOptions) : Mutation :=
  useMutation (POST, CONTENT_GENERATE organizationId)
    (fun qc =>
       let qc := invalidateQueries (content.list organizationId) qc in
       invalidateQueries (organization.usage organizationId) qc)
    options.

Definition useEditContent (organizationId contentId : string)
    (options : option UseMutationOptions) : Mutation :=
  useMutation (POST, CONTENT_EDIT organizationId contentId)
    (fun qc =>
       let qc := invalidateQueries (content.detail organizationId contentId) qc in
       let qc := invalidateQueries (content.iterations organizationId contentId) qc in
       invalidateQueries (organization.usage organizationId) qc)
    options.

Definition useDeleteContent (organizationId contentId : string)
    (options : option UseMutationOptions) : Mutation :=
  useMutation (DELETE, CONTENT_DELETE organizationId contentId)
    (fun qc =>
       let qc := invalidateQueries (content.list organizationId) qc in
       removeQueries (content.detail organizationId contentId) qc)
    options.

(** The caller's options leave the hook's own [onSuccess] in place: there
    are none, or they have no [onSuccess] property. *)
Definition keeps_onSuccess (options : option UseMutationOptions) : Prop :=
  match options with
  | None => True
  | Some o => opt_onSuccess o = None
  end.

(** The cache after the mutation's request has succeeded: the [onSuccess]
    callback in effect has run.  A failed request runs no callback. *)
Definition succeed (m : Mutation) (qc : QueryCache) : QueryCache :=
  match onSuccess m with
  | Some h => h qc
  | None => qc
  end.

(** [useInvalidateQueries] *)
Definition invalidateAll : Handler := invalidateAllQueries.
Definition invalidateOrganization (organizationId : string) : Handler :=
  invalidateQueries (strs ["organizations"; organizationId]).
Definition invalidateStyles (organizationId : string) : Handler :=
  invalidateQueries (style.list organizationId).
Definition invalidateContent (organizationId : string) : Handler :=
  invalidateQueries (content.list organizationId).

(** The keys [useStyles] and [useContent] register their list query under:
    the list key with the search params (or [undefined]) appended. *)
Definition search_segment (searchParams : option JsObject) : Segment :=
  match searchParams with
  | Some o => SegObject o
  | None => SegUndefined
  end.

Definition useStyles_queryKey (organizationId : string)
    (searchParams : option JsObject) : QueryKey :=
  style.list organizationId ++ [search_segment searchParams].

Definition useContent_queryKey (organizationId : string)
    (searchParams : option JsObject) : QueryKey :=
  content.list organizationId ++ [search_segment searchParams].

End Hooks.

(** ** The request URL of the list queries *)

Module Url.
Import Keys.

(** [String(value)] *)
Definition String_of (value : JsValue) : string :=
  match value with
  | VUndefined => "undefined"
  | VNull => "null"
  | VString s => s
  | VNum x => NumberValue.toString x
  | VBool true => "true"
  | VBool false => "false"
  end.

(** A [URLSearchParams]: its name/value pairs in the order they were
    appended. *)
Definition URLSearchParams : Type := list (string * string).

Definition append (name value : string) (params : URLSearchParams) : URLSearchParams :=
  params ++ [(name, value)].

(** [value !== undefined && value !== null && value !== ''] *)
Definition is_set (value : JsValue) : bool :=
  negb (bool_decide (value = VUndefined))
  && negb (bool_decide (value = VNull))
  && negb (bool_decide (value = VString EmptyString)).

(** The body of the [queryFn] of [useStyles] and [useContent] up to the URL:
    a fresh [URLSearchParams], and for each entry of the search params (when
    there are any) an [append] if the value passes the test. *)
Definition build_params (searchParams : option JsObject) : URLSearchParams :=
  match searchParams with
  | Some o =>
      fold_left
        (fun params kv =>
           if is_set kv.2 then append kv.1 (String_of kv.2) params else params)
        o []
  | None => []
  end.

Section Serialise.
(** The percent-encoding of the [application/x-www-form-urlencoded]
    serialiser, which is the browser's. *)
Variable encode : string → string.
(** [API_ENDPOINTS.STYLES.LIST] and [API_ENDPOINTS.CONTENT.LIST], from
    [lib/constants]. *)
Variable STYLES_LIST : string → string.
Variable CONTENT_LIST : string → string.

(** [params.toString()] *)
Definition toString (params : URLSearchParams) : string :=
  String.concat "&" ((fun kv => encode kv.1 +:+ "=" +:+ encode kv.2) <$> params).

Definition with_query (base : string) (params : URLSearchParams) : string :=
  base +:+ (if bool_decide (toString params = EmptyString) then EmptyString
           else "?" +:+ toString params).


Definition useContent_url (organizationId : string) (searchParams : option JsObject) : string :=
  with_query (CONTENT_LIST organizationId) (build_params searchParams).
End Serialise.

(** The percent-encoding of the browser's serialiser, byte by byte of the
    text: the ASCII letters and digits and [*], [-], [.] and [_] are kept, a
    space becomes [+], and every other byte becomes [%] and its two
    hexadecimal digits, in upper case. *)
Definition kept (c : Ascii.ascii) : bool :=
  let b := Ascii.nat_of_ascii c in
  ((48 <=? b)%nat && (b <=? 57)%nat) || ((65 <=? b)%nat && (b <=? 90)%nat)
  || ((97 <=? b)%nat && (b <=? 122)%nat)
  || (b =? 42)%nat || (b =? 45)%nat || (b =? 46)%nat || (b =? 95)%nat.



(** The fields of a search-params object that have a value: defined, not
    [null], and not the empty string. *)
Definition set_fields (o : JsObject) : list (string * JsValue) :=
  List.filter (fun kv => is_set kv.2) o.

End Url.

(** ** The retry policy of the query client *)

Module Retry.

(** What the policy looks at in the error of a failed request:
    [error?.status], absent when the error is [null]/[undefined] or carries
    no status (a network failure). *)
Record RequestError : Type := {
  status : option Z;
}.

(** [error?.status >= 400 && error?.status < 500] *)
Definition is_4xx (error : RequestError) : bool :=
  match status error with
  | Some s => (400 <=? s)%Z && (s <? 500)%Z
  | None => false
  end.

(** [defaultOptions.queries.retry] *)
Definition queries_retry (failureCount : nat) (error : RequestError) : bool :=
  if is_4xx error then false else (failureCount <? 3)%nat.

(** [defaultOptions.mutations.retry] *)
Definition mutations_retry (failureCount : nat) (error : RequestError) : bool :=
  if is_4xx error then false else (failureCount <? 2)%nat.

Inductive Outcome : Type :=
  | Success
  | Failure (error : RequestError).

(** The retry loop of the query library around one request.  [fn n] is the
    outcome of the execution that follows [n] failures.  After a failure the
    policy is asked with the number of failures before this one; when it
    says no, the failure is final.  The result is the number of executions
    made and the final outcome; [None] when the fuel ran out first. *)
Fixpoint retryer (fuel : nat) (retry : nat → RequestError → bool)
    (fn : nat → Outcome) (failureCount : nat) : option (nat * Outcome) :=
  match fuel with
  | O => None
  | S fuel' =>
      match fn failureCount with
      | Success => Some (S failureCount, Success)
      | Failure error =>
          if retry failureCount error
          then retryer fuel' retry fn (S failureCount)
          else Some (S failureCount, Failure error)
      end
  end.

(** Executions beyond the first one. *)
Definition retries (executions : nat) : nat := executions - 1.

End Retry.

(** ** Validation and submission of the content generation form *)

Module Forms.
Import Hooks Retry.

(** A JavaScript number as a form field holds it: [valueAsNumber] gives
    [NaN] for an input that does not parse.  Finite values are rationals
    (the range input steps by 0.1). *)
Inductive JsNumber : Type :=
  | NaN
  | Num (q : Q).

Inductive IssueCode : Type := invalid_type | too_small | too_big.

(** One validation issue: the field, the kind, and the message the schema
    gives for it ([None]: the validation library's default text). *)
Record ZodIssue : Type := {
  path : string;
  code : IssueCode;
  message : option string;
}.

(** [z.string().min(n, msg)] on a field whose value may be [null]
    ([None]).  The length is the string's [length], in UTF-16 code units. *)
Definition z_string_min (field : string) (n : nat) (msg : string)
    (value : option string) : list ZodIssue :=
  match value with
  | None => [ {| path := field; code := invalid_type; message := None |} ]
  | Some s =>
      if (JsString.length s <? n)%nat
      then [ {| path := field; code := too_small; message := Some msg |} ]
      else []
  end.

(** [z.string().optional()]: a string or [undefined], nothing to check. *)
Definition z_string_optional (field : string) (value : option string) : list ZodIssue := [].

(** [z.number().min(lo).max(hi).optional()]: [undefined] passes, [NaN] is
    not a number, and both bounds are checked. *)
Definition z_number_min_max_optional (field : string) (lo hi : Q)
    (value : option JsNumber) : list ZodIssue :=
  match value with
  | None => []
  | Some NaN => [ {| path := field; code := invalid_type; message := None |} ]
  | Some (Num q) =>
      (if Qle_bool lo q then [] else [ {| path := field; code := too_small; message := None |} ])
      ++ (if Qle_bool q hi then [] else [ {| path := field; code := too_big; message := None |} ])
  end.

(** The values of the form's fields at submission. [style_profile_id] is
    [None] when it is [null], which is what a radio group with no checked
    input reads as; with no radio input rendered it keeps its default, the
    empty string. *)
Record ContentGenerationFormData : Type := {
  brief : string;
  style_profile_id : option string;
  max_tokens : option JsNumber;
  temperature : option JsNumber;
  additional_instructions : option string;
}.

(** [contentGenerationSchema]: the issues it reports, field by field in the
    order of the object's shape.  The data is valid when there is none. *)
Definition contentGenerationSchema (d : ContentGenerationFormData) : list ZodIssue :=
  z_string_min "brief" 10 "Бриф должен содержать минимум 10 символов" (Some (brief d))
  ++ z_string_min "style_profile_id" 1 "Выберите стиль" (style_profile_id d)
  ++ z_number_min_max_optional "max_tokens" 100 4000 (max_tokens d)
  ++ z_number_min_max_optional "temperature" 0 2 (temperature d)
  ++ z_string_optional "additional_instructions" (additional_instructions d).

(** [defaultValues] of the form. *)
Definition defaultValues : ContentGenerationFormData :=
  {| brief := EmptyString;
     style_profile_id := Some EmptyString;
     max_tokens := Some (Num 2000);
     temperature := Some (Num (7 # 10));
     additional_instructions := Some EmptyString |}.

(** A request that went out to the API: method, endpoint, and for the
    generation request its body. *)
Record Request : Type := {
  req_method : Method;
  req_endpoint : Endpoint;
  req_body : ContentGenerationFormData;
}.

(** What a submission leaves behind: the form's [errors] and the requests
    issued, in order. *)
Record Submission : Type := {
  errors : list ZodIssue;
  network : list Request;
}.

(** [mutation.mutateAsync(variables)]: the query library runs the
    [mutationFn] in its retry loop, under [defaultOptions.mutations.retry] of
    the client, the hook setting no [retry] of its own.  [server n] is the
    outcome of the request that follows [n] failed ones.  The requests
    issued are one per execution.  (The browser is online; offline, the
    library holds a request back until it is.) *)
Definition mutateAsync (request : Request) (server : nat → Outcome) : list Request :=
  match retryer 3 mutations_retry server 0 with
  | Some (executions, _) => replicate executions request
  | None => []
  end.

(** [onSubmit]: [generateContentMutation.mutateAsync(data)] — the
    [mutationFn] of [useGenerateContent] posts the data; the handler catches
    what the mutation throws. *)
Definition onSubmit (organizationId : string) (data : ContentGenerationFormData)
    (server : nat → Outcome) : list Request :=
  let m := useGenerateContent organizationId None in
  mutateAsync
    {| req_method := (mutationFn m).1; req_endpoint := (mutationFn m).2; req_body := data |}
    server.

(** [handleSubmit(onSubmit)] with [zodResolver(contentGenerationSchema)]:
    the resolver runs first; the valid handler is called only when it
    reports no issue, otherwise the issues become the form's errors. *)
Definition handleSubmit (organizationId : string) (data : ContentGenerationFormData)
    (server : nat → Outcome) : Submission :=
  match contentGenerationSchema data with
  | [] => {| errors := []; network := onSubmit organizationId data server |}
  | issues => {| errors := issues; network := [] |}
  end.

End Forms.

(** ** The authentication store *)

Module User.
Record t : Type := {
    id : string;
    email : string;
    full_name : string;
    is_active : bool;
    is_verified : bool;
    created_at : string;
    updated_at : string;
    avatar_url : option string;
    timezone : option string;
    language : option string;
  }.
End User.

Module OrganizationSettings.
Record t : Type := {
    ai_model : option string;
    max_tokens_per_month : option Z;
    default_style_id : option string;
    features : option (list string);
  }.
End OrganizationSettings.

Module Organization.
Record t : Type := {
    id : string;
    name : string;
    slug : string;
    description : option string;
    created_at : string;
    updated_at : string;
    owner_id : string;
    settings : option OrganizationSettings.t;
  }.
End Organization.

Module LoginResponse.
Record t : Type := {
    access_token : string;
    refresh_token : string;
    token_type : string;
    expires_in : Z;
    user : User.t;
    organization : Organization.t;
  }.
End LoginResponse.

(** What a rejected call throws, as far as the store reads it:
    [error.detail], [None] when the thrown value has none. *)
Record Thrown : Type := {
  detail : option string;
}.

(** How an awaited promise settled. *)
Inductive Settled (A : Type) : Type :=
  | Resolved (value : A)
  | Rejected (error : Thrown).
Arguments Resolved {A} value.
Arguments Rejected {A} error.

(** [authService], from [lib/auth]: the answers its methods give during one
    run of an action.  The synchronous ones read the persisted auth data;
    [getCurrentUser], [login] and [logout] are the ones the store awaits. *)
Module authService.
Record t : Type := {
    isAuthenticated : bool;
    isTokenExpired : bool;
    getCurrentUser : Settled User.t;
    getOrganizationData : option Organization.t;
    login : string → string → Settled LoginResponse.t;
    logout : Settled unit;
  }.
End authService.

Module Auth.
Import Cache.

Record AuthState : Type := {
  user : option User.t;
  organization : option Organization.t;
  isAuthenticated : bool;
  isLoading : bool;
  error : option string;
}.

(** The store's initial state. *)
Definition initial : AuthState :=
  {| user := None; organization := None; isAuthenticated := false;
     isLoading := false; error := None |}.

(** The calls an action makes on [authService]. *)
Inductive ServiceCall : Type :=
  | login_call (email password : string)
  | logout_call
  | isAuthenticated_call
  | isTokenExpired_call
  | getCurrentUser_call
  | getOrganizationData_call
  | clearAuthData_call
  | setOrganizationData_call (organization : Organization.t).

(** The calls the store awaits: the requests to the server. *)
Definition awaited (c : ServiceCall) : bool :=
  match c with
  | login_call _ _ | logout_call | getCurrentUser_call => true
  | _ => false
  end.

(** What an action does, in order: a [set] (with the store's state after
    it), a call on [authService], or the [console.warn] of [logout]. *)
Inductive Event : Type :=
  | set_ (after : AuthState)
  | call (c : ServiceCall)
  | warn.

(** The run of an action: the store's state when it has finished, what it
    did on the way, and the error it rethrew if it did. *)
Record Run : Type := {
  final : AuthState;
  trace : list Event;
  thrown : option Thrown;
}.

(** [error.detail || fallback] *)
Definition detail_or (e : Thrown) (fallback : string) : string :=
  match detail e with
  | Some d => if bool_decide (d = EmptyString) then fallback else d
  | None => fallback
  end.

(** The state every clearing [set] of the store writes. *)
Definition cleared : AuthState :=
  {| user := None; organization := None; isAuthenticated := false;
     isLoading := false; error := None |}.

Definition login (svc : authService.t) (email password : string) (s : AuthState) : Run :=
  let s1 := {| user := user s; organization := organization s;
               isAuthenticated := isAuthenticated s;
               isLoading := true; error := None |} in
  match authService.login svc email password with
  | Resolved response =>
      let s2 := {| user := Some (LoginResponse.user response);
                   organization := Some (LoginResponse.organization response);
                   isAuthenticated := true;
                   isLoading := false;
                   error := None |} in
      {| final := s2;
         trace := [set_ s1; call (login_call email password); set_ s2];
         thrown := None |}
  | Rejected e =>
      let s2 := {| user := user s1; organization := organization s1;
                   isAuthenticated := isAuthenticated s1;
                   isLoading := false;
                   error := Some (detail_or e "Ошибка входа в систему") |} in
      {| final := s2;
         trace := [set_ s1; call (login_call email password); set_ s2];
         thrown := Some e |}
  end.

Definition logout (svc : authService.t) (s : AuthState) : Run :=
  let s1 := {| user := user s; organization := organization s;
               isAuthenticated := isAuthenticated s;
               isLoading := true; error := error s |} in
  match authService.logout svc with
  | Resolved _ =>
      {| final := cleared;
         trace := [set_ s1; call logout_call; set_ cleared];
         thrown := None |}
  | Rejected _ =>
      {| final := cleared;
         trace := [set_ s1; call logout_call; warn; set_ cleared];
         thrown := None |}
  end.

Definition setOrganization (org : Organization.t) (s : AuthState) : Run :=
  let s1 := {| user := user s; organization := Some org;
               isAuthenticated := isAuthenticated s;
               isLoading := isLoading s; error := error s |} in
  {| final := s1;
     trace := [set_ s1; call (setOrganizationData_call org)];
     thrown := None |}.

Definition clearError (s : AuthState) : Run :=
  let s1 := {| user := user s; organization := organization s;
               isAuthenticated := isAuthenticated s;
               isLoading := isLoading s; error := None |} in
  {| final := s1; trace := [set_ s1]; thrown := None |}.

Definition initialize (svc : authService.t) (s : AuthState) : Run :=
  let s1 := {| user := user s; organization := organization s;
               isAuthenticated := isAuthenticated s;
               isLoading := true; error := error s |} in
  if authService.isAuthenticated svc then
    if negb (authService.isTokenExpired svc) then
      match authService.getCurrentUser svc with
      | Resolved u =>
          let s2 := {| user := Some u;
                       organization := authService.getOrganizationData svc;
                       isAuthenticated := true;
                       isLoading := false;
                       error := None |} in
          {| final := s2;
             trace := [set_ s1; call isAuthenticated_call; call isTokenExpired_call;
                       call getCurrentUser_call; call getOrganizationData_call; set_ s2];
             thrown := None |}
      | Rejected _ =>
          {| final := cleared;
             trace := [set_ s1; call isAuthenticated_call; call isTokenExpired_call;
                       call getCurrentUser_call; call clearAuthData_call; set_ cleared];
             thrown := None |}
      end
    else
      {| final := cleared;
         trace := [set_ s1; call isAuthenticated_call; call isTokenExpired_call;
                   call clearAuthData_call; set_ cleared];
         thrown := None |}
  else
    {| final := cleared;
       trace := [set_ s1; call isAuthenticated_call; call clearAuthData_call; set_ cleared];
       thrown := None |}.

(** The session part of the state: who is logged in, in which organization,
    and whether the store counts as authenticated. *)
Definition session (s : AuthState) : option User.t * option Organization.t * bool :=
  (user s, organization s, isAuthenticated s).

(** The persisted token is present and unexpired:
    [authService.isAuthenticated() && !authService.isTokenExpired()] *)
Definition token_valid (svc : authService.t) : bool :=
  authService.isAuthenticated svc && negb (authService.isTokenExpired svc).

(** The client as a whole: the authentication store and the query cache of
    the [QueryClient] that [Providers] creates.  The store's actions work
    through [set], [get] and [authService] only; the query client is a
    constant local to the [Providers] module and is reached through
    [useQueryClient] inside components and hooks, so an action of the store
    leaves the query cache as it is. *)
Record Client : Type := {
  auth : AuthState;
  queryCache : QueryCache;
}.

Definition dispatch (action : AuthState → Run) (w : Client) : Client :=
  {| auth := final (action (auth w)); queryCache := queryCache w |}.

(** The id the components scope their queries with:
    [organization?.id || ''] *)
Definition active_organization_id (w : Client) : string :=
  match organization (auth w) with
  | Some o => Organization.id o
  | None => EmptyString
  end.

(** The calls of a trace, in order. *)
Definition calls (t : list Event) : list ServiceCall :=
  omap (fun e => match e with call c => Some c | _ => None end) t.

(** The awaited calls of a trace, in order. *)
Definition awaited_calls (t : list Event) : list ServiceCall :=
  omap (fun e => match e with call c => if awaited c then Some c else None | _ => None end) t.

(** The states the store went through, in order. *)
Definition states (t : list Event) : list AuthState :=
  omap (fun e => match e with set_ s => Some s | _ => None end) t.

End Auth.

(** ** The token of the session *)

Module TokenStore.

(** Modelled from the spec: the token that [authService.login] keeps; the
    module of [authService], [lib/auth], is not among the sources at hand.
    The spec says of [login]: "on success, stores user + organization +
    token; on failure, surfaces an error without mutating prior state", and
    of the token: "written only by login/refresh/logout.  Writers must fully
    replace it atomically".  [login_token] is the token stored after the
    call of [authService.login], given the one stored before it. *)
Definition login_token (svc : authService.t) (email password : string)
    (stored : option string) : option string :=
  match authService.login svc email password with
  | Resolved response => Some (LoginResponse.access_token response)
  | Rejected _ => stored
  end.

(** The session as the spec counts it: the user, the organization and the
    authenticated flag of the store, and the stored token. *)
Definition Session : Type := Auth.AuthState * option string.

(** [login] of the store on a session: the store's action, whose only call
    is [authService.login], and the token that call leaves. *)
Definition login (svc : authService.t) (email password : string) (w : Session)
    : Auth.Run * option string :=
  (Auth.login svc email password w.1, login_token svc email password w.2).

End TokenStore.

(** ** Organization scope of the cache *)

Module Scope.
Import Keys Cache Hooks.

(** The key every organization-scoped key of the factory starts with; it is
    the filter of [invalidateOrganization]. *)
Definition organization_scope (organizationId : string) : QueryKey :=
  strs ["organizations"; organizationId].

(** The query is cached under a key of the organization. *)
Definition under_organization (organizationId : string) (q : Query) : bool :=
  extends (queryKey q) (organization_scope organizationId).

(** The six mutations of the hooks for one organization, one style and one
    content, with the caller's options. *)
Definition mutations (organizationId styleId contentId : string)
    (options : option UseMutationOptions) : list Mutation :=
  [ useCreateStyle organizationId options;
    useUpdateStyle organizationId styleId options;
    useDeleteStyle organizationId styleId options;
    useGenerateContent organizationId options;
    useEditContent organizationId contentId options;
    useDeleteContent organizationId contentId options ].

End Scope.

(** ** The route middleware *)

Module Middleware.

(** What [middleware] reads of the request.  A cookie is [None] when the
    request does not carry it ([cookies.get(...)?.value] is [undefined]);
    the header is [None] when [headers.get] gives [null]. *)
Record NextRequest : Type := {
  pathname : string;
  access_token_cookie : option string;
  organization_id_cookie : option string;
  authorization_header : option string;
}.

(** What it answers: the request goes on to the page, with the headers set
    on the response, or a redirect to a path of the same origin with the
    search params set on it. *)
Inductive NextResponse : Type :=
  | next (headers : list (string * string))
  | redirect (target : string) (searchParams : list (string * string)).

(** Truthiness of a value that is a string or [undefined]/[null]: the empty
    string is falsy too. *)
Definition truthy (v : option string) : bool :=
  match v with
  | Some s => negb (String.eqb s EmptyString)
  | None => false
  end.

(** [a || b] *)
Definition or_else (a b : option string) : option string :=
  if truthy a then a else b.

Fixpoint drop_chars (n : nat) (s : string) : string :=
  match n, s with
  | O, _ => s
  | S n', String _ s' => drop_chars n' s'
  | S _, EmptyString => EmptyString
  end.

(** [s.replace(pattern, replacement)] with a string pattern: the first
    occurrence is replaced, and a string without one is returned as it is. *)
Fixpoint replace (pattern replacement s : string) : string :=
  if String.prefix pattern s
  then replacement +:+ drop_chars (String.length pattern) s
  else match s with
       | EmptyString => EmptyString
       | String c s' => String c (replace pattern replacement s')
       end.

(** The white space that the runtime strips from both ends of a header
    value before [headers.get] returns it: tab, line feed, carriage return
    and space. *)
Definition is_http_whitespace (c : Ascii.ascii) : bool :=
  let b := Ascii.nat_of_ascii c in
  (b =? 9)%nat || (b =? 10)%nat || (b =? 13)%nat || (b =? 32)%nat.

Fixpoint last_char (c : Ascii.ascii) (s : string) : Ascii.ascii :=
  match s with
  | EmptyString => c
  | String c' s' => last_char c' s'
  end.

(** A header value as [headers.get] returns it: no white space at either
    end. *)
Definition header_value (v : string) : bool :=
  match v with
  | EmptyString => true
  | String c s => negb (is_http_whitespace c) && negb (is_http_whitespace (last_char c s))
  end.

(** The token: the cookie, or else the [authorization] header without its
    first ["Bearer "]. *)
Definition token (request : NextRequest) : option string :=
  or_else (access_token_cookie request)
          (replace "Bearer " EmptyString <$> authorization_header request).

Definition publicRoutes : list string :=
  [ "/"; "/login"; "/register"; "/reset-password"; "/auth/callback"; "/terms";
    "/privacy" ].

Definition isPublicRoute (pathname : string) : bool :=
  existsb
    (fun route => String.eqb pathname route || String.prefix (route +:+ "/") pathname)
    publicRoutes.

(** The headers set on a response that lets a protected request through;
    [api] is [process.env.NEXT_PUBLIC_API_URL || 'http://localhost:8000']. *)
Definition security_headers (NEXT_PUBLIC_API_URL : option string) : list (string * string) :=
  let api :=
    match or_else NEXT_PUBLIC_API_URL (Some "http://localhost:8000") with
    | Some a => a
    | None => EmptyString
    end in
  [ ("X-Frame-Options", "DENY");
    ("X-Content-Type-Options", "nosniff");
    ("Referrer-Policy", "origin-when-cross-origin");
    ("X-XSS-Protection", "1; mode=block");
    ("Content-Security-Policy",
     "default-src 'self'; script-src 'self' 'unsafe-eval' 'unsafe-inline'; style-src 'self' 'unsafe-inline'; img-src 'self' data: https:; font-src 'self' data:; connect-src 'self' "
     +:+ api +:+ " https://api.openai.com;") ].

Definition middleware (NEXT_PUBLIC_API_URL : option string) (request : NextRequest)
    : NextResponse :=
  if isPublicRoute (pathname request) then next []
  else if negb (truthy (token request)) then
    redirect "/login" [("redirect", pathname request)]
  else if String.prefix "/dashboard" (pathname request)
          && negb (truthy (organization_id_cookie request)) then
    redirect "/dashboard/organizations" []
  else next (security_headers NEXT_PUBLIC_API_URL).

(** The request the browser makes when it follows a redirect: the target
    path, with the same cookies and header. *)
Definition redirected (request : NextRequest) (target : string) : NextRequest :=
  {| pathname := target;
     access_token_cookie := access_token_cookie request;
     organization_id_cookie := organization_id_cookie request;
     authorization_header := authorization_header request |}.

(** Following redirects, at most [hops] of them: the path whose page is
    finally served with the headers of its response, [None] when the
    redirects have not ended by then. *)
Fixpoint navigate (hops : nat) (NEXT_PUBLIC_API_URL : option string)
    (request : NextRequest) : option (string * list (string * string)) :=
  match middleware NEXT_PUBLIC_API_URL request with
  | next headers => Some (pathname request, headers)
  | redirect target _ =>
      match hops with
      | O => None
      | S hops' => navigate hops' NEXT_PUBLIC_API_URL (redirected request target)
      end
  end.

End Middleware.

(** ** The sidebar *)

Module Sidebar.

(** The [href]s of [navigation], in order. *)
Definition navigation : list string :=
  [ "/dashboard"; "/dashboard/content"; "/dashboard/styles"; "/dashboard/team";
    "/dashboard/analytics"; "/dashboard/settings" ].

Definition isActive (pathname href : string) : bool :=
  if String.eqb href "/dashboard" then String.eqb pathname "/dashboard"
  else String.prefix href pathname.

(** The items shown as active on a page. *)
Definition active (pathname : string) : list string :=
  List.filter (isActive pathname) navigation.

End Sidebar.

(** ** The organization store *)

Inductive Role : Type := owner | admin | member.

(** The roles [addMember] and [updateMemberRole] accept:
    ['admin' | 'member']. *)
Inductive AssignableRole : Type := as_admin | as_member.

Definition role_of (r : AssignableRole) : Role :=
  match r with
  | as_admin => admin
  | as_member => member
  end.

Module OrganizationMember.
Record t : Type := {
  id : string;
  organization_id : string;
  user_id : string;
  role : Role;
  joined_at : string;
  user : User.t;
}.
End OrganizationMember.

Module DailyUsage.
Record t : Type := {
  date : string;
  tokens : Z;
  cost : Q;
  requests : Z;
}.
End DailyUsage.

Module UsageStats.
Record t : Type := {
  total_tokens : Z;
  total_cost : Q;
  requests_count : Z;
  period_start : string;
  period_end : string;
  daily_usage : list DailyUsage.t;
}.
End UsageStats.

(** [Partial<Organization>]: the fields an update carries. *)
Module PartialOrganization.
Record t : Type := {
  name : option string;
  slug : option string;
  description : option string;
  settings : option OrganizationSettings.t;
}.
End PartialOrganization.

(** [api], from [lib/api]: how the requests of the organization store
    settle during one run of an action. *)
Module api.
Record t : Type := {
  get_organizations : Settled (list Organization.t);
  get_members : string → Settled (list OrganizationMember.t);
  get_usage : string → Settled UsageStats.t;
  post_member : string → string → AssignableRole → Settled unit;
  put_member : string → string → AssignableRole → Settled unit;
  delete_member : string → string → Settled unit;
  put_organization : string → PartialOrganization.t → Settled Organization.t;
}.
End api.

Module OrganizationStore.
Import Auth.

Record OrganizationState : Type := {
  currentOrganization : option Organization.t;
  organizations : list Organization.t;
  members : list OrganizationMember.t;
  usageStats : option UsageStats.t;
  isLoading : bool;
  error : option string;
}.

Definition initial : OrganizationState :=
  {| currentOrganization := None; organizations := []; members := [];
     usageStats := None; isLoading := false; error := None |}.

(** The requests an action sends. *)
Inductive Request : Type :=
  | GET_organizations
  | GET_members (organizationId : string)
  | GET_usage (organizationId : string)
  | POST_member (organizationId email : string) (role : AssignableRole)
  | PUT_member (organizationId userId : string) (role : AssignableRole)
  | DELETE_member (organizationId userId : string)
  | PUT_organization (organizationId : string) (data : PartialOrganization.t).

(** The run of an action: the state it leaves, the requests it sent, the
    organizations it wrote to [localStorage] under
    [STORAGE_KEYS.ORGANIZATION_DATA], and the error it rethrew. *)
Record Run : Type := {
  final : OrganizationState;
  requests : list Request;
  stored : list Organization.t;
  thrown : option Thrown;
}.

(** [set({ isLoading: true, error: null })] *)
Definition loading (s : OrganizationState) : OrganizationState :=
  {| currentOrganization := currentOrganization s; organizations := organizations s;
     members := members s; usageStats := usageStats s;
     isLoading := true; error := None |}.

(** [set({ isLoading: false, error })] *)
Definition failed (s : OrganizationState) (message : string) : OrganizationState :=
  {| currentOrganization := currentOrganization s; organizations := organizations s;
     members := members s; usageStats := usageStats s;
     isLoading := false; error := Some message |}.

Definition setCurrentOrganization (organization : Organization.t)
    (s : OrganizationState) : Run :=
  {| final := {| currentOrganization := Some organization;
                 organizations := organizations s; members := members s;
                 usageStats := usageStats s; isLoading := isLoading s;
                 error := error s |};
     requests := [];
     stored := [organization];
     thrown := None |}.

Definition loadOrganizations (a : api.t) (s : OrganizationState) : Run :=
  let s1 := loading s in
  match api.get_organizations a with
  | Resolved data =>
      let s2 := {| currentOrganization := currentOrganization s1;
                   organizations := data; members := members s1;
                   usageStats := usageStats s1; isLoading := false; error := None |} in
      match currentOrganization s2, data with
      | None, first :: _ =>
          let r := setCurrentOrganization first s2 in
          {| final := final r; requests := [GET_organizations];
             stored := stored r; thrown := None |}
      | _, _ =>
          {| final := s2; requests := [GET_organizations]; stored := []; thrown := None |}
      end
  | Rejected e =>
      {| final := failed s1 (detail_or e "Ошибка загрузки организаций");
         requests := [GET_organizations]; stored := []; thrown := Some e |}
  end.

Definition loadMembers (a : api.t) (organizationId : string) (s : OrganizationState) : Run :=
  let s1 := loading s in
  match api.get_members a organizationId with
  | Resolved data =>
      {| final := {| currentOrganization := currentOrganization s1;
                     organizations := organizations s1; members := data;
                     usageStats := usageStats s1; isLoading := false; error := None |};
         requests := [GET_members organizationId]; stored := []; thrown := None |}
  | Rejected e =>
      {| final := failed s1 (detail_or e "Ошибка загрузки участников");
         requests := [GET_members organizationId]; stored := []; thrown := Some e |}
  end.

Definition loadUsageStats (a : api.t) (organizationId : string) (s : OrganizationState) : Run :=
  let s1 := loading s in
  match api.get_usage a organizationId with
  | Resolved data =>
      {| final := {| currentOrganization := currentOrganization s1;
                     organizations := organizations s1; members := members s1;
                     usageStats := Some data; isLoading := false; error := None |};
         requests := [GET_usage organizationId]; stored := []; thrown := None |}
  | Rejected e =>
      {| final := failed s1 (detail_or e "Ошибка загрузки статистики");
         requests := [GET_usage organizationId]; stored := []; thrown := Some e |}
  end.

Definition addMember (a : api.t) (organizationId email : string) (role : AssignableRole)
    (s : OrganizationState) : Run :=
  let s1 := loading s in
  match api.post_member a organizationId email role with
  | Resolved _ =>
      let r := loadMembers a organizationId s1 in
      match thrown r with
      | None =>
          {| final := {| currentOrganization := currentOrganization (final r);
                         organizations := organizations (final r);
                         members := members (final r);
                         usageStats := usageStats (final r);
                         isLoading := false; error := None |};
             requests := POST_member organizationId email role :: requests r;
             stored := []; thrown := None |}
      | Some e =>
          {| final := failed (final r) (detail_or e "Ошибка добавления участника");
             requests := POST_member organizationId email role :: requests r;
             stored := []; thrown := Some e |}
      end
  | Rejected e =>
      {| final := failed s1 (detail_or e "Ошибка добавления участника");
         requests := [POST_member organizationId email role];
         stored := []; thrown := Some e |}
  end.

(** [{ ...member, role }] *)
Definition with_role (m : OrganizationMember.t) (r : Role) : OrganizationMember.t :=
  {| OrganizationMember.id := OrganizationMember.id m;
     OrganizationMember.organization_id := OrganizationMember.organization_id m;
     OrganizationMember.user_id := OrganizationMember.user_id m;
     OrganizationMember.role := r;
     OrganizationMember.joined_at := OrganizationMember.joined_at m;
     OrganizationMember.user := OrganizationMember.user m |}.

Definition updateMemberRole (a : api.t) (organizationId userId : string)
    (role : AssignableRole) (s : OrganizationState) : Run :=
  let s1 := loading s in
  match api.put_member a organizationId userId role with
  | Resolved _ =>
      let updatedMembers :=
        (fun m => if String.eqb (OrganizationMember.user_id m) userId
                  then with_role m (role_of role) else m) <$> members s1 in
      {| final := {| currentOrganization := currentOrganization s1;
                     organizations := organizations s1; members := updatedMembers;
                     usageStats := usageStats s1; isLoading := false; error := None |};
         requests := [PUT_member organizationId userId role];
         stored := []; thrown := None |}
  | Rejected e =>
      {| final := failed s1 (detail_or e "Ошибка обновления роли участника");
         requests := [PUT_member organizationId userId role];
         stored := []; thrown := Some e |}
  end.

Definition removeMember (a : api.t) (organizationId userId : string)
    (s : OrganizationState) : Run :=
  let s1 := loading s in
  match api.delete_member a organizationId userId with
  | Resolved _ =>
      let updatedMembers :=
        List.filter (fun m => negb (String.eqb (OrganizationMember.user_id m) userId))
                    (members s1) in
      {| final := {| currentOrganization := currentOrganization s1;
                     organizations := organizations s1; members := updatedMembers;
                     usageStats := usageStats s1; isLoading := false; error := None |};
         requests := [DELETE_member organizationId userId];
         stored := []; thrown := None |}
  | Rejected e =>
      {| final := failed s1 (detail_or e "Ошибка удаления участника");
         requests := [DELETE_member organizationId userId];
         stored := []; thrown := Some e |}
  end.

Definition updateOrganization (a : api.t) (organizationId : string)
    (data : PartialOrganization.t) (s : OrganizationState) : Run :=
  let s1 := loading s in
  match api.put_organization a organizationId data with
  | Resolved response =>
      let r :=
        match currentOrganization s1 with
        | Some current =>
            if String.eqb (Organization.id current) organizationId
            then setCurrentOrganization response s1
            else {| final := s1; requests := []; stored := []; thrown := None |}
        | None => {| final := s1; requests := []; stored := []; thrown := None |}
        end in
      let updatedOrganizations :=
        (fun org => if String.eqb (Organization.id org) organizationId
                    then response else org) <$> organizations (final r) in
      {| final := {| currentOrganization := currentOrganization (final r);
                     organizations := updatedOrganizations;
                     members := members (final r);
                     usageStats := usageStats (final r);
                     isLoading := false; error := None |};
         requests := [PUT_organization organizationId data];
         stored := stored r; thrown := None |}
  | Rejected e =>
      {| final := failed s1 (detail_or e "Ошибка обновления организации");
         requests := [PUT_organization organizationId data];
         stored := []; thrown := Some e |}
  end.

Definition clearError (s : OrganizationState) : Run :=
  {| final := {| currentOrganization := currentOrganization s;
                 organizations := organizations s; members := members s;
                 usageStats := usageStats s; isLoading := isLoading s; error := None |};
     requests := []; stored := []; thrown := None |}.

Definition clearData (s : OrganizationState) : Run :=
  {| final := initial; requests := []; stored := []; thrown := None |}.

(** What the store holds of the server's data. *)
Definition data_of (s : OrganizationState)
    : option Organization.t * list Organization.t * list OrganizationMember.t
      * option UsageStats.t :=
  (currentOrganization s, organizations s, members s, usageStats s).

(** The actions of the store that send requests, each with its arguments. *)
Inductive Action : Type :=
  | do_loadOrganizations
  | do_loadMembers (organizationId : string)
  | do_loadUsageStats (organizationId : string)
  | do_addMember (organizationId email : string) (role : AssignableRole)
  | do_updateMemberRole (organizationId userId : string) (role : AssignableRole)
  | do_removeMember (organizationId userId : string)
  | do_updateOrganization (organizationId : string) (data : PartialOrganization.t).

Definition run (a : api.t) (action : Action) (s : OrganizationState) : Run :=
  match action with
  | do_loadOrganizations => loadOrganizations a s
  | do_loadMembers o => loadMembers a o s
  | do_loadUsageStats o => loadUsageStats a o s
  | do_addMember o e r => addMember a o e r s
  | do_updateMemberRole o u r => updateMemberRole a o u r s
  | do_removeMember o u => removeMember a o u s
  | do_updateOrganization o d => updateOrganization a o d s
  end.

End OrganizationStore.

(** ** The other actions of the authentication store *)

Module RegisterData.
Record t : Type := {
  email : string;
  password : string;
  full_name : string;
  organization_name : string;
}.
End RegisterData.

(** [Partial<User>] *)
Module PartialUser.
Record t : Type := {
  email : option string;
  full_name : option string;
  avatar_url : option string;
  timezone : option string;
  language : option string;
}.
End PartialUser.

(** The methods of [authService] that [register], [refreshToken] and
    [updateUser] await. *)
Module authServiceRest.
Record t : Type := {
  register : RegisterData.t → Settled unit;
  refreshToken : Settled unit;
  updateProfile : PartialUser.t → Settled User.t;
}.
End authServiceRest.

Module AuthActions.
Import Auth.

Inductive Call : Type :=
  | register_call (userData : RegisterData.t)
  | refreshToken_call
  | updateProfile_call (userData : PartialUser.t)
  | service_call (c : ServiceCall).

(** The run of an action: the states it sets, in order; the calls it makes
    on [authService]; the error it rethrows; the state of the store at the
    moment the action's promise settles, and the state once everything it
    started has finished.  The two differ only for [refreshToken], which
    starts [logout] without awaiting it. *)
Record Run : Type := {
  sets : list AuthState;
  calls : list Call;
  thrown : option Thrown;
  at_return : AuthState;
  final : AuthState;
}.

(** A run of the actions modelled with the store, in this form. *)
Definition of_run (r : Auth.Run) : Run :=
  {| sets := states (Auth.trace r);
     calls := service_call <$> Auth.calls (Auth.trace r);
     thrown := Auth.thrown r;
     at_return := Auth.final r;
     final := Auth.final r |}.

Definition register (rest : authServiceRest.t) (userData : RegisterData.t)
    (s : AuthState) : Run :=
  let s1 := {| user := user s; organization := organization s;
               isAuthenticated := isAuthenticated s;
               isLoading := true; error := None |} in
  match authServiceRest.register rest userData with
  | Resolved _ =>
      let s2 := {| user := user s1; organization := organization s1;
                   isAuthenticated := isAuthenticated s1;
                   isLoading := false; error := None |} in
      {| sets := [s1; s2]; calls := [register_call userData]; thrown := None;
         at_return := s2; final := s2 |}
  | Rejected e =>
      let s2 := {| user := user s1; organization := organization s1;
                   isAuthenticated := isAuthenticated s1;
                   isLoading := false;
                   error := Some (detail_or e "Ошибка регистрации") |} in
      {| sets := [s1; s2]; calls := [register_call userData]; thrown := Some e;
         at_return := s2; final := s2 |}
  end.

(** On a failed refresh [get().logout()] is called and not awaited: it sets
    the loading flag and sends its request, and the error is rethrown while
    that request is on its way; the session is cleared when it settles. *)
Definition refreshToken (rest : authServiceRest.t) (svc : authService.t)
    (s : AuthState) : Run :=
  match authServiceRest.refreshToken rest with
  | Resolved _ =>
      {| sets := []; calls := [refreshToken_call]; thrown := None;
         at_return := s; final := s |}
  | Rejected e =>
      let r := logout svc s in
      {| sets := states (Auth.trace r);
         calls := refreshToken_call :: (service_call <$> Auth.calls (Auth.trace r));
         thrown := Some e;
         at_return := {| user := user s; organization := organization s;
                         isAuthenticated := isAuthenticated s;
                         isLoading := true; error := error s |};
         final := Auth.final r |}
  end.

Definition updateUser (rest : authServiceRest.t) (userData : PartialUser.t)
    (s : AuthState) : Run :=
  let s1 := {| user := user s; organization := organization s;
               isAuthenticated := isAuthenticated s;
               isLoading := true; error := None |} in
  match authServiceRest.updateProfile rest userData with
  | Resolved updatedUser =>
      let s2 := {| user := Some updatedUser; organization := organization s1;
                   isAuthenticated := isAuthenticated s1;
                   isLoading := false; error := None |} in
      {| sets := [s1; s2]; calls := [updateProfile_call userData]; thrown := None;
         at_return := s2; final := s2 |}
  | Rejected e =>
      let s2 := {| user := user s1; organization := organization s1;
                   isAuthenticated := isAuthenticated s1;
                   isLoading := false;
                   error := Some (detail_or e "Ошибка обновления профиля") |} in
      {| sets := [s1; s2]; calls := [updateProfile_call userData]; thrown := Some e;
         at_return := s2; final := s2 |}
  end.

(** The actions of the store, each with its arguments. *)
Inductive Action : Type :=
  | do_login (email password : string)
  | do_register (userData : RegisterData.t)
  | do_logout
  | do_refreshToken
  | do_updateUser (userData : PartialUser.t)
  | do_setOrganization (organization : Organization.t)
  | do_clearError
  | do_initialize.

Definition run (svc : authService.t) (rest : authServiceRest.t) (action : Action)
    (s : AuthState) : Run :=
  match action with
  | do_login email password => of_run (login svc email password s)
  | do_register userData => register rest userData s
  | do_logout => of_run (logout svc s)
  | do_refreshToken => refreshToken rest svc s
  | do_updateUser userData => updateUser rest userData s
  | do_setOrganization o => of_run (setOrganization o s)
  | do_clearError => of_run (clearError s)
  | do_initialize => of_run (initialize svc s)
  end.

(** What [partialize] keeps of the state for the local storage. *)
Record Persisted : Type := {
  persisted_user : option User.t;
  persisted_organization : option Organization.t;
  persisted_isAuthenticated : bool;
}.

Definition partialize (s : AuthState) : Persisted :=
  {| persisted_user := user s;
     persisted_organization := organization s;
     persisted_isAuthenticated := isAuthenticated s |}.

(** The state of the store after a reload: the persisted part, when there
    is one, over the initial state (the merge of the [persist] middleware). *)
Definition rehydrate (p : option Persisted) : AuthState :=
  match p with
  | Some p =>
      {| user := persisted_user p;
         organization := persisted_organization p;
         isAuthenticated := persisted_isAuthenticated p;
         isLoading := isLoading initial;
         error := error initial |}
  | None => initial
  end.

(** An authenticated state has a user. *)
Definition has_user_when_authenticated (s : AuthState) : Prop :=
  isAuthenticated s = true → is_Some (user s).

End AuthActions.

(** ** The schemas of the account forms *)

Module Schemas.

(** The kinds of issue the schemas below report: a string or array too
    short, an array too long, a string that fails a format (the e-mail
    check, a [regex]), and the issue of a [refine]. *)
Inductive Kind : Type := too_small | too_big | invalid_string | custom.

Record Issue : Type := {
  path : string;
  kind : Kind;
  message : string;
}.

Definition code (c : Ascii.ascii) : nat := Ascii.nat_of_ascii c.

(** The characters [.] does not match are the line terminators: line feed
    and carriage return, of one byte each, and U+2028 and U+2029, which are
    three bytes each of the text, [E2 80 A8] and [E2 80 A9]. *)
Definition is_lf_or_cr (c : Ascii.ascii) : bool :=
  (code c =? 10)%nat || (code c =? 13)%nat.

Definition line_separator_at (s : string) : bool :=
  match s with
  | String a (String b (String c _)) =>
      (code a =? 226)%nat && (code b =? 128)%nat
      && ((code c =? 168)%nat || (code c =? 169)%nat)
  | _ => false
  end.

(** A line terminator starts the string. *)
Definition line_terminator_at (s : string) : bool :=
  match s with
  | EmptyString => false
  | String c _ => is_lf_or_cr c || line_separator_at s
  end.

(** [[a-z]], [[A-Z]] and [\d] *)
Definition is_lower (c : Ascii.ascii) : bool := (97 <=? code c)%nat && (code c <=? 122)%nat.
Definition is_upper (c : Ascii.ascii) : bool := (65 <=? code c)%nat && (code c <=? 90)%nat.
Definition is_digit (c : Ascii.ascii) : bool := (48 <=? code c)%nat && (code c <=? 57)%nat.

(** [/^(?=.*C)/] for a class [C] of ASCII characters: from the start, some
    run of characters other than line terminators is followed by a
    character of the class. *)
Fixpoint lookahead (C : Ascii.ascii → bool) (s : string) : bool :=
  match s with
  | EmptyString => false
  | String c s' => C c || (negb (line_terminator_at s) && lookahead C s')
  end.

(** [/^(?=.*[a-z])(?=.*[A-Z])(?=.*\d)/.test(s)] *)
Definition password_pattern (s : string) : bool :=
  lookahead is_lower s && lookahead is_upper s && lookahead is_digit s.

(** [z.string().min(n, message)] on a string: its [length], in UTF-16 code
    units, is at least [n]. *)
Definition min_length (field : string) (n : nat) (text : string) (value : string)
    : list Issue :=
  if (JsString.length value <? n)%nat
  then [ {| path := field; kind := too_small; message := text |} ]
  else [].

(** [z.string().regex(re, message)], the pattern given by its test. *)
Definition regex (field : string) (test : string → bool) (text : string) (value : string)
    : list Issue :=
  if test value then []
  else [ {| path := field; kind := invalid_string; message := text |} ].

(** [.refine(check, { message, path })] on an object whose fields are all
    strings: the check runs after the fields', whatever they reported. *)
Definition refine (field : string) (check : bool) (text : string) : list Issue :=
  if check then []
  else [ {| path := field; kind := custom; message := text |} ].

Section Email.
(** The e-mail format check of [z.string().email(...)], which is the
    validation library's. *)
Variable is_email : string → bool.

Definition email_issue (value : string) : list Issue :=
  regex "email" is_email "Введите корректный email адрес" value.

Definition loginSchema (email password : string) : list Issue :=
  email_issue email
  ++ min_length "password" 6 "Пароль должен содержать минимум 6 символов" password.

Record RegisterFormData : Type := {
  email : string;
  password : string;
  confirmPassword : string;
  full_name : string;
  organization_name : string;
}.

Definition registerSchema (d : RegisterFormData) : list Issue :=
  email_issue (email d)
  ++ (min_length "password" 8 "Пароль должен содержать минимум 8 символов" (password d)
      ++ regex "password" password_pattern
           "Пароль должен содержать заглавные и строчные буквы, а также цифры"
           (password d))
  ++ min_length "full_name" 2 "Имя должно содержать минимум 2 символа" (full_name d)
  ++ min_length "organization_name" 2
       "Название организации должно содержать минимум 2 символа" (organization_name d)
  ++ refine "confirmPassword" (String.eqb (password d) (confirmPassword d))
       "Пароли не совпадают".
End Email.

Record PasswordResetConfirmFormData : Type := {
  token : string;
  new_password : string;
  confirm_password : string;
}.

Definition passwordResetConfirmSchema (d : PasswordResetConfirmFormData) : list Issue :=
  min_length "token" 1 "Токен обязателен" (token d)
  ++ (min_length "new_password" 8 "Пароль должен содержать минимум 8 символов"
        (new_password d)
      ++ regex "new_password" password_pattern
           "Пароль должен содержать заглавные и строчные буквы, а также цифры"
           (new_password d))
  ++ refine "confirm_password" (String.eqb (new_password d) (confirm_password d))
       "Пароли не совпадают".

(** Some character of the string is of the class. *)
Definition has_char (C : Ascii.ascii → bool) (s : string) : bool :=
  existsb C (String.list_ascii_of_string s).

(** The string has a line terminator somewhere. *)
Fixpoint has_line_terminator (s : string) : bool :=
  match s with
  | EmptyString => false
  | String _ s' => line_terminator_at s || has_line_terminator s'
  end.

End Schemas.

(** ** Validity of a generation request *)

Module Generation.
Import Forms.

(** An optional number within bounds: [undefined], or a number (not [NaN])
    from [lo] to [hi]. *)
Definition number_ok (lo hi : Q) (value : option JsNumber) : bool :=
  match value with
  | None => true
  | Some NaN => false
  | Some (Num q) => Qle_bool lo q && Qle_bool q hi
  end.

(** A selected style: a string of at least one character. *)
Definition style_selected (value : option string) : bool :=
  match value with
  | Some id => (1 <=? JsString.length id)%nat
  | None => false
  end.

Definition valid (d : ContentGenerationFormData) : bool :=
  (10 <=? JsString.length (brief d))%nat
  && style_selected (style_profile_id d)
  && number_ok 100 4000 (max_tokens d)
  && number_ok 0 2 (temperature d).

End Generation.

(** ** The submit handlers of the account forms *)

Module AuthForms.
Import Auth AuthActions Schemas.

(** What a submission leaves: the store, the routes pushed on the router,
    the issues shown on the form, and the calls made on [authService]. *)
Record Submission : Type := {
  store : AuthState;
  pushed : list string;
  issues : list Issue;
  service_calls : list Call;
}.

(** A submission the resolver rejects: [handleSubmit] does not call the
    handler. *)
Definition rejected (s : AuthState) (found : list Issue) : Submission :=
  {| store := s; pushed := []; issues := found; service_calls := [] |}.

(** [useLoginForm]: [form.handleSubmit(onSubmit)] *)
Definition useLoginForm_onSubmit (is_email : string → bool) (svc : authService.t)
    (email password : string) (s : AuthState) : Submission :=
  match loginSchema is_email email password with
  | [] =>
      let s0 := Auth.final (clearError s) in
      let r := login svc email password s0 in
      {| store := Auth.final r;
         pushed := match Auth.thrown r with
                   | None => ["/dashboard"]
                   | Some _ => []
                   end;
         issues := [];
         service_calls := service_call <$> Auth.calls (Auth.trace r) |}
  | found => rejected s found
  end.

(** The members of the object that [useAuth] of [hooks/auth] returns. *)
Definition useAuth_members : list string :=
  [ "user"; "organization"; "isAuthenticated"; "isLoading"; "error"; "login";
    "logout"; "clearError" ].

(** [useRegisterForm]: [form.handleSubmit(onSubmit)].  The handler takes
    [register] from [useAuth()] as [registerUser]; calling a member the
    object does not have throws inside the [try], and the [catch] swallows
    it. *)
Definition useRegisterForm_onSubmit (is_email : string → bool) (rest : authServiceRest.t)
    (data : RegisterFormData) (s : AuthState) : Submission :=
  match registerSchema is_email data with
  | [] =>
      let s0 := Auth.final (clearError s) in
      if bool_decide ("register" ∈ useAuth_members) then
        let r := register rest
                   {| RegisterData.email := email data;
                      RegisterData.password := password data;
                      RegisterData.full_name := full_name data;
                      RegisterData.organization_name := organization_name data |} s0 in
        {| store := final r;
           pushed := match thrown r with
                     | None => ["/login?registered=true"]
                     | Some _ => []
                     end;
           issues := [];
           service_calls := calls r |}
      else
        {| store := s0; pushed := []; issues := []; service_calls := [] |}
  | found => rejected s found
  end.

(** [useLogout]: [handleLogout] pushes [/login] after the logout, and in its
    [catch] as well. *)
Definition handleLogout (svc : authService.t) (s : AuthState) : Submission :=
  let r := logout svc s in
  {| store := Auth.final r;
     pushed := match Auth.thrown r with
               | None => ["/login"]
               | Some _ => ["/login"]
               end;
     issues := [];
     service_calls := service_call <$> Auth.calls (Auth.trace r) |}.

(** [useOrganizationContext]: [switchOrganization] ignores [null]. *)
Definition switchOrganization (newOrganization : option Organization.t)
    (s : AuthState) : AuthState :=
  match newOrganization with
  | Some o => Auth.final (setOrganization o s)
  | None => s
  end.

End AuthForms.

(** ** The style form and the reference articles *)

Module File.
Record t : Type := {
  name : string;
  size : Z;
  type : string;
}.
End File.

Module FileUploadResponse.
Record t : Type := {
  file_id : string;
  file_path : string;
  file_size : Z;
  file_type : string;
  upload_time : Q;
}.
End FileUploadResponse.

Module ReferenceArticle.
Record t : Type := {
  id : string;
  style_profile_id : string;
  title : string;
  content : string;
  file_path : option string;
  file_size : option Z;
  file_type : option string;
  created_at : string;
  updated_at : string;
}.
End ReferenceArticle.

Module StyleForm.
Import Schemas.

Record StyleCreationFormData : Type := {
  name : string;
  description : option string;
  reference_articles : list File.t;
}.

(** [z.array(...).min(1, ...).max(10, ...)] on an array of files. *)
Definition files_issues (files : list File.t) : list Issue :=
  (if (length files <? 1)%nat
   then [ {| path := "reference_articles"; kind := too_small;
             message := "Загрузите минимум один референсный файл" |} ]
   else [])
  ++ (if (10 <? length files)%nat
      then [ {| path := "reference_articles"; kind := too_big;
                message := "Максимум 10 файлов" |} ]
      else []).

Definition styleCreationSchema (d : StyleCreationFormData) : list Issue :=
  min_length "name" 2 "Название стиля должно содержать минимум 2 символа" (name d)
  ++ files_issues (reference_articles d).

(** How the mutations of the form settle: [mutateAsync] of the upload, per
    file, of the creation and of the update. *)
Record Server : Type := {
  uploadFile : File.t → Settled FileUploadResponse.t;
  createStyle : Settled unit;
  updateStyle : Settled unit;
}.

Inductive MutationCall : Type :=
  | upload (file : File.t)
  | create (name : string) (description : option string)
           (reference_article_ids : list string)
  | update (name : string) (description : option string).

(** The run of a submission: the mutations fired, in order; whether
    [onSuccess] was called; the error logged instead; the issues the
    resolver found. *)
Record Run : Type := {
  fired : list MutationCall;
  succeeded : bool;
  logged : option Thrown;
  issues : list Issue;
}.

(** The [for] loop of [onSubmit]: one upload after the other, each awaited,
    collecting the ids; the first failure ends it. *)
Fixpoint upload_each (server : Server) (files : list File.t)
    : list MutationCall * Settled (list string) :=
  match files with
  | [] => ([], Resolved [])
  | file :: rest =>
      match uploadFile server file with
      | Resolved uploadResult =>
          let '(sent, outcome) := upload_each server rest in
          (upload file :: sent,
           match outcome with
           | Resolved fileIds =>
               Resolved (FileUploadResponse.file_id uploadResult :: fileIds)
           | Rejected e => Rejected e
           end)
      | Rejected e => ([upload file], Rejected e)
      end
  end.

Definition settle (sent : list MutationCall) (outcome : Settled unit) : Run :=
  match outcome with
  | Resolved _ => {| fired := sent; succeeded := true; logged := None; issues := [] |}
  | Rejected e => {| fired := sent; succeeded := false; logged := Some e; issues := [] |}
  end.

Definition onSubmit (isEditing : bool) (server : Server) (data : StyleCreationFormData)
    : Run :=
  if isEditing then
    settle [update (name data) (description data)] (updateStyle server)
  else
    match upload_each server (reference_articles data) with
    | (sent, Resolved fileIds) =>
        settle (sent ++ [create (name data) (description data) fileIds])
               (createStyle server)
    | (sent, Rejected e) =>
        {| fired := sent; succeeded := false; logged := Some e; issues := [] |}
    end.

(** [handleSubmit(onSubmit)] with [zodResolver(styleCreationSchema)], which
    the form uses when it creates and when it edits. *)
Definition submit (isEditing : bool) (server : Server) (data : StyleCreationFormData)
    : Run :=
  match styleCreationSchema data with
  | [] => onSubmit isEditing server data
  | found => {| fired := []; succeeded := false; logged := None; issues := found |}
  end.

End StyleForm.

Module ReferenceArticles.

(** The character [/]. *)
Definition slash : Ascii.ascii := Ascii.ascii_of_nat 47.

(** [s.split('/')] *)
Fixpoint split_slash (s : string) : list string :=
  match s with
  | EmptyString => [EmptyString]
  | String c s' =>
      if Ascii.eqb c slash then EmptyString :: split_slash s'
      else match split_slash s' with
           | head :: tail => String c head :: tail
           | [] => [String c EmptyString]
           end
  end.

(** [file_path.split('/').pop() || 'Unknown'] *)
Definition title_of (file_path : string) : string :=
  match last (split_slash file_path) with
  | Some segment => if String.eqb segment EmptyString then "Unknown" else segment
  | None => "Unknown"
  end.

(** The article [handleUpload] makes of an upload result; [now] is
    [new Date().toISOString()]. *)
Definition article_of (styleId now : string) (result : FileUploadResponse.t)
    : ReferenceArticle.t :=
  {| ReferenceArticle.id := FileUploadResponse.file_id result;
     ReferenceArticle.style_profile_id := styleId;
     ReferenceArticle.title := title_of (FileUploadResponse.file_path result);
     ReferenceArticle.content := EmptyString;
     ReferenceArticle.file_path := Some (FileUploadResponse.file_path result);
     ReferenceArticle.file_size := Some (FileUploadResponse.file_size result);
     ReferenceArticle.file_type := Some (FileUploadResponse.file_type result);
     ReferenceArticle.created_at := now;
     ReferenceArticle.updated_at := now |}.

(** [Promise.all] of the settled uploads: the results in order when all
    resolved, else a rejection.  Which rejection is reported depends on the
    timing of the requests; the model takes the first one of the array. *)
Fixpoint all_settled (outcomes : list (Settled FileUploadResponse.t))
    : Settled (list FileUploadResponse.t) :=
  match outcomes with
  | [] => Resolved []
  | Resolved result :: rest =>
      match all_settled rest with
      | Resolved results => Resolved (result :: results)
      | Rejected e => Rejected e
      end
  | Rejected e :: _ => Rejected e
  end.

(** The run of [handleUpload] or [handleDelete]: the uploads and deletions
    started, the articles passed to [onArticlesChange] if it was called, the
    files left selected, and the error logged. *)
Record Run : Type := {
  uploads : list File.t;
  deletions : list string;
  changed : option (list ReferenceArticle.t);
  selected : list File.t;
  logged : option Thrown;
}.

Definition handleUpload (uploadFile : File.t → Settled FileUploadResponse.t)
    (styleId now : string) (articles : list ReferenceArticle.t)
    (selectedFiles : list File.t) : Run :=
  match selectedFiles with
  | [] => {| uploads := []; deletions := []; changed := None; selected := [];
             logged := None |}
  | _ =>
      match all_settled (uploadFile <$> selectedFiles) with
      | Resolved results =>
          {| uploads := selectedFiles; deletions := [];
             changed := Some (articles ++ (article_of styleId now <$> results));
             selected := []; logged := None |}
      | Rejected e =>
          {| uploads := selectedFiles; deletions := []; changed := None;
             selected := selectedFiles; logged := Some e |}
      end
  end.

Definition handleDelete (deleteFile : string → Settled unit)
    (articles : list ReferenceArticle.t) (selectedFiles : list File.t)
    (articleId : string) : Run :=
  match deleteFile articleId with
  | Resolved _ =>
      {| uploads := []; deletions := [articleId];
         changed := Some (List.filter
                            (fun article =>
                               negb (String.eqb (ReferenceArticle.id article) articleId))
                            articles);
         selected := selectedFiles; logged := None |}
  | Rejected e =>
      {| uploads := []; deletions := [articleId]; changed := None;
         selected := selectedFiles; logged := Some e |}
  end.

End ReferenceArticles.

(** ** Reading the outcome of uploads *)

Module Uploads.
Import StyleForm.

(** The upload of the file succeeds. *)
Definition stores (server : Server) (file : File.t) : bool :=
  match uploadFile server file with
  | Resolved _ => true
  | Rejected _ => false
  end.

(** The ids the server gives to the files it stores. *)
Definition ids_of (server : Server) (files : list File.t) : list string :=
  omap (fun file =>
          match uploadFile server file with
          | Resolved result => Some (FileUploadResponse.file_id result)
          | Rejected _ => None
          end) files.

(** The files up to and including the first one whose upload fails. *)
Fixpoint until_failure (server : Server) (files : list File.t) : list File.t :=
  match files with
  | [] => []
  | file :: rest =>
      if stores server file then file :: until_failure server rest else [file]
  end.

End Uploads.

Module Paths.
Import ReferenceArticles.

(** The string has no [/]. *)
Definition slash_free (s : string) : bool :=
  negb (Schemas.has_char (fun c => Ascii.eqb c slash) s).

End Paths.

(** ** The route guards of [hooks/auth] *)

Module RouteGuards.
Import Auth.

(** One run of the effect of [useProtectedRoute]: the [isChecking] flag it
    leaves and the routes it pushes. *)
Definition useProtectedRoute_effect (redirectTo : string) (s : AuthState)
    (isChecking : bool) : bool * list string :=
  if negb (isLoading s) then
    if negb (isAuthenticated s) then (isChecking, [redirectTo])
    else (false, [])
  else (isChecking, []).

(** The same for [usePublicRoute]. *)
Definition usePublicRoute_effect (redirectTo : string) (s : AuthState)
    (isChecking : bool) : bool * list string :=
  if negb (isLoading s) then
    if isAuthenticated s then (isChecking, [redirectTo])
    else (false, [])
  else (isChecking, []).

(** The [isLoading] both hooks return: [isLoading || isChecking]. *)
Definition reported_loading (s : AuthState) (isChecking : bool) : bool :=
  isLoading s || isChecking.

(** The dependencies of the effect that change from render to render:
    [isAuthenticated] and [isLoading]; [router] and [redirectTo] stay the
    same. *)
Definition dependencies (s : AuthState) : bool * bool :=
  (isAuthenticated s, isLoading s).

(** The guard over the successive states of the store that the component
    renders with.  The effect runs after a render when there was none
    before (the mount, [previous] is [None]) or when the dependencies differ
    from those of the render before; otherwise nothing runs.  (A
    development build runs the effect of a mount a second time; this is the
    production behaviour.)  After each state: the [isChecking] flag and what
    was pushed for it. *)
Fixpoint useProtectedRoute_from (redirectTo : string) (previous : option (bool * bool))
    (isChecking : bool) (history : list AuthState)
    : list (AuthState * bool * list string) :=
  match history with
  | [] => []
  | s :: rest =>
      let '(c, p) :=
        if bool_decide (previous = Some (dependencies s)) then (isChecking, [])
        else useProtectedRoute_effect redirectTo s isChecking in
      (s, c, p) :: useProtectedRoute_from redirectTo (Some (dependencies s)) c rest
  end.

(** From the mount on: [isChecking] starts [true]. *)
Definition useProtectedRoute_over (redirectTo : string) (history : list AuthState)
    : list (AuthState * bool * list string) :=
  useProtectedRoute_from redirectTo None true history.

End RouteGuards.

(** ** The password strength indicator of the registration form *)

Module PasswordStrength.
Import Schemas.

Record Strength : Type := {
  score : nat;
  label : string;
  color : string;
}.

Definition strength : list Strength :=
  [ {| score := 0; label := "Очень слабый"; color := "bg-red-500" |};
    {| score := 1; label := "Слабый"; color := "bg-red-400" |};
    {| score := 2; label := "Средний"; color := "bg-yellow-500" |};
    {| score := 3; label := "Хороший"; color := "bg-blue-500" |};
    {| score := 4; label := "Отличный"; color := "bg-green-500" |};
    {| score := 5; label := "Отличный"; color := "bg-green-500" |} ].

(** [[^A-Za-z0-9]] *)
Definition is_other (c : Ascii.ascii) : bool :=
  negb (is_upper c || is_lower c || is_digit c).

Definition point (b : bool) : nat := if b then 1 else 0.

(** The count of the five tests, each a pattern looked for anywhere in the
    password. *)
Definition count (password : string) : nat :=
  point (8 <=? JsString.length password)%nat
  + point (has_char is_lower password)
  + point (has_char is_upper password)
  + point (has_char is_digit password)
  + point (has_char is_other password).

Definition getPasswordStrength (password : string) : Strength :=
  if String.eqb password EmptyString
  then {| score := 0; label := EmptyString; color := EmptyString |}
  else default {| score := 0; label := EmptyString; color := EmptyString |}
               (strength !! Nat.min (count password) 5).

End PasswordStrength.

(** ** Sample data *)

Module Samples.
Import Keys Cache Hooks Auth.

Definition org1 : Organization.t :=
  {| Organization.id := "org-1"; Organization.name := "Acme";
     Organization.slug := "acme"; Organization.description := None;
     Organization.created_at := "2024-01-01T00:00:00Z";
     Organization.updated_at := "2024-01-01T00:00:00Z";
     Organization.owner_id := "user-1"; Organization.settings := None |}.

Definition org2 : Organization.t :=
  {| Organization.id := "org-2"; Organization.name := "Globex";
     Organization.slug := "globex"; Organization.description := None;
     Organization.created_at := "2024-02-01T00:00:00Z";
     Organization.updated_at := "2024-02-01T00:00:00Z";
     Organization.owner_id := "user-1"; Organization.settings := None |}.

Definition alice : User.t :=
  {| User.id := "user-1"; User.email := "alice@example.com";
     User.full_name := "Alice"; User.is_active := true; User.is_verified := true;
     User.created_at := "2024-01-01T00:00:00Z";
     User.updated_at := "2024-01-01T00:00:00Z";
     User.avatar_url := None; User.timezone := None; User.language := None |}.

(** A session of [alice] in [org1]. *)
Definition session1 : AuthState :=
  {| user := Some alice; organization := Some org1; isAuthenticated := true;
     isLoading := false; error := None |}.

(** Queries cached while [org1] was active. *)
Definition styles_of_org1 : Query :=
  {| queryKey := useStyles_queryKey "org-1" None;
     data := "styles of org-1";
     isInvalidated := false |}.
Definition article_of_org1 : Query :=
  {| queryKey := content.detail "org-1" "c1";
     data := "article c1";
     isInvalidated := false |}.

Definition style_of_org1 : Query :=
  {| queryKey := style.detail "org-1" "s1";
     data := "style s1";
     isInvalidated := false |}.

(** The client of [alice] after she has browsed the styles and one article
    of [org1]. *)
Definition client1 : Client :=
  {| auth := session1; queryCache := [styles_of_org1; article_of_org1] |}.

Definition server_down : Thrown := {| detail := None |}.

Definition bad_credentials : Thrown := {| detail := Some "Invalid credentials" |}.

(** A persisted token that is present and unexpired while the request for
    the current user fails. *)
Definition token_valid_fetch_fails : authService.t :=
  {| authService.isAuthenticated := true;
     authService.isTokenExpired := false;
     authService.getCurrentUser := Rejected server_down;
     authService.getOrganizationData := Some org1;
     authService.login := fun _ _ => Rejected bad_credentials;
     authService.logout := Rejected server_down |}.

(** The same with a server that answers. *)
Definition token_valid_fetch_succeeds : authService.t :=
  {| authService.isAuthenticated := true;
     authService.isTokenExpired := false;
     authService.getCurrentUser := Resolved alice;
     authService.getOrganizationData := Some org1;
     authService.login := fun _ _ =>
       Resolved {| LoginResponse.access_token := "access";
                   LoginResponse.refresh_token := "refresh";
                   LoginResponse.token_type := "bearer";
                   LoginResponse.expires_in := 3600;
                   LoginResponse.user := alice;
                   LoginResponse.organization := org2 |};
     authService.logout := Resolved tt |}.

(** The search params [ContentList] passes with an empty search box and the
    status filter on drafts. *)
Definition content_search : JsObject :=
  [ ("query", VUndefined); ("status", VString "draft"); ("per_page", VNumber 20);
    ("sort_by", VString "created_at"); ("sort_order", VString "desc") ].

End Samples.

Module MoreSamples.
Import Keys Cache Hooks Auth Samples.

Definition iterations_of_article : Query :=
  {| queryKey := content.iterations "org-1" "c1";
     data := "iterations of c1";
     isInvalidated := false |}.

Definition articles_of_org1 : Query :=
  {| queryKey := useContent_queryKey "org-1" (Some content_search);
     data := "articles of org-1";
     isInvalidated := false |}.

Definition usage_of_org1 : Query :=
  {| queryKey := organization.usage "org-1";
     data := "usage of org-1";
     isInvalidated := false |}.

Definition articles_of_org2 : Query :=
  {| queryKey := useContent_queryKey "org-2" None;
     data := "articles of org-2";
     isInvalidated := false |}.

Definition profile_of_alice : Query :=
  {| queryKey := user.profile;
     data := "alice";
     isInvalidated := false |}.

Definition cache1 : QueryCache :=
  [ profile_of_alice; styles_of_org1; style_of_org1; articles_of_org1;
    article_of_org1; iterations_of_article; usage_of_org1; articles_of_org2 ].

End MoreSamples.

Module RouteSamples.
Import Middleware.

(** A signed-in visitor with an organization on the content page. *)
Definition content_page_request : NextRequest :=
  {| pathname := "/dashboard/content";
     access_token_cookie := Some "token-1";
     organization_id_cookie := Some "org-1";
     authorization_header := None |}.

(** A visitor without credentials asking for a style. *)
Definition anonymous_request : NextRequest :=
  {| pathname := "/dashboard/styles/s1";
     access_token_cookie := None;
     organization_id_cookie := None;
     authorization_header := None |}.

(** A signed-in visitor who has no organization cookie yet. *)
Definition no_organization_request : NextRequest :=
  {| pathname := "/dashboard";
     access_token_cookie := Some "token-1";
     organization_id_cookie := None;
     authorization_header := None |}.

End RouteSamples.

Module TeamSamples.
Import Samples OrganizationStore.

Definition bob : User.t :=
  {| User.id := "user-2"; User.email := "bob@example.com";
     User.full_name := "Bob"; User.is_active := true; User.is_verified := true;
     User.created_at := "2024-01-02T00:00:00Z";
     User.updated_at := "2024-01-02T00:00:00Z";
     User.avatar_url := None; User.timezone := None; User.language := None |}.

Definition alice_owner : OrganizationMember.t :=
  {| OrganizationMember.id := "m-1"; OrganizationMember.organization_id := "org-1";
     OrganizationMember.user_id := "user-1"; OrganizationMember.role := owner;
     OrganizationMember.joined_at := "2024-01-01T00:00:00Z";
     OrganizationMember.user := alice |}.

Definition bob_member : OrganizationMember.t :=
  {| OrganizationMember.id := "m-2"; OrganizationMember.organization_id := "org-1";
     OrganizationMember.user_id := "user-2"; OrganizationMember.role := member;
     OrganizationMember.joined_at := "2024-01-02T00:00:00Z";
     OrganizationMember.user := bob |}.

(** [org1] after a rename. *)
Definition org1_renamed : Organization.t :=
  {| Organization.id := "org-1"; Organization.name := "Acme Corp";
     Organization.slug := "acme"; Organization.description := None;
     Organization.created_at := "2024-01-01T00:00:00Z";
     Organization.updated_at := "2024-03-01T00:00:00Z";
     Organization.owner_id := "user-1"; Organization.settings := None |}.

Definition rename : PartialOrganization.t :=
  {| PartialOrganization.name := Some "Acme Corp"; PartialOrganization.slug := None;
     PartialOrganization.description := None; PartialOrganization.settings := None |}.

(** A server that answers every request. *)
Definition server_up : api.t :=
  {| api.get_organizations := Resolved [org2; org1];
     api.get_members := fun _ => Resolved [alice_owner; bob_member];
     api.get_usage := fun _ =>
       Resolved {| UsageStats.total_tokens := 1200; UsageStats.total_cost := 3 # 100;
                   UsageStats.requests_count := 4;
                   UsageStats.period_start := "2024-03-01";
                   UsageStats.period_end := "2024-03-31";
                   UsageStats.daily_usage := [] |};
     api.post_member := fun _ _ _ => Resolved tt;
     api.put_member := fun _ _ _ => Resolved tt;
     api.delete_member := fun _ _ => Resolved tt;
     api.put_organization := fun _ _ => Resolved org1_renamed |}.

(** A server that accepts a new member and then fails to list the members. *)
Definition listing_fails : api.t :=
  {| api.get_organizations := Rejected server_down;
     api.get_members := fun _ => Rejected server_down;
     api.get_usage := fun _ => Rejected server_down;
     api.post_member := fun _ _ _ => Resolved tt;
     api.put_member := fun _ _ _ => Rejected bad_credentials;
     api.delete_member := fun _ _ => Rejected server_down;
     api.put_organization := fun _ _ => Rejected server_down |}.

(** The store while [org1] is the current organization. *)
Definition team_of_org1 : OrganizationState :=
  {| currentOrganization := Some org1; organizations := [org1; org2];
     members := [alice_owner; bob_member]; usageStats := None;
     isLoading := false; error := None |}.

End TeamSamples.

Module AccountSamples.
Import Samples Auth AuthActions.

Definition new_account : RegisterData.t :=
  {| RegisterData.email := "carol@example.com"; RegisterData.password := "Secret123";
     RegisterData.full_name := "Carol"; RegisterData.organization_name := "Initech" |}.

Definition new_name : PartialUser.t :=
  {| PartialUser.email := None; PartialUser.full_name := Some "Alice B.";
     PartialUser.avatar_url := None; PartialUser.timezone := None;
     PartialUser.language := None |}.

Definition alice_renamed : User.t :=
  {| User.id := "user-1"; User.email := "alice@example.com";
     User.full_name := "Alice B."; User.is_active := true; User.is_verified := true;
     User.created_at := "2024-01-01T00:00:00Z";
     User.updated_at := "2024-03-01T00:00:00Z";
     User.avatar_url := None; User.timezone := None; User.language := None |}.

Definition account_service : authServiceRest.t :=
  {| authServiceRest.register := fun _ => Resolved tt;
     authServiceRest.refreshToken := Resolved tt;
     authServiceRest.updateProfile := fun _ => Resolved alice_renamed |}.

(** The refresh credential is no longer accepted. *)
Definition refresh_refused : authServiceRest.t :=
  {| authServiceRest.register := fun _ => Rejected bad_credentials;
     authServiceRest.refreshToken := Rejected bad_credentials;
     authServiceRest.updateProfile := fun _ => Rejected server_down |}.

End AccountSamples.

Module FormSamples.
Import Samples StyleForm ReferenceArticles.

Definition notes : File.t :=
  {| File.name := "notes.txt"; File.size := 2048; File.type := "text/plain" |}.

Definition essay : File.t :=
  {| File.name := "essay.pdf"; File.size := 90000; File.type := "application/pdf" |}.

Definition broken : File.t :=
  {| File.name := "broken.pdf"; File.size := 10; File.type := "application/pdf" |}.

Definition stored_as (id path : string) (f : File.t) : FileUploadResponse.t :=
  {| FileUploadResponse.file_id := id;
     FileUploadResponse.file_path := path;
     FileUploadResponse.file_size := File.size f;
     FileUploadResponse.file_type := File.type f;
     FileUploadResponse.upload_time := 1 # 2 |}.

(** A server that stores every file but [broken]. *)
Definition storage : Server :=
  {| uploadFile := fun f =>
       if String.eqb (File.name f) "broken.pdf" then Rejected server_down
       else Resolved (stored_as ("id-" +:+ File.name f) ("uploads/org-1/" +:+ File.name f) f);
     createStyle := Resolved tt;
     updateStyle := Resolved tt |}.

Definition formal_style (files : list File.t) : StyleCreationFormData :=
  {| name := "Formal"; description := None; reference_articles := files |}.

End FormSamples.



(** * Properties *)

Import Keys Cache Hooks.

(** Case analysis on a membership in an explicit list. *)
Ltac elem_inv H :=
  repeat match type of H with
         | _ ∈ _ :: _ => apply elem_of_cons in H as [H|H]
         | _ ∈ [] => by apply elem_of_nil in H
         end.

(** ** Matching and reading *)

Lemma partialMatchKey_strs (l : list string) (k : QueryKey) :
  partialMatchKey k (strs l) = bool_decide (strs l `prefix_of` k).
Proof.
  revert k. induction l as [|x l IH]; intros k.
  - rewrite bool_decide_eq_true_2 by apply prefix_nil. reflexivity.
  - destruct k as [|sa k'].
    + rewrite bool_decide_eq_false_2; [reflexivity|].
      intros H. apply prefix_nil_inv in H. discriminate.
    + change (partialMatchKey (sa :: k') (strs (x :: l)))
        with (segment_matches sa (SegString x) && partialMatchKey k' (strs l)).
      rewrite IH. destruct sa as [y|o|]; cbn [segment_matches].
      * destruct (decide (y = x)) as [->|Hne].
        -- rewrite (bool_decide_eq_true_2 (x = x)) by reflexivity.
           cbn [andb]. apply bool_decide_ext. split.
           ++ intros H. by apply prefix_cons.
           ++ intros H. by apply prefix_cons_inv_2 in H.
        -- rewrite (bool_decide_eq_false_2 (y = x)) by exact Hne.
           cbn [andb]. symmetry. apply bool_decide_eq_false_2. intros H.
           apply prefix_cons_inv_1 in H. congruence.
      * cbn [andb]. symmetry. apply bool_decide_eq_false_2. intros H.
        apply prefix_cons_inv_1 in H. discriminate.
      * cbn [andb]. symmetry. apply bool_decide_eq_false_2. intros H.
        apply prefix_cons_inv_1 in H. discriminate.
Qed.

Lemma read_invalidateQueries (f k : QueryKey) (qc : QueryCache) :
  read (invalidateQueries f qc) k
  = (if partialMatchKey k f then invalidate else id) <$> read qc k.
Proof.
  unfold read, invalidateQueries.
  induction qc as [|q qc IH]; simpl; [reflexivity|].
  destruct (partialMatchKey (queryKey q) f) eqn:Hm; simpl;
    destruct (decide (queryKey q = k)) as [Hk|Hk].
  - rewrite !bool_decide_eq_true_2 by assumption. simpl. rewrite <- Hk, Hm. reflexivity.
  - rewrite !bool_decide_eq_false_2 by assumption. exact IH.
  - rewrite !bool_decide_eq_true_2 by assumption. simpl. rewrite <- Hk, Hm. reflexivity.
  - rewrite !bool_decide_eq_false_2 by assumption. exact IH.
Qed.

Lemma read_removeQueries (f k : QueryKey) (qc : QueryCache) :
  read (removeQueries f qc) k = if partialMatchKey k f then None else read qc k.
Proof.
  unfold read, removeQueries.
  induction qc as [|q qc IH]; simpl.
  - by destruct (partialMatchKey k f).
  - destruct (partialMatchKey (queryKey q) f) eqn:Hm; simpl.
    + destruct (decide (queryKey q = k)) as [Hk|Hk].
      * rewrite bool_decide_eq_true_2 by assumption. rewrite IH, <- Hk, Hm. reflexivity.
      * rewrite bool_decide_eq_false_2 by assumption. exact IH.
    + destruct (decide (queryKey q = k)) as [Hk|Hk].
      * rewrite !bool_decide_eq_true_2 by assumption. rewrite <- Hk, Hm. reflexivity.
      * rewrite !bool_decide_eq_false_2 by assumption. exact IH.
Qed.

Lemma read_fresh_invalidated (qc : QueryCache) (k : QueryKey) :
  read_fresh qc k = None ↔ ∀ q, read qc k = Some q → isInvalidated q = true.
Proof.
  unfold read_fresh. destruct (read qc k) as [q|]; [|by split].
  destruct (isInvalidated q) eqn:Hi; split; try done.
  - intros _ q' [= <-]. exact Hi.
  - intros H. specialize (H q eq_refl). congruence.
Qed.

Lemma partialMatchKey_app (l : list string) (rest : QueryKey) :
  partialMatchKey (strs l ++ rest) (strs l) = true.
Proof.
  rewrite partialMatchKey_strs. apply bool_decide_eq_true_2.
  by apply prefix_app_r.
Qed.

Lemma partialMatchKey_self (l : list string) :
  partialMatchKey (strs l) (strs l) = true.
Proof.
  rewrite partialMatchKey_strs. by apply bool_decide_eq_true_2.
Qed.

Lemma search_segment_not_string (sp : option JsObject) (s : string) :
  search_segment sp ≠ SegString s.
Proof. by destruct sp. Qed.

(** A list query's key is not under any detail key of the same list. *)
Lemma partialMatchKey_search (l : list string) (sp : option JsObject) (id : string) :
  partialMatchKey (strs l ++ [search_segment sp]) (strs l ++ [SegString id]) = false.
Proof.
  change (strs l ++ [SegString id]) with (strs l ++ strs [id]).
  unfold strs at 2 3. rewrite <- fmap_app. fold (strs (l ++ [id])).
  rewrite partialMatchKey_strs. apply bool_decide_eq_false_2.
  unfold strs. rewrite fmap_app. intros H.
  apply prefix_app_inv in H. apply prefix_cons_inv_1 in H.
  symmetry in H. by apply search_segment_not_string in H.
Qed.

Lemma succeed_own (fn : Method * Endpoint) (own : Handler)
    (options : option UseMutationOptions) (qc : QueryCache) :
  keeps_onSuccess options → succeed (useMutation fn own options) qc = own qc.
Proof.
  unfold succeed, useMutation, keeps_onSuccess.
  destruct options as [o|]; simpl; [|done].
  by intros ->.
Qed.

(** ** The key factory *)

(** C10, as stated, fails: the organization-list key carries no organization
    id either, and it is not the user-profile key. *)
Lemma organization_list_key_carries_no_organization_id :
  organization_of (key_of OrganizationList) = None
  ∧ scope_of OrganizationList = None
  ∧ OrganizationList ≠ UserProfile
  ∧ key_of OrganizationList ≠ key_of UserProfile.
Proof. repeat split; discriminate. Qed.

(** C10, amended: for every organization id and entity id the detail,
    analysis and iterations keys extend the list key of their kind as a
    strict prefix; every style and content key begins with
    ["organizations"; organization id]; the keys of the factory that carry
    no organization id are exactly the user-profile key and the
    organization-list key. *)
Theorem queryKeys_namespacing (orgId id : string) :
  strict_prefix (style.list orgId) (style.detail orgId id)
  ∧ strict_prefix (style.list orgId) (style.analysis orgId id)
  ∧ strict_prefix (content.list orgId) (content.detail orgId id)
  ∧ strict_prefix (content.list orgId) (content.iterations orgId id)
  ∧ (∀ k, is_style_or_content k = true →
       ∃ o, scope_of k = Some o
            ∧ strs ["organizations"; o] `prefix_of` key_of k
            ∧ organization_of (key_of k) = Some o)
  ∧ (∀ k, organization_of (key_of k) = None ↔ k = UserProfile ∨ k = OrganizationList).
Proof.
  repeat split.
  - by exists [SegString id].
  - discriminate.
  - by exists [SegString id; SegString "analysis"].
  - discriminate.
  - by exists [SegString id].
  - discriminate.
  - by exists [SegString id; SegString "iterations"].
  - discriminate.
  - intros k Hk. destruct k as [| |i|i|i|o|o i|o i|o|o i|o i]; try discriminate Hk;
      exists o; (split; [reflexivity|]); (split; [|reflexivity]).
    + by exists [SegString "styles"].
    + by exists [SegString "styles"; SegString i].
    + by exists [SegString "styles"; SegString i; SegString "analysis"].
    + by exists [SegString "content"].
    + by exists [SegString "content"; SegString i].
    + by exists [SegString "content"; SegString i; SegString "iterations"].
  - intros H. destruct k; try discriminate H; auto.
  - intros [-> | ->]; reflexivity.
Qed.

(** ** Invalidation after a mutation *)

Import Samples.

(** Two invalidations in a row mark what either filter matches. *)
Lemma invalidateQueries_twice (f g : QueryKey) (qc : QueryCache) :
  invalidateQueries g (invalidateQueries f qc)
  = (fun q => if partialMatchKey (queryKey q) f || partialMatchKey (queryKey q) g
              then invalidate q else q) <$> qc.
Proof.
  unfold invalidateQueries. rewrite <- list_fmap_compose.
  apply list_fmap_ext. intros _ q _. simpl.
  destruct (partialMatchKey (queryKey q) f); simpl;
    by destruct (partialMatchKey (queryKey q) g).
Qed.

(** C4, as stated, fails: a cached content detail entry of the organization
    is neither the content list entry nor the usage entry, and a successful
    generation marks it stale too, its key being under the content list
    key. *)
Lemma generate_content_also_invalidates_content_detail :
  isInvalidated article_of_org1 = false
  ∧ queryKey article_of_org1 ≠ organization.usage "org-1"
  ∧ queryKey article_of_org1 ≠ content.list "org-1"
  ∧ (∀ sp, queryKey article_of_org1 ≠ useContent_queryKey "org-1" sp)
  ∧ succeed (useGenerateContent "org-1" None) [article_of_org1]
    = [invalidate article_of_org1]
  ∧ read_fresh (succeed (useGenerateContent "org-1" None) [article_of_org1])
      (content.detail "org-1" "c1") = None.
Proof.
  repeat split; try discriminate.
  intros sp H. injection H as H. symmetry in H.
  by apply search_segment_not_string in H.
Qed.

(** C4, amended: on a successful generate-content mutation whose [onSuccess]
    is the hook's own, exactly the cache entries whose key extends the
    content list key of the organization (the list entries for any search
    params, and with them the detail and iterations entries) or the usage
    key of the organization are marked stale; every other entry is left as
    it is, and no entry is removed. *)
Theorem generate_content_invalidates_by_prefix
    (organizationId : string) (options : option UseMutationOptions) (qc : QueryCache) :
  keeps_onSuccess options →
  succeed (useGenerateContent organizationId options) qc
  = (fun q =>
       if extends (queryKey q) (content.list organizationId)
          || extends (queryKey q) (organization.usage organizationId)
       then invalidate q else q) <$> qc.
Proof.
  intros Hopt. unfold useGenerateContent. rewrite succeed_own by exact Hopt.
  cbv zeta. rewrite invalidateQueries_twice.
  apply list_fmap_ext. intros _ q _. unfold extends.
  unfold content.list, organization.usage. by rewrite !partialMatchKey_strs.
Qed.

Lemma generate_content_invalidates_by_prefix_witness :
  keeps_onSuccess None
  ∧ succeed (useGenerateContent "org-1" None) [styles_of_org1; article_of_org1]
    = [styles_of_org1; invalidate article_of_org1].
Proof.
  split; [exact I|].
  rewrite (generate_content_invalidates_by_prefix "org-1" None _ I).
  reflexivity.
Defined.

(** C5, as stated, fails twice.  The options of the caller are spread after
    the hook's own [onSuccess]: with a callback of the caller in them, a
    successful update marks neither the style list entry nor the style
    detail entry, and both are served as fresh afterwards.  And with the
    hook's own [onSuccess], a successful delete does not mark the detail
    entry stale: the entry is removed from the cache, which keeps the list
    entry only. *)
Lemma style_mutation_can_leave_list_and_detail_fresh :
  isInvalidated styles_of_org1 = false
  ∧ isInvalidated style_of_org1 = false
  ∧ read_fresh
      (succeed (useUpdateStyle "org-1" "s1"
                  (Some {| opt_onSuccess := Some (Some (fun qc => qc)) |}))
         [styles_of_org1; style_of_org1])
      (useStyles_queryKey "org-1" None) = Some styles_of_org1
  ∧ read_fresh
      (succeed (useUpdateStyle "org-1" "s1"
                  (Some {| opt_onSuccess := Some (Some (fun qc => qc)) |}))
         [styles_of_org1; style_of_org1])
      (style.detail "org-1" "s1") = Some style_of_org1
  ∧ succeed (useDeleteStyle "org-1" "s1" None) [styles_of_org1; style_of_org1]
    = [invalidate styles_of_org1]
  ∧ read (succeed (useDeleteStyle "org-1" "s1" None) [styles_of_org1; style_of_org1])
      (style.detail "org-1" "s1") = None.
Proof. repeat split. Qed.

(** C5, amended: when a create, update or delete of a style profile succeeds
    with the hook's own [onSuccess] (the options of the caller do not replace
    it), neither the style list entry of the organization (whatever its
    search params) nor the style detail entry of the style id is served as
    fresh any more.  After create and update both are still cached, marked
    stale; after delete the list entries are marked stale and the detail
    entry is removed. *)
Theorem style_mutations_invalidate_list_and_detail
    (organizationId styleId : string) (options : option UseMutationOptions)
    (qc : QueryCache) :
  keeps_onSuccess options →
  let create := succeed (useCreateStyle organizationId options) qc in
  let update := succeed (useUpdateStyle organizationId styleId options) qc in
  let delete := succeed (useDeleteStyle organizationId styleId options) qc in
  let detail := style.detail organizationId styleId in
  (∀ qc', qc' ∈ [create; update; delete] →
     (∀ sp, read_fresh qc' (useStyles_queryKey organizationId sp) = None)
     ∧ read_fresh qc' detail = None)
  ∧ (∀ qc', qc' ∈ [create; update; delete] →
     ∀ sp, read qc' (useStyles_queryKey organizationId sp)
           = invalidate <$> read qc (useStyles_queryKey organizationId sp))
  ∧ read create detail = invalidate <$> read qc detail
  ∧ read update detail = invalidate <$> read qc detail
  ∧ read delete detail = None.
Proof.
  intros Hopt create update delete detail.
  assert (Hl : ∀ sp, partialMatchKey (useStyles_queryKey organizationId sp)
                       (style.list organizationId) = true).
  { intros sp. apply partialMatchKey_app. }
  assert (Hd : ∀ sp, partialMatchKey (useStyles_queryKey organizationId sp) detail = false).
  { intros sp. apply (partialMatchKey_search ["organizations"; organizationId; "styles"]). }
  assert (Hdl : partialMatchKey detail (style.list organizationId) = true).
  { apply (partialMatchKey_app ["organizations"; organizationId; "styles"] [SegString styleId]). }
  assert (Hdd : partialMatchKey detail detail = true).
  { apply partialMatchKey_self. }
  assert (Hcl : ∀ sp, read create (useStyles_queryKey organizationId sp)
                      = invalidate <$> read qc (useStyles_queryKey organizationId sp)).
  { intros sp. unfold create, useCreateStyle. rewrite succeed_own by exact Hopt.
    by rewrite read_invalidateQueries, Hl. }
  assert (Hul : ∀ sp, read update (useStyles_queryKey organizationId sp)
                      = invalidate <$> read qc (useStyles_queryKey organizationId sp)).
  { intros sp. unfold update, useUpdateStyle. rewrite succeed_own by exact Hopt.
    cbv zeta. fold detail. rewrite !read_invalidateQueries, Hl, Hd.
    by destruct (read qc _). }
  assert (Hdel : ∀ sp, read delete (useStyles_queryKey organizationId sp)
                       = invalidate <$> read qc (useStyles_queryKey organizationId sp)).
  { intros sp. unfold delete, useDeleteStyle. rewrite succeed_own by exact Hopt.
    cbv zeta. fold detail. by rewrite read_removeQueries, Hd, read_invalidateQueries, Hl. }
  assert (Hcd : read create detail = invalidate <$> read qc detail).
  { unfold create, useCreateStyle. rewrite succeed_own by exact Hopt.
    by rewrite read_invalidateQueries, Hdl. }
  assert (Hud : read update detail = invalidate <$> read qc detail).
  { unfold update, useUpdateStyle. rewrite succeed_own by exact Hopt.
    cbv zeta. fold detail. rewrite !read_invalidateQueries, Hdl, Hdd.
    by destruct (read qc detail). }
  assert (Hdeld : read delete detail = None).
  { unfold delete, useDeleteStyle. rewrite succeed_own by exact Hopt.
    cbv zeta. fold detail. by rewrite read_removeQueries, Hdd. }
  assert (Hstale : ∀ c k, read c k = invalidate <$> read qc k → read_fresh c k = None).
  { intros c k H. unfold read_fresh. rewrite H. by destruct (read qc k). }
  split; [|split; [|by repeat split]].
  - intros qc' Hin. apply elem_of_cons in Hin as [-> | Hin];
      [|apply elem_of_cons in Hin as [-> | Hin];
        [|apply list_elem_of_singleton in Hin as ->]].
    + split; [intros sp|]; by apply Hstale.
    + split; [intros sp|]; by apply Hstale.
    + split; [intros sp; by apply Hstale|]. unfold read_fresh. by rewrite Hdeld.
  - intros qc' Hin. apply elem_of_cons in Hin as [-> | Hin];
      [|apply elem_of_cons in Hin as [-> | Hin];
        [|apply list_elem_of_singleton in Hin as ->]]; assumption.
Qed.

Lemma style_mutations_invalidate_list_and_detail_witness :
  keeps_onSuccess None
  ∧ read_fresh (succeed (useCreateStyle "org-1" None) [styles_of_org1; style_of_org1])
      (style.detail "org-1" "s1") = None
  ∧ read (succeed (useDeleteStyle "org-1" "s1" None) [styles_of_org1; style_of_org1])
      (useStyles_queryKey "org-1" None) = Some (invalidate styles_of_org1).
Proof.
  pose proof (style_mutations_invalidate_list_and_detail "org-1" "s1" None
                [styles_of_org1; style_of_org1] I) as (Hstale & Hlist & _).
  split; [exact I|]. split.
  - apply (Hstale _ ltac:(left)).
  - rewrite (Hlist _ ltac:(do 2 right; left)). reflexivity.
Defined.

(** ** The query string of the list requests *)

Import Url.

Lemma build_params_fold (o : JsObject) (acc : URLSearchParams) :
  fold_left
    (fun params kv =>
       if is_set kv.2 then append kv.1 (String_of kv.2) params else params)
    o acc
  = acc ++ ((fun kv => (kv.1, String_of kv.2)) <$> set_fields o).
Proof.
  revert acc. induction o as [|[name value] o IH]; intros acc; simpl.
  - by rewrite app_nil_r.
  - rewrite IH. unfold set_fields. simpl.
    destruct (is_set value); simpl; [|reflexivity].
    unfold append. by rewrite <- app_assoc.
Qed.

Lemma is_set_spec (v : JsValue) :
  is_set v = true ↔ v ≠ VUndefined ∧ v ≠ VNull ∧ v ≠ VString EmptyString.
Proof.
  unfold is_set. rewrite !andb_true_iff, !negb_true_iff, !bool_decide_eq_false.
  tauto.
Qed.


Lemma append_nonempty_r (a b : string) : b ≠ EmptyString → a +:+ b ≠ EmptyString.
Proof. destruct a; simpl; [done|discriminate]. Qed.






(** ** The retry policy *)

Import Retry.

Lemma is_4xx_status (s : Z) :
  is_4xx {| status := Some s |} = true ↔ (400 ≤ s < 500)%Z.
Proof. unfold is_4xx. simpl. rewrite andb_true_iff. lia. Qed.

Lemma queries_retry_spec (failureCount : nat) (error : RequestError) :
  queries_retry failureCount error = true
  ↔ is_4xx error = false ∧ (failureCount < 3)%nat.
Proof.
  unfold queries_retry. destruct (is_4xx error).
  - split; [discriminate|]. by intros [? _].
  - rewrite Nat.ltb_lt. tauto.
Qed.

Lemma mutations_retry_spec (failureCount : nat) (error : RequestError) :
  mutations_retry failureCount error = true
  ↔ is_4xx error = false ∧ (failureCount < 2)%nat.
Proof.
  unfold mutations_retry. destruct (is_4xx error).
  - split; [discriminate|]. by intros [? _].
  - rewrite Nat.ltb_lt. tauto.
Qed.

Ltac run_retryer fn :=
  repeat (cbn [retryer]; unfold queries_retry, mutations_retry;
          match goal with
          | |- context [match fn ?k with _ => _ end] => destruct (fn k)
          | |- context [if is_4xx ?e then _ else _] => destruct (is_4xx e)
          end; cbn [Nat.ltb Nat.leb]);
  eexists _, _; (split; [reflexivity|unfold retries; simpl; lia]).

(** C7: the retry policy grants a retry to a failed read only while fewer
    than 3 failures came before it and to a failed mutation only while fewer
    than 2 did, so a read is retried up to 3 times and a mutation up to 2
    times (the retry loop ends within 4, resp. 3, executions, and reaches
    that number on persistent server errors); a failure with a status from
    400 to 499 is never retried, by either policy, whatever the count. *)
Theorem retry_policy_bounds :
  (∀ failureCount error,
     queries_retry failureCount error = true
     ↔ is_4xx error = false ∧ (failureCount < 3)%nat)
  ∧ (∀ failureCount error,
       mutations_retry failureCount error = true
       ↔ is_4xx error = false ∧ (failureCount < 2)%nat)
  ∧ (∀ s failureCount, (400 ≤ s < 500)%Z →
       queries_retry failureCount {| status := Some s |} = false
       ∧ mutations_retry failureCount {| status := Some s |} = false)
  ∧ (∀ fn, ∃ n o, retryer 4 queries_retry fn 0 = Some (n, o) ∧ (retries n <= 3)%nat)
  ∧ (∀ fn, ∃ n o, retryer 3 mutations_retry fn 0 = Some (n, o) ∧ (retries n <= 2)%nat)
  ∧ (∀ fuel fn failureCount error,
       fn failureCount = Failure error → is_4xx error = true →
       retryer (S fuel) queries_retry fn failureCount
         = Some (S failureCount, Failure error)
       ∧ retryer (S fuel) mutations_retry fn failureCount
         = Some (S failureCount, Failure error))
  ∧ retryer 4 queries_retry (fun _ => Failure {| status := Some 500%Z |}) 0
    = Some (4, Failure {| status := Some 500%Z |})
  ∧ retryer 3 mutations_retry (fun _ => Failure {| status := None |}) 0
    = Some (3, Failure {| status := None |}).
Proof.
  split; [exact queries_retry_spec|]. split; [exact mutations_retry_spec|].
  split; [|split; [|split; [|split; [|split; reflexivity]]]].
  - intros s fc Hs. apply is_4xx_status in Hs.
    unfold queries_retry, mutations_retry. by rewrite Hs.
  - intros fn. run_retryer fn.
  - intros fn. run_retryer fn.
  - intros fuel fn fc e Hfn H4. simpl. rewrite Hfn.
    unfold queries_retry, mutations_retry. by rewrite H4.
Qed.

(** ** Local validation of the generation form *)

Import Forms.

Lemma z_string_min_short (field msg : string) (n : nat) (s : string) :
  (JsString.length s < n)%nat →
  z_string_min field n msg (Some s)
  = [ {| path := field; code := too_small; message := Some msg |} ].
Proof.
  intros H. unfold z_string_min.
  by apply Nat.ltb_lt in H as ->.
Qed.

(** The retry loop of a mutation ends within three executions, and makes at
    least one. *)
Lemma mutations_retryer_runs (server : nat → Outcome) :
  ∃ executions outcome,
    retryer 3 mutations_retry server 0 = Some (executions, outcome)
    ∧ (1 <= executions <= 3)%nat.
Proof.
  repeat (cbn [retryer]; unfold mutations_retry;
          match goal with
          | |- context [match server ?k with _ => _ end] => destruct (server k)
          | |- context [if is_4xx ?e then _ else _] => destruct (is_4xx e)
          end; cbn [Nat.ltb Nat.leb]);
  eexists _, _; (split; [reflexivity|lia]).
Qed.

(** Valid data goes out as a POST to the generation endpoint, once for each
    execution of the mutation. *)
Lemma handleSubmit_valid (organizationId : string) (data : ContentGenerationFormData)
    (server : nat → Outcome) :
  contentGenerationSchema data = [] →
  handleSubmit organizationId data server
  = {| errors := [];
       network :=
         mutateAsync {| req_method := POST;
                        req_endpoint := CONTENT_GENERATE organizationId;
                        req_body := data |} server |}.
Proof. intros H. unfold handleSubmit. by rewrite H. Qed.

(** C8: a submission whose brief is empty or shorter than the minimum of
    10 characters, or whose style profile is not selected (the field is the
    empty string, or the [null] of a radio group with nothing checked), is
    rejected by the schema: the form gets the issue of the offending field
    and no request is issued, whatever the server would answer. *)
Theorem invalid_generation_request_is_rejected_locally
    (organizationId : string) (data : ContentGenerationFormData)
    (server : nat → Outcome) :
  (JsString.length (brief data) < 10)%nat
  ∨ style_profile_id data = Some EmptyString
  ∨ style_profile_id data = None →
  network (handleSubmit organizationId data server) = []
  ∧ errors (handleSubmit organizationId data server) = contentGenerationSchema data
  ∧ ((JsString.length (brief data) < 10)%nat →
       {| path := "brief"; code := too_small;
          message := Some "Бриф должен содержать минимум 10 символов" |}
       ∈ errors (handleSubmit organizationId data server))
  ∧ (style_profile_id data = Some EmptyString →
       {| path := "style_profile_id"; code := too_small;
          message := Some "Выберите стиль" |}
       ∈ errors (handleSubmit organizationId data server))
  ∧ (style_profile_id data = None →
       {| path := "style_profile_id"; code := invalid_type; message := None |}
       ∈ errors (handleSubmit organizationId data server)).
Proof.
  intros H.
  assert (Hne : contentGenerationSchema data ≠ []).
  { unfold contentGenerationSchema. destruct H as [H | [H | H]].
    - rewrite z_string_min_short by exact H. discriminate.
    - rewrite H. intros Habs. apply app_eq_nil in Habs as [_ Habs].
      discriminate Habs.
    - rewrite H. intros Habs. apply app_eq_nil in Habs as [_ Habs].
      discriminate Habs. }
  assert (He : handleSubmit organizationId data server
               = {| errors := contentGenerationSchema data; network := [] |}).
  { unfold handleSubmit. by destruct (contentGenerationSchema data). }
  rewrite He. cbn [network errors]. split; [reflexivity|]. split; [reflexivity|].
  unfold contentGenerationSchema. split; [|split].
  - intros Hb. rewrite z_string_min_short by exact Hb. by left.
  - intros ->. apply elem_of_app. right. apply elem_of_app. left. by left.
  - intros ->. apply elem_of_app. right. apply elem_of_app. left. by left.
Qed.

Lemma invalid_generation_request_is_rejected_locally_witness :
  let data := {| brief := "Привет";
                 style_profile_id := Some "s1";
                 max_tokens := Some (Num 2000);
                 temperature := Some (Num (7 # 10));
                 additional_instructions := Some EmptyString |} in
  ((JsString.length (brief data) < 10)%nat
   ∨ style_profile_id data = Some EmptyString
   ∨ style_profile_id data = None)
  ∧ network (handleSubmit "org-1" data (fun _ => Success)) = []
  ∧ errors (handleSubmit "org-1" data (fun _ => Success))
    = [ {| path := "brief"; code := too_small;
           message := Some "Бриф должен содержать минимум 10 символов" |} ].
Proof.
  intros data.
  assert (H : (JsString.length (brief data) < 10)%nat
              ∨ style_profile_id data = Some EmptyString
              ∨ style_profile_id data = None).
  { left. vm_compute. lia. }
  split; [exact H|].
  destruct (invalid_generation_request_is_rejected_locally "org-1" data (fun _ => Success) H)
    as (Hn & He & _).
  split; [exact Hn|]. rewrite He. reflexivity.
Defined.

(** ** The authentication store *)

Import Auth.

Lemma detail_or_nonempty (e : Thrown) (fallback : string) :
  fallback ≠ EmptyString → detail_or e fallback ≠ EmptyString.
Proof.
  intros Hf. unfold detail_or. destruct (detail e) as [d|]; [|exact Hf].
  by case_bool_decide.
Qed.

(** A read finds only a query stored under the key asked for. *)
Lemma read_Some_key (qc : QueryCache) (k : QueryKey) (q : Query) :
  read qc k = Some q → queryKey q = k ∧ q ∈ qc.
Proof.
  unfold read. intros H. apply find_some in H as [Hin Hk].
  apply bool_decide_eq_true in Hk. split; [exact Hk|by apply list_elem_of_In].
Qed.

(** C1, as stated, fails: after the switch from [org1] to [org2] the styles
    entry cached under [org1] is still in the cache, not invalidated, and a
    read of its key is served from it. *)
Lemma setOrganization_keeps_previous_organization_entries :
  organization (auth client1) = Some org1
  ∧ Organization.id org1 ≠ Organization.id org2
  ∧ organization (auth (dispatch (setOrganization org2) client1)) = Some org2
  ∧ styles_of_org1 ∈ queryCache (dispatch (setOrganization org2) client1)
  ∧ organization_of (queryKey styles_of_org1) = Some (Organization.id org1)
  ∧ isInvalidated styles_of_org1 = false
  ∧ read_fresh (queryCache (dispatch (setOrganization org2) client1))
      (useStyles_queryKey (Organization.id org1) None) = Some styles_of_org1.
Proof.
  repeat split; try discriminate. by left.
Qed.

(** C1, amended: [setOrganization] makes the given organization the active
    one and hands it to [authService.setOrganizationData]; it leaves the
    query cache as it is, so the entries cached under the previous
    organization stay, as fresh or stale as they were.  Every
    organization-scoped key starts with the organization id, so when the two
    organizations differ a read under a key scoped to the new active
    organization never returns an entry cached under the previous one. *)
Theorem setOrganization_switches_without_invalidating
    (w : Client) (o1 o2 : Organization.t) :
  organization (auth w) = Some o1 →
  Organization.id o1 ≠ Organization.id o2 →
  let w' := dispatch (setOrganization o2) w in
  organization (auth w') = Some o2
  ∧ active_organization_id w' = Organization.id o2
  ∧ trace (setOrganization o2 (auth w))
    = [set_ (auth w'); call (setOrganizationData_call o2)]
  ∧ queryCache w' = queryCache w
  ∧ (∀ k q, organization_of k = Some (active_organization_id w') →
       read (queryCache w') k = Some q →
       organization_of (queryKey q) ≠ Some (Organization.id o1))
  ∧ (∀ kind q, scope_of kind = Some (active_organization_id w') →
       read (queryCache w') (key_of kind) = Some q →
       organization_of (queryKey q) ≠ Some (Organization.id o1)).
Proof.
  intros Ho1 Hne w'.
  assert (Hscoped : ∀ k q, organization_of k = Some (Organization.id o2) →
            read (queryCache w) k = Some q →
            organization_of (queryKey q) ≠ Some (Organization.id o1)).
  { intros k q Hk Hr. apply read_Some_key in Hr as [-> _]. rewrite Hk.
    intros [= Heq]. by apply Hne. }
  repeat split.
  - exact Hscoped.
  - intros kind q Hs. apply Hscoped.
    destruct kind; simpl in Hs |- *; try discriminate Hs; exact Hs.
Qed.

Lemma setOrganization_switches_without_invalidating_witness :
  organization (auth client1) = Some org1
  ∧ Organization.id org1 ≠ Organization.id org2
  ∧ queryCache (dispatch (setOrganization org2) client1) = queryCache client1
  ∧ read (queryCache (dispatch (setOrganization org2) client1))
      (useStyles_queryKey (Organization.id org2) None) = None.
Proof.
  assert (Hne : Organization.id org1 ≠ Organization.id org2) by discriminate.
  split; [reflexivity|]. split; [exact Hne|].
  destruct (setOrganization_switches_without_invalidating client1 org1 org2 eq_refl Hne)
    as (_ & _ & _ & Hqc & _).
  split; [exact Hqc|reflexivity].
Defined.

(** C3, as stated, fails: [logout] clears the session, but the entities
    cached for the organization are still in the query cache afterwards and
    still served as fresh, whether the server call failed or succeeded. *)
Lemma logout_keeps_cached_entities :
  auth (dispatch (logout token_valid_fetch_fails) client1) = cleared
  ∧ auth (dispatch (logout token_valid_fetch_succeeds) client1) = cleared
  ∧ queryCache (dispatch (logout token_valid_fetch_fails) client1)
    = [styles_of_org1; article_of_org1]
  ∧ queryCache (dispatch (logout token_valid_fetch_succeeds) client1)
    = [styles_of_org1; article_of_org1]
  ∧ read_fresh (queryCache (dispatch (logout token_valid_fetch_fails) client1))
      (content.detail "org-1" "c1") = Some article_of_org1.
Proof. repeat split. Qed.

(** C3, amended: every execution of [logout] ends with the session state of
    the store cleared (no user, no organization, not authenticated, not
    loading, no error), whether the server call succeeded or failed, and
    throws nothing; the server call is made once, before the clearing; the
    query cache is left as it was. *)
Theorem logout_clears_session_unconditionally (svc : authService.t) (w : Client) :
  auth (dispatch (logout svc) w) = cleared
  ∧ final (logout svc (auth w)) = cleared
  ∧ thrown (logout svc (auth w)) = None
  ∧ awaited_calls (trace (logout svc (auth w))) = [logout_call]
  ∧ last (states (trace (logout svc (auth w)))) = Some cleared
  ∧ queryCache (dispatch (logout svc) w) = queryCache w.
Proof.
  unfold dispatch, logout. destruct (authService.logout svc); by repeat split.
Qed.

(** C2, as stated, fails: with a persisted token that is present and
    unexpired, [initialize] requests the current user before it decides, and
    when that request fails it ends anonymous, with the auth data cleared,
    instead of authenticated. *)
Lemma initialize_waits_for_the_current_user :
  authService.isAuthenticated token_valid_fetch_fails = true
  ∧ authService.isTokenExpired token_valid_fetch_fails = false
  ∧ final (initialize token_valid_fetch_fails session1) = cleared
  ∧ isAuthenticated (final (initialize token_valid_fetch_fails session1)) = false
  ∧ trace (initialize token_valid_fetch_fails initial)
    = [set_ {| user := None; organization := None; isAuthenticated := false;
               isLoading := true; error := None |};
       call isAuthenticated_call; call isTokenExpired_call;
       call getCurrentUser_call; call clearAuthData_call; set_ cleared].
Proof. repeat split. Qed.

(** C2, amended: [initialize] ends in a terminal state, not loading and
    without throwing.  With the token absent or expired it clears the auth
    data and all session state and makes no request.  With the token present
    and unexpired it makes one request, for the current user, and waits for
    it: the session is marked authenticated, with the user received and the
    stored organization, when and only when that request succeeds; when it
    fails, the auth data and all session state are cleared. *)
Theorem initialize_reaches_terminal_state (svc : authService.t) (s : AuthState) :
  let r := initialize svc s in
  isLoading (final r) = false
  ∧ thrown r = None
  ∧ final r
    = (if token_valid svc then
         match authService.getCurrentUser svc with
         | Resolved u =>
             {| user := Some u;
                organization := authService.getOrganizationData svc;
                isAuthenticated := true; isLoading := false; error := None |}
         | Rejected _ => cleared
         end
       else cleared)
  ∧ awaited_calls (trace r) = (if token_valid svc then [getCurrentUser_call] else [])
  ∧ (isAuthenticated (final r) = true
     ↔ token_valid svc = true ∧ ∃ u, authService.getCurrentUser svc = Resolved u)
  ∧ (final r = cleared ↔ call clearAuthData_call ∈ trace r)
  ∧ (∀ s', set_ s' ∈ trace r → isAuthenticated s' = true →
       isAuthenticated s = true
       ∨ ∃ u, authService.getCurrentUser svc = Resolved u).
Proof.
  unfold initialize, token_valid.
  destruct (authService.isAuthenticated svc), (authService.isTokenExpired svc);
    cbn [negb andb];
    try destruct (authService.getCurrentUser svc) as [u|e];
    cbn [final trace thrown isLoading isAuthenticated awaited_calls omap awaited];
    (split; [reflexivity|]); (split; [reflexivity|]); (split; [reflexivity|]);
    (split; [reflexivity|]); (split; [|split]).
  all: try solve [split; [discriminate|intros [? _]; discriminate]].
  all: try solve [split; [discriminate|intros [_ [? ?]]; discriminate]].
  all: try solve [split; [intros _; split; [reflexivity|by eexists]|reflexivity]].
  all: try solve [split; [intros _; repeat constructor|reflexivity]].
  all: try solve [split; [discriminate|intros H; elem_inv H; discriminate H]].
  all: intros s' Hin Ha; elem_inv Hin; try discriminate Hin;
    injection Hin as ->; cbn [isAuthenticated] in Ha;
    try discriminate Ha; first [by left | right; by eexists].
Qed.

(** C6: a failed [login] surfaces the error — the store's [error] is set to
    a non-empty message and the rejection is rethrown — and leaves the user,
    the organization and the authenticated flag as they were, in every state
    the store goes through, and the stored token as it was; a successful
    [login] replaces them with the user and organization of the response,
    marks the session authenticated and stores the token of the response;
    so the stored user, organization and token are replaced only by a
    successful login.  The store's only call is [authService.login], which
    is what keeps the token. *)
Theorem failed_login_keeps_session
    (svc : authService.t) (email password : string) (s : AuthState)
    (stored : option string) :
  let r := login svc email password s in
  let token := (TokenStore.login svc email password (s, stored)).2 in
  (∀ e, authService.login svc email password = Rejected e →
     session (final r) = session s
     ∧ token = stored
     ∧ (∀ s', set_ s' ∈ trace r → session s' = session s)
     ∧ error (final r) = Some (detail_or e "Ошибка входа в систему")
     ∧ error (final r) ≠ None ∧ error (final r) ≠ Some EmptyString
     ∧ thrown r = Some e
     ∧ isLoading (final r) = false)
  ∧ (∀ response, authService.login svc email password = Resolved response →
       session (final r)
       = (Some (LoginResponse.user response),
          Some (LoginResponse.organization response), true)
       ∧ token = Some (LoginResponse.access_token response)
       ∧ error (final r) = None
       ∧ thrown r = None
       ∧ isLoading (final r) = false)
  ∧ ((session (final r), token) ≠ (session s, stored) →
       ∃ response, authService.login svc email password = Resolved response)
  ∧ (TokenStore.login svc email password (s, stored)).1 = r
  ∧ calls (trace r) = [login_call email password].
Proof.
  unfold TokenStore.login, TokenStore.login_token, login. cbn [fst snd].
  destruct (authService.login svc email password) as [response|e];
    cbn [final trace thrown error isLoading].
  - split; [discriminate|]. split.
    + intros ? [= <-]. by repeat split.
    + split; [by eexists|by split].
  - split.
    + intros ? [= <-]. split; [reflexivity|]. split; [reflexivity|]. split.
      * intros s' Hin. elem_inv Hin; try discriminate Hin; by injection Hin as ->.
      * split; [reflexivity|]. split; [discriminate|]. split; [|by split].
        intros [= H]. revert H. by apply detail_or_nonempty.
    + split; [discriminate|]. split; [|by split].
      intros H. by destruct H.
Qed.

Lemma failed_login_keeps_session_witness :
  authService.login token_valid_fetch_fails "alice@example.com" "wrong"
  = Rejected bad_credentials
  ∧ session (final (login token_valid_fetch_fails "alice@example.com" "wrong" session1))
    = (Some alice, Some org1, true)
  ∧ (TokenStore.login token_valid_fetch_fails "alice@example.com" "wrong"
       (session1, Some "token-of-alice")).2
    = Some "token-of-alice"
  ∧ error (final (login token_valid_fetch_fails "alice@example.com" "wrong" session1))
    = Some "Invalid credentials"
  ∧ session (final (login token_valid_fetch_succeeds "alice@example.com" "secret" initial))
    = (Some alice, Some org2, true)
  ∧ (TokenStore.login token_valid_fetch_succeeds "alice@example.com" "secret"
       (initial, None)).2
    = Some "access".
Proof.
  split; [reflexivity|].
  destruct (failed_login_keeps_session token_valid_fetch_fails
              "alice@example.com" "wrong" session1 (Some "token-of-alice")) as (Hfail & _).
  destruct (Hfail bad_credentials eq_refl) as (Hs & Ht & _ & He & _).
  destruct (failed_login_keeps_session token_valid_fetch_succeeds
              "alice@example.com" "secret" initial None) as (_ & Hok & _).
  destruct (Hok _ eq_refl) as (Hs' & Ht' & _).
  split; [exact Hs|]. split; [exact Ht|]. split; [exact He|].
  split; [exact Hs'|exact Ht'].
Defined.

(** ** The properties at sample inputs *)

Lemma queryKeys_namespacing_witness :
  strict_prefix (content.list "org-1") (content.iterations "org-1" "c1")
  ∧ organization_of (key_of (StyleAnalysis "org-1" "s1")) = Some "org-1"
  ∧ organization_of (key_of OrganizationList) = None.
Proof.
  destruct (queryKeys_namespacing "org-1" "c1") as (_ & _ & _ & Hit & _ & Hnone).
  destruct (queryKeys_namespacing "org-1" "s1") as (_ & _ & _ & _ & Hscope & _).
  split; [exact Hit|]. split.
  - destruct (Hscope (StyleAnalysis "org-1" "s1") eq_refl) as (o & [= <-] & _ & Ho).
    exact Ho.
  - apply Hnone. by right.
Defined.

Lemma retry_policy_bounds_witness :
  (400 ≤ 404 < 500)%Z
  ∧ queries_retry 0 {| status := Some 404%Z |} = false
  ∧ mutations_retry 0 {| status := Some 404%Z |} = false
  ∧ queries_retry 2 {| status := Some 503%Z |} = true
  ∧ queries_retry 3 {| status := Some 503%Z |} = false.
Proof.
  assert (H : (400 ≤ 404 < 500)%Z) by lia.
  destruct retry_policy_bounds as (Hq & _ & H4 & _).
  destruct (H4 404%Z 0%nat H) as [H1 H2].
  split; [exact H|]. split; [exact H1|]. split; [exact H2|]. split.
  - apply Hq. split; [reflexivity|lia].
  - reflexivity.
Defined.


Lemma logout_clears_session_unconditionally_witness :
  auth (dispatch (logout token_valid_fetch_fails) client1) = cleared
  ∧ auth (dispatch (logout token_valid_fetch_succeeds) client1) = cleared
  ∧ queryCache (dispatch (logout token_valid_fetch_fails) client1) = queryCache client1.
Proof.
  destruct (logout_clears_session_unconditionally token_valid_fetch_fails client1)
    as (H1 & _ & _ & _ & _ & Hq).
  destruct (logout_clears_session_unconditionally token_valid_fetch_succeeds client1)
    as (H2 & _).
  split; [exact H1|]. split; [exact H2|exact Hq].
Defined.

Lemma initialize_reaches_terminal_state_witness :
  token_valid token_valid_fetch_succeeds = true
  ∧ final (initialize token_valid_fetch_succeeds initial) = session1
  ∧ awaited_calls (trace (initialize token_valid_fetch_succeeds initial))
    = [getCurrentUser_call].
Proof.
  destruct (initialize_reaches_terminal_state token_valid_fetch_succeeds initial)
    as (_ & _ & Hf & Hc & _).
  split; [reflexivity|]. split; [exact Hf|exact Hc].
Defined.

(** The hooks on a small cache. *)

Example update_style_marks_list_and_detail :
  succeed (useUpdateStyle "org-1" "s1" None) [styles_of_org1; style_of_org1; article_of_org1]
  = [invalidate styles_of_org1; invalidate style_of_org1; article_of_org1].
Proof. reflexivity. Qed.

Example delete_style_removes_detail :
  succeed (useDeleteStyle "org-1" "s1" None) [styles_of_org1; style_of_org1; article_of_org1]
  = [invalidate styles_of_org1; article_of_org1].
Proof. reflexivity. Qed.

Example generate_content_other_organization :
  succeed (useGenerateContent "org-2" None) [styles_of_org1; article_of_org1]
  = [styles_of_org1; article_of_org1].
Proof. reflexivity. Qed.

(** A caller's [onSuccess] replaces the hook's own. *)
Example generate_content_caller_onSuccess :
  succeed (useGenerateContent "org-1" (Some {| opt_onSuccess := Some None |}))
    [article_of_org1]
  = [article_of_org1].
Proof. reflexivity. Qed.

Example content_list_url :
  useContent_url id (fun o => "/api/v1/organizations/" +:+ o +:+ "/content")
    "org-1" (Some content_search)
  = "/api/v1/organizations/org-1/content?status=draft&per_page=20&sort_by=created_at&sort_order=desc".
Proof. reflexivity. Qed.

Example valid_generation_request_goes_out :
  network (handleSubmit "org-1"
             {| brief := "Write about renewable energy";
                style_profile_id := Some "s1";
                max_tokens := Some (Num 2000);
                temperature := Some (Num (7 # 10));
                additional_instructions := None |}
             (fun _ => Success))
  = [ {| req_method := POST; req_endpoint := CONTENT_GENERATE "org-1";
         req_body := {| brief := "Write about renewable energy";
                        style_profile_id := Some "s1";
                        max_tokens := Some (Num 2000);
                        temperature := Some (Num (7 # 10));
                        additional_instructions := None |} |} ].
Proof. reflexivity. Qed.

(** * Further properties *)

Import Scope MoreSamples.

(** ** What the mutation hooks touch *)

Lemma extends_strs_trans (lp lf : list string) (k : QueryKey) :
  strs lp `prefix_of` strs lf → extends k (strs lp) = false →
  partialMatchKey k (strs lf) = false.
Proof.
  intros Hp Hk. rewrite partialMatchKey_strs. apply bool_decide_eq_false_2.
  intros Hf. unfold extends in Hk. apply bool_decide_eq_false in Hk.
  apply Hk. by etrans.
Qed.

Lemma filter_invalidateQueries (P : QueryKey → bool) (f : QueryKey) (qc : QueryCache) :
  (∀ k, P k = true → partialMatchKey k f = false) →
  List.filter (fun q => P (queryKey q)) (invalidateQueries f qc)
  = List.filter (fun q => P (queryKey q)) qc.
Proof.
  intros H. unfold invalidateQueries.
  induction qc as [|q qc IH]; [reflexivity|]. cbn [fmap list_fmap List.filter].
  destruct (P (queryKey q)) eqn:HP.
  - rewrite (H _ HP), HP. f_equal. exact IH.
  - destruct (partialMatchKey (queryKey q) f); cbn [invalidate queryKey];
      rewrite HP; exact IH.
Qed.

Lemma filter_removeQueries (P : QueryKey → bool) (f : QueryKey) (qc : QueryCache) :
  (∀ k, P k = true → partialMatchKey k f = false) →
  List.filter (fun q => P (queryKey q)) (removeQueries f qc)
  = List.filter (fun q => P (queryKey q)) qc.
Proof.
  intros H. unfold removeQueries.
  induction qc as [|q qc IH]; [reflexivity|]. cbn [List.filter].
  destruct (P (queryKey q)) eqn:HP.
  - rewrite (H _ HP). cbn [negb List.filter]. rewrite HP. f_equal. exact IH.
  - destruct (partialMatchKey (queryKey q) f); cbn [negb List.filter];
      [|rewrite HP]; exact IH.
Qed.

(** X1: a successful mutation of the hooks (with the hook's own
    [onSuccess]) leaves every query that is not cached under a key of its
    organization exactly as it was, in place: the queries of other
    organizations, the user profile and the organization list are neither
    marked stale nor removed. *)
Theorem mutations_stay_within_their_organization
    (organizationId styleId contentId : string)
    (options : option UseMutationOptions) (qc : QueryCache) (m : Mutation) :
  keeps_onSuccess options →
  m ∈ mutations organizationId styleId contentId options →
  List.filter (fun q => negb (under_organization organizationId q)) (succeed m qc)
  = List.filter (fun q => negb (under_organization organizationId q)) qc.
Proof.
  intros Hopt Hm.
  pose (P := fun k : QueryKey => negb (extends k (organization_scope organizationId))).
  assert (HP : ∀ l, strs ["organizations"; organizationId] `prefix_of` strs l →
                 ∀ k, P k = true → partialMatchKey k (strs l) = false).
  { intros l Hl k Hk. apply (extends_strs_trans ["organizations"; organizationId]);
      [exact Hl|]. unfold P in Hk. by apply negb_true_iff in Hk. }
  change (List.filter (fun q => P (queryKey q)) (succeed m qc)
          = List.filter (fun q => P (queryKey q)) qc).
  unfold mutations in Hm. elem_inv Hm; subst m;
    unfold useCreateStyle, useUpdateStyle, useDeleteStyle, useGenerateContent,
      useEditContent, useDeleteContent;
    rewrite succeed_own by exact Hopt; cbv zeta;
    repeat first [rewrite (filter_invalidateQueries P) | rewrite (filter_removeQueries P)];
    try reflexivity; apply HP.
  all: first [ by exists [SegString "styles"]
             | by exists [SegString "styles"; SegString styleId]
             | by exists [SegString "content"]
             | by exists [SegString "content"; SegString contentId]
             | by exists [SegString "content"; SegString contentId; SegString "iterations"]
             | by exists [SegString "usage"] ].
Qed.

Lemma mutations_stay_within_their_organization_witness :
  keeps_onSuccess None
  ∧ useDeleteContent "org-1" "c1" None ∈ mutations "org-1" "s1" "c1" None
  ∧ List.filter (fun q => negb (under_organization "org-1" q))
      (succeed (useDeleteContent "org-1" "c1" None) cache1)
    = [profile_of_alice; articles_of_org2].
Proof.
  assert (Hin : useDeleteContent "org-1" "c1" None ∈ mutations "org-1" "s1" "c1" None).
  { unfold mutations. do 5 right. left. }
  split; [exact I|]. split; [exact Hin|].
  rewrite (mutations_stay_within_their_organization "org-1" "s1" "c1" None cache1 _ I Hin).
  reflexivity.
Defined.

Lemma read_unmatched_invalidate (f k : QueryKey) (qc : QueryCache) :
  partialMatchKey k f = false → read (invalidateQueries f qc) k = read qc k.
Proof.
  intros H. rewrite read_invalidateQueries, H. by destruct (read qc k).
Qed.

Lemma string_segments_differ (l : list string) (a b : string) :
  a ≠ b → partialMatchKey (strs l ++ [SegString a]) (strs l ++ [SegString b]) = false.
Proof.
  intros Hne.
  change (strs l ++ [SegString b]) with (strs l ++ strs [b]).
  unfold strs at 2 3. rewrite <- fmap_app. fold (strs (l ++ [b])).
  rewrite partialMatchKey_strs. apply bool_decide_eq_false_2.
  unfold strs. rewrite fmap_app. intros H.
  apply prefix_app_inv in H. apply prefix_cons_inv_1 in H. congruence.
Qed.

Lemma extends_strs (k : QueryKey) (l : list string) :
  extends k (strs l) = partialMatchKey k (strs l).
Proof. unfold extends. by rewrite partialMatchKey_strs. Qed.

Lemma queryKey_marked (b : bool) (q : Query) :
  queryKey (if b then invalidate q else q) = queryKey q.
Proof. by destruct b. Qed.

(** X2: a successful edit of a content (hook's own [onSuccess]) marks stale
    exactly the entries under that content's detail key (the detail and its
    iterations) and under the usage key of the organization.  The content
    list entries of the organization, whatever their search params, and the
    detail entries of its other contents stay as they were: the list is not
    refreshed by an edit. *)
Theorem edit_content_leaves_the_list_alone
    (organizationId contentId : string) (options : option UseMutationOptions)
    (qc : QueryCache) :
  keeps_onSuccess options →
  let qc' := succeed (useEditContent organizationId contentId options) qc in
  qc' = (fun q =>
           if extends (queryKey q) (content.detail organizationId contentId)
              || extends (queryKey q) (organization.usage organizationId)
           then invalidate q else q) <$> qc
  ∧ (∀ sp, read qc' (useContent_queryKey organizationId sp)
           = read qc (useContent_queryKey organizationId sp))
  ∧ (∀ other, other ≠ contentId →
       read qc' (content.detail organizationId other)
       = read qc (content.detail organizationId other))
  ∧ read qc' (content.detail organizationId contentId)
    = invalidate <$> read qc (content.detail organizationId contentId)
  ∧ read qc' (content.iterations organizationId contentId)
    = invalidate <$> read qc (content.iterations organizationId contentId)
  ∧ read qc' (organization.usage organizationId)
    = invalidate <$> read qc (organization.usage organizationId).
Proof.
  intros Hopt qc'.
  assert (Heq : qc' = invalidateQueries (organization.usage organizationId)
                        (invalidateQueries (content.iterations organizationId contentId)
                           (invalidateQueries (content.detail organizationId contentId) qc))).
  { unfold qc', useEditContent. by rewrite succeed_own. }
  assert (Hsub : ∀ k, partialMatchKey k (content.iterations organizationId contentId) = true →
                      partialMatchKey k (content.detail organizationId contentId) = true).
  { intros k. unfold content.iterations, content.detail.
    rewrite !partialMatchKey_strs, !bool_decide_eq_true. intros H.
    etrans; [|exact H]. by exists [SegString "iterations"]. }
  split; [|split; [|split; [|split; [|split]]]].
  - rewrite Heq. unfold invalidateQueries. rewrite <- !list_fmap_compose.
    apply list_fmap_ext. intros _ q _. cbn [compose]. rewrite !queryKey_marked.
    rewrite (extends_strs _ ["organizations"; organizationId; "content"; contentId]).
    rewrite (extends_strs _ ["organizations"; organizationId; "usage"]).
    fold (content.detail organizationId contentId).
    fold (organization.usage organizationId).
    destruct (partialMatchKey (queryKey q) (content.detail organizationId contentId)) eqn:Hd;
      destruct (partialMatchKey (queryKey q) (content.iterations organizationId contentId)) eqn:Hi;
      destruct (partialMatchKey (queryKey q) (organization.usage organizationId));
      try reflexivity.
    all: apply Hsub in Hi; congruence.
  - intros sp.
    assert (Hl : partialMatchKey (useContent_queryKey organizationId sp)
                   (content.detail organizationId contentId) = false).
    { apply (partialMatchKey_search ["organizations"; organizationId; "content"]). }
    rewrite Heq. rewrite !read_unmatched_invalidate; [reflexivity|exact Hl| |].
    + destruct (partialMatchKey (useContent_queryKey organizationId sp)
                  (content.iterations organizationId contentId)) eqn:Hi; [|reflexivity].
      apply Hsub in Hi. congruence.
    + apply (string_segments_differ ["organizations"; organizationId]). 
      destruct sp; discriminate.
  - intros other Hne.
    assert (Hl : partialMatchKey (content.detail organizationId other)
                   (content.detail organizationId contentId) = false).
    { by apply (string_segments_differ ["organizations"; organizationId; "content"]). }
    rewrite Heq. rewrite !read_unmatched_invalidate; [reflexivity|exact Hl| |].
    + destruct (partialMatchKey (content.detail organizationId other)
                  (content.iterations organizationId contentId)) eqn:Hi; [|reflexivity].
      apply Hsub in Hi. congruence.
    + unfold content.detail, organization.usage. rewrite partialMatchKey_strs.
      apply bool_decide_eq_false_2. intros H.
      apply prefix_cons_inv_2, prefix_cons_inv_2, prefix_cons_inv_1 in H. discriminate.
  - rewrite Heq, !read_invalidateQueries.
    rewrite (partialMatchKey_self ["organizations"; organizationId; "content"; contentId]
             : partialMatchKey (content.detail organizationId contentId)
                 (content.detail organizationId contentId) = true).
    destruct (read qc _) as [q|]; [|reflexivity]. cbn [fmap option_fmap option_map].
    by repeat match goal with |- context [if ?b then _ else _] => destruct b end.
  - rewrite Heq, !read_invalidateQueries.
    rewrite (partialMatchKey_self
               ["organizations"; organizationId; "content"; contentId; "iterations"]
             : partialMatchKey (content.iterations organizationId contentId)
                 (content.iterations organizationId contentId) = true).
    destruct (read qc _) as [q|]; [|reflexivity]. cbn [fmap option_fmap option_map].
    by repeat match goal with |- context [if ?b then _ else _] => destruct b end.
  - rewrite Heq, !read_invalidateQueries.
    rewrite (partialMatchKey_self ["organizations"; organizationId; "usage"]
             : partialMatchKey (organization.usage organizationId)
                 (organization.usage organizationId) = true).
    destruct (read qc _) as [q|]; [|reflexivity]. cbn [fmap option_fmap option_map].
    by repeat match goal with |- context [if ?b then _ else _] => destruct b end.
Qed.

Lemma edit_content_leaves_the_list_alone_witness :
  keeps_onSuccess None
  ∧ succeed (useEditContent "org-1" "c1" None) cache1
    = [ profile_of_alice; styles_of_org1; style_of_org1; articles_of_org1;
        invalidate article_of_org1; invalidate iterations_of_article;
        invalidate usage_of_org1; articles_of_org2 ].
Proof.
  split; [exact I|].
  destruct (edit_content_leaves_the_list_alone "org-1" "c1" None cache1 I) as (H & _).
  rewrite H. reflexivity.
Defined.

(** X3: a successful delete of a content (hook's own [onSuccess]) marks the
    content list entries of the organization stale, whatever their search
    params, and removes the detail entry of the content together with its
    iterations entry; the details of the other contents stay cached, marked
    stale through the list key. *)
Theorem delete_content_removes_detail_and_iterations
    (organizationId contentId : string) (options : option UseMutationOptions)
    (qc : QueryCache) :
  keeps_onSuccess options →
  let qc' := succeed (useDeleteContent organizationId contentId options) qc in
  (∀ sp, read qc' (useContent_queryKey organizationId sp)
         = invalidate <$> read qc (useContent_queryKey organizationId sp))
  ∧ read qc' (content.detail organizationId contentId) = None
  ∧ read qc' (content.iterations organizationId contentId) = None
  ∧ (∀ q, q ∈ qc' → extends (queryKey q) (content.detail organizationId contentId) = false)
  ∧ (∀ other, other ≠ contentId →
       read qc' (content.detail organizationId other)
       = invalidate <$> read qc (content.detail organizationId other)).
Proof.
  intros Hopt qc'.
  assert (Heq : qc' = removeQueries (content.detail organizationId contentId)
                        (invalidateQueries (content.list organizationId) qc)).
  { unfold qc', useDeleteContent. by rewrite succeed_own. }
  rewrite Heq. split; [|split; [|split; [|split]]].
  - intros sp. rewrite read_removeQueries, read_invalidateQueries.
    rewrite (partialMatchKey_search ["organizations"; organizationId; "content"] sp contentId
             : partialMatchKey (useContent_queryKey organizationId sp)
                 (content.detail organizationId contentId) = false).
    by rewrite (partialMatchKey_app ["organizations"; organizationId; "content"]
                  [search_segment sp]
                : partialMatchKey (useContent_queryKey organizationId sp)
                    (content.list organizationId) = true).
  - rewrite read_removeQueries.
    by rewrite (partialMatchKey_self ["organizations"; organizationId; "content"; contentId]
                : partialMatchKey (content.detail organizationId contentId)
                    (content.detail organizationId contentId) = true).
  - rewrite read_removeQueries.
    by rewrite (partialMatchKey_app ["organizations"; organizationId; "content"; contentId]
                  [SegString "iterations"]
                : partialMatchKey (content.iterations organizationId contentId)
                    (content.detail organizationId contentId) = true).
  - intros q Hq. unfold removeQueries in Hq.
    apply list_elem_of_In, filter_In in Hq as [_ Hq].
    apply negb_true_iff in Hq. unfold content.detail. by rewrite extends_strs.
  - intros other Hne. rewrite read_removeQueries, read_invalidateQueries.
    rewrite (string_segments_differ ["organizations"; organizationId; "content"]
               other contentId Hne
             : partialMatchKey (content.detail organizationId other)
                 (content.detail organizationId contentId) = false).
    by rewrite (partialMatchKey_app ["organizations"; organizationId; "content"]
                  [SegString other]
                : partialMatchKey (content.detail organizationId other)
                    (content.list organizationId) = true).
Qed.

Lemma delete_content_removes_detail_and_iterations_witness :
  keeps_onSuccess None
  ∧ succeed (useDeleteContent "org-1" "c1" None) cache1
    = [ profile_of_alice; styles_of_org1; style_of_org1; invalidate articles_of_org1;
        usage_of_org1; articles_of_org2 ]
  ∧ read (succeed (useDeleteContent "org-1" "c1" None) cache1)
      (content.iterations "org-1" "c1") = None.
Proof.
  destruct (delete_content_removes_detail_and_iterations "org-1" "c1" None cache1 I)
    as (_ & _ & Hit & _).
  split; [exact I|]. split; [reflexivity|exact Hit].
Defined.

Lemma organization_of_Some (k : QueryKey) (o : string) :
  organization_of k = Some o →
  ∃ rest, k = SegString "organizations" :: SegString o :: rest.
Proof.
  destruct k as [|[s| |] k']; try discriminate.
  destruct (decide (s = "organizations")) as [->|Hne].
  - destruct k' as [|[o'| |] rest]; try discriminate.
    intros [= ->]. by exists rest.
  - intros H. exfalso. apply Hne. clear Hne. revert H. unfold organization_of.
    do 13 (destruct s as [|[[] [] [] [] [] [] [] []] s]; try discriminate).
    destruct s; try discriminate. reflexivity.
Qed.

Lemma organization_of_scope (k : QueryKey) (organizationId : string) :
  extends k (organization_scope organizationId)
  = bool_decide (organization_of k = Some organizationId).
Proof.
  unfold extends, organization_scope. apply bool_decide_ext. split.
  - intros [rest ->]. reflexivity.
  - intros H. apply organization_of_Some in H as [rest ->]. by exists rest.
Qed.

(** X4: [invalidateOrganization] marks stale exactly the queries whose key
    carries that organization's id and changes nothing else: afterwards no
    key of the factory called with that organization, and no list query of
    it, is served fresh, while the queries of other organizations, the user
    profile and the organization list keep their state. *)
Theorem invalidateOrganization_marks_the_organization
    (organizationId : string) (qc : QueryCache) :
  invalidateOrganization organizationId qc
  = (fun q =>
       if bool_decide (organization_of (queryKey q) = Some organizationId)
       then invalidate q else q) <$> qc
  ∧ (∀ kind, scope_of kind = Some organizationId →
       read_fresh (invalidateOrganization organizationId qc) (key_of kind) = None)
  ∧ (∀ sp, read_fresh (invalidateOrganization organizationId qc)
             (useStyles_queryKey organizationId sp) = None
           ∧ read_fresh (invalidateOrganization organizationId qc)
               (useContent_queryKey organizationId sp) = None)
  ∧ (∀ k, organization_of k ≠ Some organizationId →
       read (invalidateOrganization organizationId qc) k = read qc k).
Proof.
  assert (Hm : ∀ k, partialMatchKey k (strs ["organizations"; organizationId])
                    = bool_decide (organization_of k = Some organizationId)).
  { intros k. rewrite <- extends_strs. apply organization_of_scope. }
  assert (Hstale : ∀ k, organization_of k = Some organizationId →
                        read_fresh (invalidateOrganization organizationId qc) k = None).
  { intros k Hk. unfold read_fresh, invalidateOrganization.
    rewrite read_invalidateQueries, Hm, bool_decide_eq_true_2 by exact Hk.
    by destruct (read qc k). }
  split; [|split; [|split]].
  - unfold invalidateOrganization, invalidateQueries.
    apply list_fmap_ext. intros _ q _. by rewrite Hm.
  - intros kind Hs. apply Hstale.
    destruct kind; cbn in Hs |- *; try discriminate Hs; exact Hs.
  - intros sp. split; by apply Hstale.
  - intros k Hk. unfold invalidateOrganization.
    apply read_unmatched_invalidate. rewrite Hm. by apply bool_decide_eq_false_2.
Qed.

Lemma invalidateOrganization_marks_the_organization_witness :
  invalidateOrganization "org-1" cache1
  = [ profile_of_alice; invalidate styles_of_org1; invalidate style_of_org1;
      invalidate articles_of_org1; invalidate article_of_org1;
      invalidate iterations_of_article; invalidate usage_of_org1; articles_of_org2 ]
  ∧ read_fresh (invalidateOrganization "org-1" cache1) (key_of (OrganizationUsage "org-1"))
    = None.
Proof.
  destruct (invalidateOrganization_marks_the_organization "org-1" cache1)
    as (H & Hk & _).
  split; [rewrite H; reflexivity|]. by apply Hk.
Defined.

(** Invalidation is idempotent and commutes with itself and with removal;
    removals commute and are idempotent. *)
Lemma cache_operations_commute (f g : QueryKey) (qc : QueryCache) :
  invalidateQueries f (invalidateQueries f qc) = invalidateQueries f qc
  ∧ invalidateQueries f (invalidateQueries g qc)
    = invalidateQueries g (invalidateQueries f qc)
  ∧ removeQueries g (invalidateQueries f qc)
    = invalidateQueries f (removeQueries g qc)
  ∧ removeQueries f (removeQueries g qc) = removeQueries g (removeQueries f qc)
  ∧ removeQueries f (removeQueries f qc) = removeQueries f qc.
Proof.
  split; [|split; [|split; [|split]]].
  - rewrite invalidateQueries_twice. unfold invalidateQueries.
    apply list_fmap_ext. intros _ q _. by rewrite orb_diag.
  - rewrite !invalidateQueries_twice.
    apply list_fmap_ext. intros _ q _. by rewrite orb_comm.
  - unfold removeQueries, invalidateQueries.
    induction qc as [|q qc IH]; [reflexivity|].
    cbn [fmap list_fmap List.filter]. rewrite queryKey_marked.
    destruct (partialMatchKey (queryKey q) g); cbn [negb]; [exact IH|].
    cbn [fmap list_fmap]. f_equal. exact IH.
  - unfold removeQueries.
    induction qc as [|q qc IH]; [reflexivity|]. cbn [List.filter].
    destruct (partialMatchKey (queryKey q) g) eqn:Hg,
             (partialMatchKey (queryKey q) f) eqn:Hf;
      cbn [negb List.filter]; rewrite ?Hg, ?Hf; cbn [negb];
      first [exact IH | by f_equal].
  - unfold removeQueries.
    induction qc as [|q qc IH]; [reflexivity|]. cbn [List.filter].
    destruct (partialMatchKey (queryKey q) f) eqn:Hf; cbn [negb List.filter];
      [exact IH|]. rewrite Hf. cbn [negb]. by f_equal.
Qed.

(** X5: the success handlers of the six mutation hooks are idempotent: a
    mutation that succeeds twice in a row leaves the cache as it is after
    the first success. *)
Theorem mutation_success_is_idempotent
    (organizationId styleId contentId : string)
    (options : option UseMutationOptions) (qc : QueryCache) (m : Mutation) :
  keeps_onSuccess options →
  m ∈ mutations organizationId styleId contentId options →
  succeed m (succeed m qc) = succeed m qc.
Proof.
  intros Hopt Hm.
  assert (Hii : ∀ f x, invalidateQueries f (invalidateQueries f x) = invalidateQueries f x)
    by (intros f x; apply (cache_operations_commute f f x)).
  assert (Hic : ∀ f g x, invalidateQueries f (invalidateQueries g x)
                         = invalidateQueries g (invalidateQueries f x))
    by (intros f g x; apply (cache_operations_commute f g x)).
  assert (Hri : ∀ f g x, removeQueries g (invalidateQueries f x)
                         = invalidateQueries f (removeQueries g x))
    by (intros f g x; apply (cache_operations_commute f g x)).
  assert (Hrr : ∀ f x, removeQueries f (removeQueries f x) = removeQueries f x)
    by (intros f x; apply (cache_operations_commute f f x)).
  unfold mutations in Hm. elem_inv Hm; subst m;
    unfold useCreateStyle, useUpdateStyle, useDeleteStyle, useGenerateContent,
      useEditContent, useDeleteContent;
    rewrite !succeed_own by exact Hopt; cbv zeta.
  - apply Hii.
  - rewrite (Hic (style.list organizationId) (style.detail organizationId styleId)
               (invalidateQueries (style.list organizationId) qc)).
    by rewrite !Hii.
  - rewrite <- (Hri (style.list organizationId) (style.detail organizationId styleId)
                  (invalidateQueries (style.list organizationId) qc)).
    by rewrite Hrr, Hii.
  - rewrite (Hic (content.list organizationId) (organization.usage organizationId)
               (invalidateQueries (content.list organizationId) qc)).
    by rewrite !Hii.
  - set (D := content.detail organizationId contentId).
    set (I := content.iterations organizationId contentId).
    set (U := organization.usage organizationId).
    rewrite (Hic D U (invalidateQueries I (invalidateQueries D qc))).
    rewrite (Hic I U (invalidateQueries D (invalidateQueries I (invalidateQueries D qc)))).
    rewrite Hii.
    rewrite (Hic D I (invalidateQueries D qc)).
    by rewrite !Hii.
  - rewrite <- (Hri (content.list organizationId) (content.detail organizationId contentId)
                  (invalidateQueries (content.list organizationId) qc)).
    by rewrite Hrr, Hii.
Qed.

Lemma mutation_success_is_idempotent_witness :
  keeps_onSuccess None
  ∧ useEditContent "org-1" "c1" None ∈ mutations "org-1" "s1" "c1" None
  ∧ succeed (useEditContent "org-1" "c1" None)
      (succeed (useEditContent "org-1" "c1" None) cache1)
    = succeed (useEditContent "org-1" "c1" None) cache1.
Proof.
  assert (Hin : useEditContent "org-1" "c1" None ∈ mutations "org-1" "s1" "c1" None).
  { unfold mutations. do 4 right. left. }
  split; [exact I|]. split; [exact Hin|].
  apply (mutation_success_is_idempotent "org-1" "s1" "c1" None cache1 _ I Hin).
Defined.

(** ** The route middleware *)

Import Middleware RouteSamples.

Lemma prefix_cons_true (a b : Ascii.ascii) (s1 s2 : string) :
  String.prefix (String a s1) (String b s2) = true → a = b ∧ String.prefix s1 s2 = true.
Proof. cbn. destruct (Ascii.ascii_dec a b); [done|discriminate]. Qed.

(** No path under [/dashboard] is a public route. *)
Lemma dashboard_is_not_public (p : string) :
  String.prefix "/dashboard" p = true → isPublicRoute p = false.
Proof.
  intros H.
  destruct p as [|c0 [|c1 p]]; try discriminate.
  - apply prefix_cons_true in H as [_ H]. discriminate.
  - apply prefix_cons_true in H as [<- H].
    apply prefix_cons_true in H as [<- _]. reflexivity.
Qed.

Lemma token_redirected (request : NextRequest) (target : string) :
  token (redirected request target) = token request.
Proof. reflexivity. Qed.

Lemma prefix_append (p s : string) : String.prefix p (p +:+ s) = true.
Proof.
  induction p as [|a p IH]; [by destruct s|].
  change (String.prefix (String a p) (String a (p +:+ s)) = true).
  change (String.prefix (String a p) (String a (p +:+ s)))
    with (if Ascii.ascii_dec a a then String.prefix p (p +:+ s) else false).
  destruct (Ascii.ascii_dec a a); [exact IH|done].
Qed.

Lemma drop_chars_append (p s : string) : drop_chars (String.length p) (p +:+ s) = s.
Proof. induction p as [|a p IH]; [by destruct s|exact IH]. Qed.

Lemma replace_at_start (p r s : string) : replace p r (p +:+ s) = r +:+ s.
Proof.
  destruct (p +:+ s) eqn:E; cbn [replace]; rewrite <- E, prefix_append;
    by rewrite drop_chars_append.
Qed.

(** X6: the middleware lets a request through to its page in two cases only:
    the path is a public route, and then the response gets no header; or the
    request carries a token and, for a path under [/dashboard], an
    organization id, and then the response gets the security headers.  A page
    outside the public routes is never served without a token. *)
Theorem middleware_serves_protected_pages_only_with_credentials
    (NEXT_PUBLIC_API_URL : option string) (request : NextRequest)
    (headers : list (string * string)) :
  middleware NEXT_PUBLIC_API_URL request = next headers →
  (isPublicRoute (pathname request) = true ∧ headers = [])
  ∨ (isPublicRoute (pathname request) = false
     ∧ truthy (token request) = true
     ∧ (String.prefix "/dashboard" (pathname request) = true →
        truthy (organization_id_cookie request) = true)
     ∧ headers = security_headers NEXT_PUBLIC_API_URL).
Proof.
  unfold middleware.
  destruct (isPublicRoute (pathname request)); [intros [= <-]; by left|].
  destruct (truthy (token request)); cbn [negb]; [|discriminate].
  destruct (String.prefix "/dashboard" (pathname request));
    destruct (truthy (organization_id_cookie request)); cbn [negb andb];
    try discriminate; intros [= <-]; right; by repeat split.
Qed.

Lemma middleware_serves_protected_pages_only_with_credentials_witness :
  middleware None content_page_request = next (security_headers None)
  ∧ truthy (token content_page_request) = true
  ∧ ("X-Frame-Options", "DENY") ∈ security_headers None.
Proof.
  assert (H : middleware None content_page_request = next (security_headers None))
    by reflexivity.
  destruct (middleware_serves_protected_pages_only_with_credentials _ _ _ H)
    as [[Hp _] | (_ & Ht & _ & _)]; [discriminate Hp|].
  split; [exact H|]. split; [exact Ht|]. by left.
Defined.

(** X7: a request without a token for a page outside the public routes is
    redirected to [/login] with the requested path in the [redirect] search
    param, and following that redirect ends on the login page, which is
    public. *)
Theorem unauthenticated_request_lands_on_login
    (NEXT_PUBLIC_API_URL : option string) (request : NextRequest) :
  isPublicRoute (pathname request) = false →
  truthy (token request) = false →
  middleware NEXT_PUBLIC_API_URL request
  = redirect "/login" [("redirect", pathname request)]
  ∧ navigate 1 NEXT_PUBLIC_API_URL request = Some ("/login", []).
Proof.
  intros Hp Ht.
  assert (H : middleware NEXT_PUBLIC_API_URL request
              = redirect "/login" [("redirect", pathname request)]).
  { unfold middleware. by rewrite Hp, Ht. }
  split; [exact H|]. cbn [navigate]. by rewrite H.
Qed.

Lemma unauthenticated_request_lands_on_login_witness :
  isPublicRoute (pathname anonymous_request) = false
  ∧ truthy (token anonymous_request) = false
  ∧ middleware None anonymous_request
    = redirect "/login" [("redirect", "/dashboard/styles/s1")].
Proof.
  split; [reflexivity|]. split; [reflexivity|].
  apply (unauthenticated_request_lands_on_login None anonymous_request eq_refl eq_refl).
Defined.

(** X8: a request with a token but without an organization id for a path
    under [/dashboard] is redirected to [/dashboard/organizations]; that
    path is under [/dashboard] too, so the redirected request gets the same
    answer, and following the redirects never reaches a page. *)
Theorem missing_organization_redirect_never_ends
    (NEXT_PUBLIC_API_URL : option string) (request : NextRequest) :
  String.prefix "/dashboard" (pathname request) = true →
  truthy (token request) = true →
  truthy (organization_id_cookie request) = false →
  middleware NEXT_PUBLIC_API_URL request = redirect "/dashboard/organizations" []
  ∧ middleware NEXT_PUBLIC_API_URL (redirected request "/dashboard/organizations")
    = redirect "/dashboard/organizations" []
  ∧ ∀ hops, navigate hops NEXT_PUBLIC_API_URL request = None.
Proof.
  intros Hd Ht Ho.
  assert (H : ∀ r, String.prefix "/dashboard" (pathname r) = true →
                   truthy (token r) = true →
                   truthy (organization_id_cookie r) = false →
                   middleware NEXT_PUBLIC_API_URL r = redirect "/dashboard/organizations" []).
  { intros r Hd' Ht' Ho'. unfold middleware.
    by rewrite (dashboard_is_not_public _ Hd'), Ht', Hd', Ho'. }
  split; [by apply H|]. split; [by apply H|].
  intros hops. revert request Hd Ht Ho.
  induction hops as [|hops IH]; intros request Hd Ht Ho; cbn [navigate];
    rewrite (H request Hd Ht Ho); [reflexivity|].
  by apply IH.
Qed.

Lemma missing_organization_redirect_never_ends_witness :
  String.prefix "/dashboard" (pathname no_organization_request) = true
  ∧ truthy (token no_organization_request) = true
  ∧ truthy (organization_id_cookie no_organization_request) = false
  ∧ navigate 100 None no_organization_request = None.
Proof.
  split; [reflexivity|]. split; [reflexivity|]. split; [reflexivity|].
  apply (missing_organization_redirect_never_ends None no_organization_request
           eq_refl eq_refl eq_refl).
Defined.

Lemma prefix_split (p s : string) :
  String.prefix p s = true → s = p +:+ drop_chars (String.length p) s.
Proof.
  revert s. induction p as [|a p IH]; intros s H; [by destruct s|].
  destruct s as [|b s]; [discriminate|].
  apply prefix_cons_true in H as [<- H].
  change (String a s = String a (p +:+ drop_chars (String.length p) s)).
  f_equal. by apply IH.
Qed.

(** Taking a pattern out leaves nothing only of the empty string and of the
    pattern itself. *)
Lemma replace_empty (p s : string) :
  replace p EmptyString s = EmptyString → s = EmptyString ∨ s = p.
Proof.
  destruct s as [|c s]; [by left|]. cbn [replace].
  destruct (String.prefix p (String c s)) eqn:Hp; [|discriminate].
  intros H. right. apply prefix_split in Hp. rewrite Hp.
  change (drop_chars (String.length p) (String c s) = EmptyString) in H.
  rewrite H. clear. induction p as [|a p IH]; [reflexivity|].
  change (String a (p +:+ EmptyString) = String a p). by rewrite IH.
Qed.

(** X9: the token of a request is its [access_token] cookie when that is
    not empty.  Without one the [authorization] header decides, which the
    runtime hands over without white space at its ends: a header
    ["Bearer t"] gives [t], and every header that is not empty gives a token
    that counts, whatever its scheme — the header ["Bearer"], which is what
    a header with nothing after the scheme arrives as, is its own token.
    With neither cookie nor header there is no token. *)
Theorem token_of_cookie_or_bearer (request : NextRequest) :
  (truthy (access_token_cookie request) = true →
     token request = access_token_cookie request)
  ∧ (∀ header, truthy (access_token_cookie request) = false →
       authorization_header request = Some header →
       header_value header = true →
       truthy (token request) = negb (String.eqb header EmptyString)
       ∧ (∀ t, header = "Bearer " +:+ t → token request = Some t ∧ t ≠ EmptyString)
       ∧ (header = "Bearer" → token request = Some "Bearer"))
  ∧ (truthy (access_token_cookie request) = false →
     authorization_header request = None →
     truthy (token request) = false).
Proof.
  unfold token, or_else. split; [|split].
  - by intros ->.
  - intros header -> -> Hv. cbn [fmap option_fmap option_map truthy].
    split; [|split].
    + f_equal. destruct (String.eqb_spec header EmptyString) as [->|Hne]; [reflexivity|].
      apply String.eqb_neq. intros Hr.
      apply replace_empty in Hr as [->| ->]; [done|discriminate Hv].
    + intros t ->. split.
      * by rewrite (replace_at_start "Bearer " EmptyString t).
      * intros ->. discriminate Hv.
    + by intros ->.
  - by intros -> ->.
Qed.

Lemma token_of_cookie_or_bearer_witness :
  token {| pathname := "/dashboard"; access_token_cookie := Some EmptyString;
           organization_id_cookie := None;
           authorization_header := Some "Bearer abc" |} = Some "abc"
  ∧ truthy (token {| pathname := "/settings"; access_token_cookie := None;
                     organization_id_cookie := None;
                     authorization_header := Some "Bearer" |}) = true
  ∧ middleware None {| pathname := "/settings"; access_token_cookie := None;
                       organization_id_cookie := None;
                       authorization_header := Some "Basic dXNlcjpwYXNz" |}
    = next (security_headers None).
Proof.
  split; [|split; [|reflexivity]].
  - destruct (token_of_cookie_or_bearer
                {| pathname := "/dashboard"; access_token_cookie := Some EmptyString;
                   organization_id_cookie := None;
                   authorization_header := Some "Bearer abc" |}) as (_ & H & _).
    destruct (H "Bearer abc" eq_refl eq_refl eq_refl) as (_ & Ht & _).
    by destruct (Ht "abc" eq_refl).
  - destruct (token_of_cookie_or_bearer
                {| pathname := "/settings"; access_token_cookie := None;
                   organization_id_cookie := None;
                   authorization_header := Some "Bearer" |}) as (_ & H & _).
    destruct (H "Bearer" eq_refl eq_refl eq_refl) as (Ht & _). exact Ht.
Defined.

(** ** The sidebar *)

Import Sidebar.

Lemma prefix_empty_r (a : string) : String.prefix a EmptyString = true → a = EmptyString.
Proof. by destruct a. Qed.

Lemma prefix_empty_l (b : string) : String.prefix EmptyString b = true.
Proof. by destruct b. Qed.

(** Two prefixes of one string are comparable. *)
Lemma prefix_comparable (p a b : string) :
  String.prefix a p = true → String.prefix b p = true →
  String.prefix a b = true ∨ String.prefix b a = true.
Proof.
  revert a b. induction p as [|c p IH]; intros a b Ha Hb.
  - apply prefix_empty_r in Ha as ->. left. apply prefix_empty_l.
  - destruct a as [|x a]; [left; apply prefix_empty_l|].
    destruct b as [|y b]; [right; apply prefix_empty_l|].
    apply prefix_cons_true in Ha as [-> Ha].
    apply prefix_cons_true in Hb as [-> Hb].
    destruct (IH a b Ha Hb) as [H|H]; [left|right];
      cbn; by destruct (Ascii.ascii_dec c c).
Qed.

(** X10: on any page at most one item of the sidebar is shown as active;
    the overview item is active on [/dashboard] only, and each other item on
    every path that starts with its [href]. *)
Theorem sidebar_highlights_at_most_one_item (pathname : string) :
  (length (active pathname) <= 1)%nat
  ∧ (isActive pathname "/dashboard" = true ↔ pathname = "/dashboard")
  ∧ (∀ href rest, href ∈ navigation → href ≠ "/dashboard" →
       active (href +:+ rest) = [href]).
Proof.
  assert (Hone : (length (active pathname) <= 1)%nat).
  { unfold active, navigation, isActive. cbn [List.filter String.eqb Ascii.eqb Bool.eqb].
    destruct (String.eqb pathname "/dashboard") eqn:E0.
    - apply String.eqb_eq in E0. subst. cbn. lia.
    - repeat match goal with
             | |- context [if String.prefix ?h pathname then _ else _] =>
                 let E := fresh "E" in destruct (String.prefix h pathname) eqn:E
             end; cbn [length]; try lia; exfalso;
        match goal with
        | H1 : String.prefix ?a pathname = true,
          H2 : String.prefix ?b pathname = true |- _ =>
            destruct (prefix_comparable _ _ _ H1 H2) as [X|X]; discriminate X
        end. }
  split; [exact Hone|]. split.
  - unfold isActive. cbn [String.eqb Ascii.eqb Bool.eqb]. apply String.eqb_eq.
  - intros href rest Hin Hne.
    assert (Ha : isActive (href +:+ rest) href = true).
    { unfold isActive. destruct (String.eqb href "/dashboard") eqn:E.
      - apply String.eqb_eq in E. contradiction.
      - apply prefix_append. }
    assert (Hl : (length (active (href +:+ rest)) <= 1)%nat).
    { clear Hone. unfold active, navigation, isActive.
      cbn [List.filter String.eqb Ascii.eqb Bool.eqb].
      destruct (String.eqb (href +:+ rest) "/dashboard") eqn:E0.
      - apply String.eqb_eq in E0. rewrite E0. cbn. lia.
      - repeat match goal with
               | |- context [if String.prefix ?h (href +:+ rest) then _ else _] =>
                   let E := fresh "E" in destruct (String.prefix h (href +:+ rest)) eqn:E
               end; cbn [length]; try lia; exfalso;
          match goal with
          | H1 : String.prefix ?a (href +:+ rest) = true,
            H2 : String.prefix ?b (href +:+ rest) = true |- _ =>
              destruct (prefix_comparable _ _ _ H1 H2) as [X|X]; discriminate X
          end. }
    assert (Hmem : href ∈ active (href +:+ rest)).
    { unfold active. apply list_elem_of_In, filter_In. split; [|exact Ha].
      by apply list_elem_of_In. }
    destruct (active (href +:+ rest)) as [|x [|y l]].
    + by apply elem_of_nil in Hmem.
    + apply list_elem_of_singleton in Hmem. by subst.
    + cbn in Hl. lia.
Qed.

(** ** The organization store *)

Import OrganizationStore TeamSamples.

(** X11: when an action of the organization store fails — at its request,
    or for [addMember] at the reload of the members that follows it — it
    rethrows the error and leaves the organizations, the current
    organization, the members and the usage stats as they were, with a
    non-empty error message and the loading flag down; when it succeeds the
    error is cleared and the loading flag is down. *)
Theorem failed_action_keeps_the_data (a : api.t) (action : Action) (s : OrganizationState) :
  let r := run a action s in
  isLoading (final r) = false
  ∧ match thrown r with
    | Some e =>
        data_of (final r) = data_of s
        ∧ stored r = []
        ∧ (∃ message, error (final r) = Some message ∧ message ≠ EmptyString)
    | None => error (final r) = None
    end.
Proof.
  assert (Hm : ∀ e fallback, fallback ≠ EmptyString →
                 ∃ message, Some (Auth.detail_or e fallback) = Some message
                            ∧ message ≠ EmptyString).
  { intros e fallback Hf. eexists. split; [reflexivity|]. by apply detail_or_nonempty. }
  destruct action as [|o|o|o em ro|o u ro|o u|o d]; cbn [run].
  - unfold loadOrganizations. destruct (api.get_organizations a) as [data|e].
    + cbn [currentOrganization loading]. destruct (currentOrganization s), data; by split.
    + split; [reflexivity|]. cbn. split; [reflexivity|]. split; [reflexivity|].
      by apply Hm.
  - unfold loadMembers. destruct (api.get_members a o) as [data|e]; [by split|].
    split; [reflexivity|]. cbn. split; [reflexivity|]. split; [reflexivity|]. by apply Hm.
  - unfold loadUsageStats. destruct (api.get_usage a o) as [data|e]; [by split|].
    split; [reflexivity|]. cbn. split; [reflexivity|]. split; [reflexivity|]. by apply Hm.
  - unfold addMember. destruct (api.post_member a o em ro) as [[]|e].
    + unfold loadMembers. destruct (api.get_members a o) as [data|e]; [by split|].
      split; [reflexivity|]. cbn. split; [reflexivity|]. split; [reflexivity|]. by apply Hm.
    + split; [reflexivity|]. cbn. split; [reflexivity|]. split; [reflexivity|]. by apply Hm.
  - unfold updateMemberRole. destruct (api.put_member a o u ro) as [[]|e]; [by split|].
    split; [reflexivity|]. cbn. split; [reflexivity|]. split; [reflexivity|]. by apply Hm.
  - unfold removeMember. destruct (api.delete_member a o u) as [[]|e]; [by split|].
    split; [reflexivity|]. cbn. split; [reflexivity|]. split; [reflexivity|]. by apply Hm.
  - unfold updateOrganization. destruct (api.put_organization a o d) as [resp|e]; [by split|].
    split; [reflexivity|]. cbn. split; [reflexivity|]. split; [reflexivity|]. by apply Hm.
Qed.

Lemma failed_action_keeps_the_data_witness :
  thrown (run listing_fails (do_addMember "org-1" "carol@example.com" as_member) team_of_org1)
  = Some server_down
  ∧ members (final (run listing_fails (do_addMember "org-1" "carol@example.com" as_member)
                      team_of_org1))
    = [alice_owner; bob_member]
  ∧ requests (run listing_fails (do_addMember "org-1" "carol@example.com" as_member)
                team_of_org1)
    = [POST_member "org-1" "carol@example.com" as_member; GET_members "org-1"].
Proof.
  pose proof (failed_action_keeps_the_data listing_fails
                (do_addMember "org-1" "carol@example.com" as_member) team_of_org1)
    as [_ H].
  destruct H as (Hd & _).
  split; [reflexivity|]. split; [|reflexivity].
  exact (f_equal (fun d => d.1.2) Hd).
Defined.

(** X12: a successful [removeMember] keeps exactly the members whose user
    is another one, in their order; a successful [updateMemberRole] keeps
    the members and their order and changes only the role of the members of
    that user, to admin or member and never to owner — an owner can be
    demoted by it. *)
Theorem member_updates_touch_only_that_user
    (a : api.t) (organizationId userId : string) (role : AssignableRole)
    (s : OrganizationState) :
  (api.delete_member a organizationId userId = Resolved tt →
     let s' := final (removeMember a organizationId userId s) in
     (∀ m, m ∈ members s' ↔ m ∈ members s ∧ OrganizationMember.user_id m ≠ userId)
     ∧ members s' `sublist_of` members s
     ∧ (currentOrganization s', organizations s', usageStats s')
       = (currentOrganization s, organizations s, usageStats s))
  ∧ (api.put_member a organizationId userId role = Resolved tt →
       let s' := final (updateMemberRole a organizationId userId role s) in
       OrganizationMember.user_id <$> members s' = OrganizationMember.user_id <$> members s
       ∧ (∀ i m, members s !! i = Some m →
            members s' !! i
            = Some (if String.eqb (OrganizationMember.user_id m) userId
                    then with_role m (role_of role) else m))
       ∧ (∀ m, m ∈ members s' → OrganizationMember.user_id m = userId →
            OrganizationMember.role m = role_of role
            ∧ OrganizationMember.role m ≠ owner)
       ∧ (currentOrganization s', organizations s', usageStats s')
         = (currentOrganization s, organizations s, usageStats s)).
Proof.
  split.
  - intros Hr. unfold removeMember. rewrite Hr. cbn [final members loading].
    split; [|split; [|reflexivity]].
    + intros m. rewrite !list_elem_of_In, filter_In, negb_true_iff, String.eqb_neq.
      reflexivity.
    + induction (members s) as [|m l IH]; [constructor|]. cbn [List.filter].
      destruct (negb _); by constructor.
  - intros Hr. unfold updateMemberRole. rewrite Hr. cbn [final members loading].
    split; [|split; [|split; [|reflexivity]]].
    + rewrite <- list_fmap_compose. apply list_fmap_ext. intros _ m _. cbn.
      by destruct (String.eqb _ _).
    + intros i m Hi. by rewrite list_lookup_fmap, Hi.
    + intros m Hin Hu. apply list_elem_of_fmap in Hin as [m0 [-> Hin]].
      destruct (String.eqb (OrganizationMember.user_id m0) userId) eqn:E.
      * cbn. split; [reflexivity|]. by destruct role.
      * apply String.eqb_neq in E. contradiction.
Qed.

Lemma member_updates_touch_only_that_user_witness :
  members (final (removeMember server_up "org-1" "user-2" team_of_org1)) = [alice_owner]
  ∧ members (final (updateMemberRole server_up "org-1" "user-1" as_member team_of_org1))
    = [with_role alice_owner member; bob_member].
Proof.
  destruct (member_updates_touch_only_that_user server_up "org-1" "user-1" as_member
              team_of_org1) as [_ Hupd].
  destruct (Hupd eq_refl) as (_ & Hl & _).
  split; [reflexivity|].
  apply list_eq. intros [|[|i]]; cbn.
  - exact (Hl 0%nat alice_owner eq_refl).
  - exact (Hl 1%nat bob_member eq_refl).
  - reflexivity.
Defined.

(** X13: a successful [loadOrganizations] replaces the list of
    organizations by the one received; a current organization that is
    already set is kept, also when it is not in the list received; when none
    is set, the first organization received becomes the current one and is
    written to the local storage, and with an empty list none is chosen. *)
Theorem loadOrganizations_keeps_the_current_organization
    (a : api.t) (s : OrganizationState) (data : list Organization.t) :
  api.get_organizations a = Resolved data →
  let r := loadOrganizations a s in
  organizations (final r) = data
  ∧ (∀ current, currentOrganization s = Some current →
       currentOrganization (final r) = Some current ∧ stored r = [])
  ∧ (currentOrganization s = None →
       currentOrganization (final r) = head data
       ∧ stored r = option_list (head data))
  ∧ (members (final r), usageStats (final r)) = (members s, usageStats s)
  ∧ thrown r = None.
Proof.
  intros Hr. unfold loadOrganizations. rewrite Hr. cbn [currentOrganization loading].
  destruct (currentOrganization s) as [c|] eqn:Hc.
  - destruct data; cbn; (split; [reflexivity|]); (split; [by intros ? [= <-]|]);
      (split; [discriminate|]); by split.
  - destruct data as [|first rest]; cbn; (split; [reflexivity|]);
      (split; [discriminate|]); (split; [by split|]); by split.
Qed.

Lemma loadOrganizations_keeps_the_current_organization_witness :
  api.get_organizations server_up = Resolved [org2; org1]
  ∧ currentOrganization (final (loadOrganizations server_up team_of_org1)) = Some org1
  ∧ currentOrganization (final (loadOrganizations server_up OrganizationStore.initial))
    = Some org2
  ∧ stored (loadOrganizations server_up OrganizationStore.initial) = [org2].
Proof.
  split; [reflexivity|].
  destruct (loadOrganizations_keeps_the_current_organization server_up team_of_org1
              [org2; org1] eq_refl) as (_ & Hkeep & _).
  destruct (loadOrganizations_keeps_the_current_organization server_up
              OrganizationStore.initial [org2; org1] eq_refl) as (_ & _ & Hfirst & _).
  destruct (Hkeep org1 eq_refl) as [H1 _]. destruct (Hfirst eq_refl) as [H2 H3].
  split; [exact H1|]. split; [exact H2|exact H3].
Defined.

(** X14: a successful [updateOrganization] puts the organization received
    in the place of every organization of the list with the id asked for and
    leaves the others where they are; the current organization is replaced by
    it, and written to the local storage, exactly when it has that id.  So
    afterwards the current organization and the list agree on that id. *)
Theorem updateOrganization_replaces_by_id
    (a : api.t) (organizationId : string) (data : PartialOrganization.t)
    (s : OrganizationState) (response : Organization.t) :
  api.put_organization a organizationId data = Resolved response →
  let r := updateOrganization a organizationId data s in
  length (organizations (final r)) = length (organizations s)
  ∧ (∀ i org, organizations s !! i = Some org →
       organizations (final r) !! i
       = Some (if String.eqb (Organization.id org) organizationId then response else org))
  ∧ (∀ current, currentOrganization s = Some current →
       Organization.id current = organizationId →
       currentOrganization (final r) = Some response ∧ stored r = [response])
  ∧ (∀ current, currentOrganization s = Some current →
       Organization.id current ≠ organizationId →
       currentOrganization (final r) = Some current ∧ stored r = [])
  ∧ (currentOrganization s = None →
       currentOrganization (final r) = None ∧ stored r = [])
  ∧ (∀ current org, currentOrganization s = Some current →
       Organization.id current = organizationId →
       org ∈ organizations s → Organization.id org = organizationId →
       Some response = currentOrganization (final r)
       ∧ response ∈ organizations (final r))
  ∧ (members (final r), usageStats (final r)) = (members s, usageStats s).
Proof.
  intros Hr r.
  assert (Hlist : organizations (final r)
                  = (fun org => if String.eqb (Organization.id org) organizationId
                                then response else org) <$> organizations s).
  { unfold r, updateOrganization. rewrite Hr. cbn [currentOrganization loading].
    destruct (currentOrganization s) as [c|]; [|reflexivity].
    by destruct (String.eqb (Organization.id c) organizationId). }
  assert (Hcur : ∀ current, currentOrganization s = Some current →
            Organization.id current = organizationId →
            currentOrganization (final r) = Some response ∧ stored r = [response]).
  { intros c Hc Hid. unfold r, updateOrganization. rewrite Hr.
    cbn [currentOrganization loading]. rewrite Hc.
    apply String.eqb_eq in Hid. by rewrite Hid. }
  split; [by rewrite Hlist, length_fmap|].
  split; [intros i org Hi; by rewrite Hlist, list_lookup_fmap, Hi|].
  split; [exact Hcur|]. split; [|split; [|split]].
  - intros c Hc Hid. unfold r, updateOrganization. rewrite Hr.
    cbn [currentOrganization loading]. rewrite Hc.
    apply String.eqb_neq in Hid. by rewrite Hid.
  - intros Hc. unfold r, updateOrganization. rewrite Hr.
    cbn [currentOrganization loading]. by rewrite Hc.
  - intros c org Hc Hid Hin Hoid. destruct (Hcur c Hc Hid) as [-> _].
    split; [reflexivity|]. rewrite Hlist. apply list_elem_of_fmap.
    exists org. split; [|exact Hin]. apply String.eqb_eq in Hoid. by rewrite Hoid.
  - unfold r, updateOrganization. rewrite Hr. cbn [currentOrganization loading].
    destruct (currentOrganization s) as [c|]; [|reflexivity].
    by destruct (String.eqb (Organization.id c) organizationId).
Qed.

Lemma updateOrganization_replaces_by_id_witness :
  api.put_organization server_up "org-1" rename = Resolved org1_renamed
  ∧ organizations (final (updateOrganization server_up "org-1" rename team_of_org1))
    = [org1_renamed; org2]
  ∧ currentOrganization (final (updateOrganization server_up "org-1" rename team_of_org1))
    = Some org1_renamed.
Proof.
  split; [reflexivity|].
  destruct (updateOrganization_replaces_by_id server_up "org-1" rename team_of_org1
              org1_renamed eq_refl) as (_ & Hl & Hc & _).
  split.
  - apply list_eq. intros [|[|i]]; cbn.
    + exact (Hl 0%nat org1 eq_refl).
    + exact (Hl 1%nat org2 eq_refl).
    + reflexivity.
  - by destruct (Hc org1 eq_refl eq_refl).
Defined.

(** ** The other actions of the authentication store *)

Import Auth AuthActions AccountSamples.

(** X15: the authenticated flag of the store is raised by a successful
    [login] and by an [initialize] whose token is valid and whose request
    for the current user succeeds, and by nothing else: no other action,
    and no other outcome of these two, ends authenticated — or passes
    through an authenticated state — when the store was not. *)
Theorem only_login_and_initialize_authenticate
    (svc : authService.t) (rest : authServiceRest.t) (action : Action) (s : AuthState) :
  isAuthenticated s = false →
  let r := run svc rest action s in
  (isAuthenticated (final r) = true ∨ isAuthenticated (at_return r) = true
   ∨ ∃ s', s' ∈ sets r ∧ isAuthenticated s' = true) →
  (∃ email password response,
      action = do_login email password
      ∧ authService.login svc email password = Resolved response)
  ∨ (action = do_initialize ∧ token_valid svc = true
     ∧ ∃ u, authService.getCurrentUser svc = Resolved u).
Proof.
  intros Hs r H.
  assert (Hno : ∀ P : Prop,
            isAuthenticated (final r) = false →
            isAuthenticated (at_return r) = false →
            (∀ s', s' ∈ sets r → isAuthenticated s' = false) → P).
  { intros P H1 H2 H3. destruct H as [H | [H | (s' & Hin & H)]].
    - congruence.
    - congruence.
    - rewrite (H3 s' Hin) in H. discriminate. }
  destruct action as [email password|d| | |d|o| |]; unfold r in *; cbn [run] in *.
  - destruct (authService.login svc email password) as [response|e] eqn:Hl.
    + left. by exists email, password, response.
    + apply Hno; unfold login; rewrite Hl; cbn; try exact Hs.
      intros s' Hin. elem_inv Hin; subst; exact Hs.
  - apply Hno; unfold register; destruct (authServiceRest.register rest d); cbn;
      try exact Hs; intros s' Hin; elem_inv Hin; subst; exact Hs.
  - apply Hno; unfold logout; destruct (authService.logout svc); cbn;
      try reflexivity; intros s' Hin; elem_inv Hin; subst; first [exact Hs|reflexivity].
  - apply Hno; unfold refreshToken, logout;
      destruct (authServiceRest.refreshToken rest), (authService.logout svc); cbn;
      try exact Hs; try reflexivity; intros s' Hin; elem_inv Hin; subst;
      first [exact Hs|reflexivity].
  - apply Hno; unfold updateUser; destruct (authServiceRest.updateProfile rest d); cbn;
      try exact Hs; intros s' Hin; elem_inv Hin; subst; exact Hs.
  - apply Hno; cbn; try exact Hs. intros s' Hin. elem_inv Hin; subst; exact Hs.
  - apply Hno; cbn; try exact Hs. intros s' Hin. elem_inv Hin; subst; exact Hs.
  - unfold token_valid.
    destruct (authService.isAuthenticated svc) eqn:Ha,
             (authService.isTokenExpired svc) eqn:He,
             (authService.getCurrentUser svc) as [u|e] eqn:Hu.
    all: try (right; split; [reflexivity|]; split; [reflexivity|]; by exists u).
    all: apply Hno; unfold initialize; rewrite Ha, ?He, ?Hu; cbn;
      try reflexivity; intros s' Hin; elem_inv Hin; subst; first [exact Hs|reflexivity].
Qed.

Lemma only_login_and_initialize_authenticate_witness :
  isAuthenticated Auth.initial = false
  ∧ isAuthenticated (final (run token_valid_fetch_succeeds account_service
                              do_initialize Auth.initial)) = true
  ∧ token_valid token_valid_fetch_succeeds = true.
Proof.
  assert (H : isAuthenticated (final (run token_valid_fetch_succeeds account_service
                                        do_initialize Auth.initial)) = true) by reflexivity.
  split; [reflexivity|]. split; [exact H|].
  destruct (only_login_and_initialize_authenticate token_valid_fetch_succeeds
              account_service do_initialize Auth.initial eq_refl (or_introl H))
    as [(? & ? & ? & Habs & _) | (_ & Ht & _)]; [discriminate Habs|exact Ht].
Defined.

(** X16: "authenticated implies a user is present" is an invariant of the
    store: if it holds before an action, it holds in every state the action
    sets, when the action returns, and when everything it started has
    finished.  (An organization need not be present: [initialize] takes
    whatever organization is stored, possibly none.) *)
Theorem authenticated_state_has_a_user
    (svc : authService.t) (rest : authServiceRest.t) (action : Action) (s : AuthState) :
  has_user_when_authenticated s →
  let r := run svc rest action s in
  has_user_when_authenticated (final r)
  ∧ has_user_when_authenticated (at_return r)
  ∧ ∀ s', s' ∈ sets r → has_user_when_authenticated s'.
Proof.
  intros Hs r.
  assert (Hc : has_user_when_authenticated cleared) by discriminate.
  assert (Hany : ∀ o l e,
            has_user_when_authenticated
              {| user := user s; organization := o;
                 isAuthenticated := isAuthenticated s; isLoading := l; error := e |}).
  { intros o l e. exact Hs. }
  assert (Hsome : ∀ u o a l e,
            has_user_when_authenticated
              {| user := Some u; organization := o;
                 isAuthenticated := a; isLoading := l; error := e |}).
  { intros u o a l e _. by eexists. }
  destruct action as [email password|d| | |d|o| |]; unfold r; cbn [run].
  - unfold login. destruct (authService.login svc email password); cbn;
      repeat split; try apply Hany; try apply Hsome;
      intros s' Hin; elem_inv Hin; subst; first [apply Hany|apply Hsome].
  - unfold register. destruct (authServiceRest.register rest d); cbn;
      repeat split; try apply Hany;
      intros s' Hin; elem_inv Hin; subst; apply Hany.
  - unfold logout. destruct (authService.logout svc); cbn;
      repeat split; try exact Hc;
      intros s' Hin; elem_inv Hin; subst; first [apply Hany|exact Hc].
  - unfold refreshToken, logout.
    destruct (authServiceRest.refreshToken rest), (authService.logout svc); cbn;
      repeat split; try exact Hc; try exact Hs; try apply Hany;
      intros s' Hin; elem_inv Hin; subst; first [apply Hany|exact Hc].
  - unfold updateUser. destruct (authServiceRest.updateProfile rest d); cbn;
      repeat split; try apply Hany; try apply Hsome;
      intros s' Hin; elem_inv Hin; subst; first [apply Hany|apply Hsome].
  - cbn. repeat split; try apply Hany.
    intros s' Hin; elem_inv Hin; subst; apply Hany.
  - cbn. repeat split; try apply Hany.
    intros s' Hin; elem_inv Hin; subst; apply Hany.
  - unfold initialize.
    destruct (authService.isAuthenticated svc), (authService.isTokenExpired svc),
             (authService.getCurrentUser svc); cbn;
      repeat split; try exact Hc; try apply Hsome;
      intros s' Hin; elem_inv Hin; subst; first [apply Hany|exact Hc|apply Hsome].
Qed.

Lemma authenticated_state_has_a_user_witness :
  has_user_when_authenticated session1
  ∧ has_user_when_authenticated
      (final (run token_valid_fetch_succeeds account_service
                (do_updateUser new_name) session1)).
Proof.
  assert (H : has_user_when_authenticated session1) by (intros _; by eexists).
  split; [exact H|].
  destruct (authenticated_state_has_a_user token_valid_fetch_succeeds account_service
              (do_updateUser new_name) session1 H) as [Hf _].
  exact Hf.
Defined.

(** X17: a successful [refreshToken] does not touch the store.  A failed
    one rethrows the error and forces a logout: once the logout request has
    settled, whatever its outcome, the session is cleared.  The logout is
    not awaited, so at the moment the error is rethrown the store still
    holds the session, with the loading flag up. *)
Theorem failed_refresh_forces_logout
    (rest : authServiceRest.t) (svc : authService.t) (s : AuthState) :
  let r := refreshToken rest svc s in
  (authServiceRest.refreshToken rest = Resolved tt →
     sets r = [] ∧ final r = s ∧ at_return r = s ∧ thrown r = None
     ∧ calls r = [refreshToken_call])
  ∧ (∀ e, authServiceRest.refreshToken rest = Rejected e →
       thrown r = Some e
       ∧ final r = cleared
       ∧ session (at_return r) = session s
       ∧ Auth.isLoading (at_return r) = true
       ∧ calls r = [refreshToken_call; service_call logout_call]
       ∧ last (sets r) = Some cleared).
Proof.
  unfold refreshToken. split.
  - by intros ->.
  - intros e ->. unfold logout. by destruct (authService.logout svc).
Qed.

Lemma failed_refresh_forces_logout_witness :
  authServiceRest.refreshToken refresh_refused = Rejected bad_credentials
  ∧ final (refreshToken refresh_refused token_valid_fetch_fails session1) = cleared
  ∧ isAuthenticated (at_return (refreshToken refresh_refused token_valid_fetch_fails session1))
    = true.
Proof.
  destruct (failed_refresh_forces_logout refresh_refused token_valid_fetch_fails session1)
    as [_ H].
  destruct (H bad_credentials eq_refl) as (_ & Hf & Hs & _).
  split; [reflexivity|]. split; [exact Hf|].
  exact (f_equal snd Hs).
Defined.

(** X18: the session survives a reload and the transient flags do not: the
    state rehydrated from what [partialize] persisted has the same user,
    organization and authenticated flag, is not loading and has no error.
    [initialize] does not trust it: the state it ends in is the same
    whatever the store held before, persisted or not. *)
Theorem persisted_session_round_trip
    (svc : authService.t) (s s' : AuthState) :
  session (rehydrate (Some (partialize s))) = session s
  ∧ Auth.isLoading (rehydrate (Some (partialize s))) = false
  ∧ Auth.error (rehydrate (Some (partialize s))) = None
  ∧ partialize (rehydrate (Some (partialize s))) = partialize s
  ∧ rehydrate None = Auth.initial
  ∧ Auth.final (initialize svc (rehydrate (Some (partialize s))))
    = Auth.final (initialize svc s')
  ∧ (token_valid svc = false →
     Auth.final (initialize svc (rehydrate (Some (partialize s)))) = cleared).
Proof.
  repeat split.
  - unfold initialize.
    by destruct (authService.isAuthenticated svc), (authService.isTokenExpired svc),
                (authService.getCurrentUser svc).
  - unfold token_valid, initialize.
    destruct (authService.isAuthenticated svc), (authService.isTokenExpired svc);
      try discriminate; reflexivity.
Qed.

(** X19: [register] never signs the user in and [updateUser] changes
    nothing but the user: in both, the organization and the authenticated
    flag stay as they were in every state set; [register] keeps the user as
    well, [updateUser] replaces it by the user received when the request
    succeeds and keeps it when the request fails.  A failure sets a
    non-empty error message and is rethrown; a success clears the error. *)
Theorem register_and_updateUser_keep_the_session
    (rest : authServiceRest.t) (newUser : RegisterData.t) (userData : PartialUser.t)
    (s : AuthState) :
  let r1 := register rest newUser s in
  let r2 := updateUser rest userData s in
  (∀ s', s' ∈ final r1 :: sets r1 → session s' = session s)
  ∧ (∀ s', s' ∈ final r2 :: sets r2 →
       (organization s', isAuthenticated s') = (organization s, isAuthenticated s))
  ∧ user (final r2)
    = match authServiceRest.updateProfile rest userData with
      | Resolved updatedUser => Some updatedUser
      | Rejected _ => user s
      end
  ∧ (∀ r, r ∈ [r1; r2] →
       Auth.isLoading (final r) = false
       ∧ match thrown r with
         | Some _ => ∃ message, Auth.error (final r) = Some message
                                ∧ message ≠ EmptyString
         | None => Auth.error (final r) = None
         end)
  ∧ thrown r1 = match authServiceRest.register rest newUser with
                | Resolved _ => None
                | Rejected e => Some e
                end.
Proof.
  intros r1 r2. unfold r1, r2, register, updateUser.
  assert (Hm : ∀ e fallback, fallback ≠ EmptyString →
                 ∃ message, Some (detail_or e fallback) = Some message
                            ∧ message ≠ EmptyString).
  { intros e fallback Hf. eexists. split; [reflexivity|]. by apply detail_or_nonempty. }
  destruct (authServiceRest.register rest newUser) as [[]|e1],
           (authServiceRest.updateProfile rest userData) as [u|e2]; cbn.
  all: split; [intros s' Hin; elem_inv Hin; by subst|].
  all: split; [intros s' Hin; elem_inv Hin; by subst|].
  all: split; [reflexivity|]. all: split; [|reflexivity].
  all: intros r Hin; elem_inv Hin; subst; cbn; (split; [reflexivity|]);
    first [reflexivity | by apply Hm].
Qed.

Lemma register_and_updateUser_keep_the_session_witness :
  session (final (register account_service new_account Auth.initial)) = (None, None, false)
  ∧ user (final (updateUser account_service new_name session1)) = Some alice_renamed.
Proof.
  destruct (register_and_updateUser_keep_the_session account_service new_account new_name
              Auth.initial) as (H1 & _).
  destruct (register_and_updateUser_keep_the_session account_service new_account new_name
              session1) as (_ & _ & H2 & _).
  split; [apply H1; by left|exact H2].
Defined.

(** ** Validity of the forms' data *)

Import Forms Generation.

Lemma style_selected_spec (v : option string) :
  z_string_min "style_profile_id" 1 "Выберите стиль" v = [] ↔ style_selected v = true.
Proof.
  unfold z_string_min, style_selected. destruct v as [id|]; [|split; discriminate].
  rewrite Nat.ltb_antisym. destruct (1 <=? JsString.length id)%nat; cbn; split; done.
Qed.

Lemma number_ok_spec (field : string) (lo hi : Q) (v : option JsNumber) :
  z_number_min_max_optional field lo hi v = [] ↔ number_ok lo hi v = true.
Proof.
  destruct v as [[|q]|]; cbn; [split; discriminate| |done].
  destruct (Qle_bool lo q), (Qle_bool q hi); cbn; split; done.
Qed.

Lemma brief_spec (s : string) :
  z_string_min "brief" 10 "Бриф должен содержать минимум 10 символов" (Some s) = []
  ↔ (10 <=? JsString.length s)%nat = true.
Proof.
  unfold z_string_min. rewrite Nat.ltb_antisym.
  destruct (10 <=? JsString.length s)%nat; cbn; split; done.
Qed.

(** X20: the generation form sends its request exactly when the data is
    valid — a brief of at least 10 characters, a selected style, and each of
    the two numeric parameters either absent or a number within its bounds
    (100 to 4000 tokens, temperature 0 to 2).  Invalid data sends nothing
    and shows the issues.  Valid data is posted to the generation endpoint
    as entered, once for each execution of the mutation: once when the
    first answer is a success or an error with a status from 400 to 499, and
    otherwise again after each failure, up to three times in all. *)
Theorem generation_request_goes_out_iff_valid
    (organizationId : string) (data : ContentGenerationFormData)
    (server : nat → Retry.Outcome) :
  let request := {| req_method := POST; req_endpoint := CONTENT_GENERATE organizationId;
                    req_body := data |} in
  let sent := network (handleSubmit organizationId data server) in
  (contentGenerationSchema data = [] ↔ valid data = true)
  ∧ (Forms.errors (handleSubmit organizationId data server) = [] ↔ valid data = true)
  ∧ (valid data = false → sent = [])
  ∧ (valid data = true →
       (∃ executions, (1 <= executions <= 3)%nat ∧ sent = replicate executions request)
       ∧ (server 0%nat = Retry.Success → sent = [request])
       ∧ (∀ error, server 0%nat = Retry.Failure error → Retry.is_4xx error = true →
            sent = [request])
       ∧ (∀ error, server 0%nat = Retry.Failure error → Retry.is_4xx error = false →
            server 1%nat = Retry.Success → sent = [request; request])
       ∧ ((∀ n, ∃ error, server n = Retry.Failure error ∧ Retry.is_4xx error = false) →
            sent = [request; request; request])).
Proof.
  intros request sent.
  assert (Hv : contentGenerationSchema data = [] ↔ valid data = true).
  { unfold contentGenerationSchema, valid, z_string_optional.
    rewrite app_nil_r, !app_nil, brief_spec, style_selected_spec, !number_ok_spec.
    rewrite !andb_true_iff. tauto. }
  split; [exact Hv|].
  assert (He : Forms.errors (handleSubmit organizationId data server) = []
               ↔ contentGenerationSchema data = []).
  { unfold handleSubmit. by destruct (contentGenerationSchema data). }
  split; [by rewrite He|]. split.
  - intros Hval. unfold sent, handleSubmit.
    destruct (contentGenerationSchema data) as [|i l] eqn:Hs; [|reflexivity].
    destruct Hv as [Hv _]. rewrite (Hv eq_refl) in Hval. discriminate Hval.
  - intros Hval. apply Hv in Hval.
    assert (Hsent : sent = mutateAsync request server).
    { unfold sent. by rewrite handleSubmit_valid. }
    rewrite Hsent. unfold mutateAsync. split; [|split; [|split; [|split]]].
    + destruct (mutations_retryer_runs server) as (n & o & -> & Hn). by exists n.
    + intros H0. cbn [Retry.retryer]. by rewrite H0.
    + intros error H0 H4. cbn [Retry.retryer]. rewrite H0.
      unfold Retry.mutations_retry. by rewrite H4.
    + intros error H0 H4 H1. cbn [Retry.retryer]. rewrite H0.
      unfold Retry.mutations_retry at 1. rewrite H4. cbn [Nat.ltb Nat.leb].
      by rewrite H1.
    + intros Hall.
      destruct (Hall 0%nat) as (e0 & H0 & H40), (Hall 1%nat) as (e1 & H1 & H41),
        (Hall 2%nat) as (e2 & H2 & H42).
      cbn [Retry.retryer]. rewrite H0. unfold Retry.mutations_retry at 1.
      rewrite H40. cbn [Nat.ltb Nat.leb]. rewrite H1.
      unfold Retry.mutations_retry at 1. rewrite H41. cbn [Nat.ltb Nat.leb].
      rewrite H2. unfold Retry.mutations_retry. rewrite H42. reflexivity.
Qed.

Lemma generation_request_goes_out_iff_valid_witness :
  let data := {| brief := "Write about renewable energy"; style_profile_id := Some "s1";
                 max_tokens := Some (Num 2000); temperature := None;
                 additional_instructions := None |} in
  let request := {| req_method := POST; req_endpoint := CONTENT_GENERATE "org-1";
                    req_body := data |} in
  valid data = true
  ∧ network (handleSubmit "org-1" data
               (fun _ => Retry.Failure {| Retry.status := Some 503%Z |}))
    = [request; request; request]
  ∧ network (handleSubmit "org-1" data
               (fun _ => Retry.Failure {| Retry.status := Some 429%Z |}))
    = [request]
  ∧ valid {| brief := "Привет"; style_profile_id := Some "s1";
             max_tokens := Some (Num 2000); temperature := None;
             additional_instructions := None |} = false.
Proof.
  intros data request.
  assert (Hval : valid data = true) by reflexivity.
  destruct (generation_request_goes_out_iff_valid "org-1" data
              (fun _ => Retry.Failure {| Retry.status := Some 503%Z |}))
    as (_ & _ & _ & H5).
  destruct (H5 Hval) as (_ & _ & _ & _ & Hthree).
  destruct (generation_request_goes_out_iff_valid "org-1" data
              (fun _ => Retry.Failure {| Retry.status := Some 429%Z |}))
    as (_ & _ & _ & H4).
  destruct (H4 Hval) as (_ & _ & Hone & _).
  split; [exact Hval|]. split; [|split; [|reflexivity]].
  - apply Hthree. intros n. by eexists.
  - by apply (Hone {| Retry.status := Some 429%Z |}).
Defined.

(** ** The account schemas *)

Import Schemas.

Lemma min_length_spec (field text value : string) (n : nat) :
  min_length field n text value = [] ↔ (n <= JsString.length value)%nat.
Proof.
  unfold min_length. destruct (Nat.ltb_spec (JsString.length value) n); split;
    try done; lia.
Qed.

Lemma regex_spec (field text value : string) (test : string → bool) :
  regex field test text value = [] ↔ test value = true.
Proof. unfold regex. by destruct (test value). Qed.

Lemma refine_spec (field text : string) (check : bool) :
  refine field check text = [] ↔ check = true.
Proof. unfold refine. by destruct check. Qed.

Lemma lookahead_has_char (C : Ascii.ascii → bool) (s : string) :
  lookahead C s = true → has_char C s = true.
Proof.
  unfold has_char. induction s as [|c s IH]; [discriminate|].
  cbn [lookahead String.list_ascii_of_string existsb].
  destruct (C c); [done|]. cbn [orb]. rewrite andb_true_iff. intros [_ H]. by apply IH.
Qed.

Lemma lookahead_single_line (C : Ascii.ascii → bool) (s : string) :
  has_line_terminator s = false → lookahead C s = has_char C s.
Proof.
  unfold has_char. induction s as [|c s IH]; [reflexivity|].
  cbn [has_line_terminator lookahead String.list_ascii_of_string existsb].
  rewrite orb_false_iff. intros [-> H]. cbn [negb andb]. by rewrite IH.
Qed.

(** A line feed or carriage return ends what [.] runs over. *)
Lemma line_terminator_at_app (c t : Ascii.ascii) (s rest : string) :
  is_lf_or_cr t = true →
  line_terminator_at (String c (s +:+ String t rest)) = line_terminator_at (String c s).
Proof.
  intros Ht.
  assert (H128 : (code t =? 128)%nat = false).
  { unfold is_lf_or_cr in Ht. apply orb_true_iff in Ht as [Ht|Ht];
      apply Nat.eqb_eq in Ht; by rewrite Ht. }
  assert (H168 : (code t =? 168)%nat || (code t =? 169)%nat = false).
  { unfold is_lf_or_cr in Ht. apply orb_true_iff in Ht as [Ht|Ht];
      apply Nat.eqb_eq in Ht; by rewrite Ht. }
  destruct s as [|b [|d s]].
  - change (EmptyString +:+ String t rest) with (String t rest).
    unfold line_terminator_at, line_separator_at.
    destruct rest; [reflexivity|]. by rewrite H128, andb_false_r.
  - change (String b EmptyString +:+ String t rest) with (String b (String t rest)).
    unfold line_terminator_at, line_separator_at. by rewrite H168, andb_false_r.
  - reflexivity.
Qed.

Lemma lookahead_app_terminator (C : Ascii.ascii → bool) (t : Ascii.ascii)
    (prefix rest : string) :
  is_lf_or_cr t = true → C t = false →
  lookahead C (prefix +:+ String t rest) = lookahead C prefix.
Proof.
  intros Ht HC. induction prefix as [|c s IH].
  - change (lookahead C (String t rest) = false).
    cbn [lookahead]. unfold line_terminator_at. by rewrite HC, Ht.
  - change (lookahead C (String c (s +:+ String t rest)) = lookahead C (String c s)).
    cbn [lookahead]. by rewrite IH, line_terminator_at_app.
Qed.

(** X21: the registration form accepts its data exactly when the e-mail
    passes the format check, the password has at least 8 characters and
    matches the pattern, the name and the organization name have at least 2
    characters, and the confirmation equals the password; the characters
    are counted as the language counts them, in UTF-16 code units.  Data
    accepted at registration passes the checks of the login form with the
    same e-mail and password. *)
Theorem registration_is_accepted_iff
    (is_email : string → bool) (d : RegisterFormData) :
  (registerSchema is_email d = [] ↔
     is_email (email d) = true
     ∧ (8 <= JsString.length (password d))%nat
     ∧ password_pattern (password d) = true
     ∧ (2 <= JsString.length (full_name d))%nat
     ∧ (2 <= JsString.length (organization_name d))%nat
     ∧ confirmPassword d = password d)
  ∧ (registerSchema is_email d = [] →
     loginSchema is_email (email d) (password d) = []).
Proof.
  assert (H : registerSchema is_email d = [] ↔
     is_email (email d) = true
     ∧ (8 <= JsString.length (password d))%nat
     ∧ password_pattern (password d) = true
     ∧ (2 <= JsString.length (full_name d))%nat
     ∧ (2 <= JsString.length (organization_name d))%nat
     ∧ confirmPassword d = password d).
  { unfold registerSchema, email_issue.
    rewrite !app_nil, !min_length_spec, !regex_spec, refine_spec, String.eqb_eq.
    intuition congruence. }
  split; [exact H|]. intros Hr. apply H in Hr as (He & Hp & _).
  unfold loginSchema, email_issue. rewrite app_nil, min_length_spec, regex_spec.
  split; [exact He|lia].
Qed.

Lemma registration_is_accepted_iff_witness :
  registerSchema (fun _ => true)
    {| email := "carol@example.com"; password := "Secret123";
       confirmPassword := "Secret123"; full_name := "Карл";
       organization_name := "Initech" |} = []
  ∧ loginSchema (fun _ => true) "carol@example.com" "Secret123" = []
  ∧ registerSchema (fun _ => true)
      {| email := "carol@example.com"; password := "Aa1яяя";
         confirmPassword := "Aa1яяя"; full_name := "Я";
         organization_name := "Initech" |} ≠ [].
Proof.
  assert (H : registerSchema (fun _ => true)
                {| email := "carol@example.com"; password := "Secret123";
                   confirmPassword := "Secret123"; full_name := "Карл";
                   organization_name := "Initech" |} = []) by reflexivity.
  split; [exact H|].
  destruct (registration_is_accepted_iff (fun _ => true)
              {| email := "carol@example.com"; password := "Secret123";
                 confirmPassword := "Secret123"; full_name := "Карл";
                 organization_name := "Initech" |}) as [_ Hl].
  split; [exact (Hl H)|].
  destruct (registration_is_accepted_iff (fun _ => true)
              {| email := "carol@example.com"; password := "Aa1яяя";
                 confirmPassword := "Aa1яяя"; full_name := "Я";
                 organization_name := "Initech" |}) as [Hiff _].
  intros Habs. apply Hiff in Habs as (_ & Hlen & _).
  vm_compute in Hlen. lia.
Defined.

(** X22: a password that matches the pattern of the registration and reset
    forms contains a lower-case letter, an upper-case letter and a digit;
    for a password without a line terminator the pattern asks exactly that,
    while what follows a line feed or a carriage return does not count.  The
    reset form accepts its data exactly when the token has at least one
    character, the new password has at least 8 characters (UTF-16 code
    units) and matches the pattern, and the confirmation equals it: the same
    password rule as at registration. *)
Theorem password_pattern_meaning (p : string) :
  (password_pattern p = true →
     has_char is_lower p = true ∧ has_char is_upper p = true
     ∧ has_char is_digit p = true)
  ∧ (has_line_terminator p = false →
     password_pattern p
     = has_char is_lower p && has_char is_upper p && has_char is_digit p)
  ∧ (∀ t rest, is_lf_or_cr t = true →
       password_pattern (p +:+ String t rest) = password_pattern p)
  ∧ (∀ t c,
       passwordResetConfirmSchema
         {| token := t; new_password := p; confirm_password := c |} = []
       ↔ (1 <= JsString.length t)%nat ∧ (8 <= JsString.length p)%nat
         ∧ password_pattern p = true ∧ c = p).
Proof.
  split; [|split; [|split]].
  - unfold password_pattern. rewrite !andb_true_iff. intros [[H1 H2] H3].
    repeat split; by apply lookahead_has_char.
  - intros H. unfold password_pattern. by rewrite !lookahead_single_line.
  - intros t rest Ht.
    assert (HC : is_lower t = false ∧ is_upper t = false ∧ is_digit t = false).
    { unfold is_lf_or_cr in Ht. apply orb_true_iff in Ht as [Ht|Ht];
        apply Nat.eqb_eq in Ht; unfold is_lower, is_upper, is_digit; by rewrite Ht. }
    destruct HC as (Hl & Hu & Hd).
    unfold password_pattern. by rewrite !lookahead_app_terminator.
  - intros t c. unfold passwordResetConfirmSchema.
    rewrite !app_nil, !min_length_spec, regex_spec, refine_spec, String.eqb_eq.
    cbn [token new_password confirm_password].
    intuition (try congruence; try lia).
Qed.

Lemma password_pattern_meaning_witness :
  let line_separator :=
    String (Ascii.ascii_of_nat 226) (String (Ascii.ascii_of_nat 128)
      (String (Ascii.ascii_of_nat 168) EmptyString)) in
  password_pattern "Secret123" = true
  ∧ is_lf_or_cr (Ascii.ascii_of_nat 10) = true
  ∧ password_pattern ("secret" +:+ String (Ascii.ascii_of_nat 10) "SECRET123") = false
  ∧ has_char is_upper ("secret" +:+ String (Ascii.ascii_of_nat 10) "SECRET123") = true
  ∧ password_pattern ("secret" +:+ line_separator +:+ "SECRET123") = false
  ∧ passwordResetConfirmSchema
      {| token := "t"; new_password := "Aa1яяяяя"; confirm_password := "Aa1яяяяя" |} = []
  ∧ passwordResetConfirmSchema
      {| token := "t"; new_password := "Aa1яяя"; confirm_password := "Aa1яяя" |} ≠ [].
Proof.
  intros line_separator.
  destruct (password_pattern_meaning "secret") as (_ & _ & H & _).
  destruct (password_pattern_meaning "Aa1яяя") as (_ & _ & _ & Hshort).
  split; [reflexivity|]. split; [reflexivity|]. split; [|split; [reflexivity|]].
  - by rewrite H.
  - split; [reflexivity|]. split; [reflexivity|].
    intros Habs. apply Hshort in Habs as (_ & Hlen & _).
    vm_compute in Hlen. lia.
Defined.

(** ** The submit handlers of the account forms *)

Import AuthForms.

(** X23: the login form pushes [/dashboard] exactly when its data passes the
    schema and the login succeeds, and then the store is authenticated; data
    the schema rejects leaves the store alone and calls nothing; a failed
    login is not rethrown by the form and pushes nothing.  [handleLogout]
    pushes [/login] once and leaves the session cleared, whatever the server
    answered. *)
Theorem account_forms_navigate_only_after_success
    (is_email : string → bool) (svc : authService.t)
    (email_ password_ : string) (s : AuthState) :
  let l := useLoginForm_onSubmit is_email svc email_ password_ s in
  let o := handleLogout svc s in
  (pushed l = ["/dashboard"] ↔
     loginSchema is_email email_ password_ = []
     ∧ ∃ response, authService.login svc email_ password_ = Resolved response)
  ∧ (pushed l = [] ∨ pushed l = ["/dashboard"])
  ∧ (pushed l = ["/dashboard"] → isAuthenticated (store l) = true)
  ∧ (loginSchema is_email email_ password_ ≠ [] → store l = s ∧ service_calls l = [])
  ∧ (loginSchema is_email email_ password_ = [] →
     service_calls l = [service_call (login_call email_ password_)])
  ∧ pushed o = ["/login"]
  ∧ store o = cleared.
Proof.
  intros l o. unfold l, o, useLoginForm_onSubmit, handleLogout, rejected.
  split; [|split; [|split; [|split; [|split; [|split]]]]].
  - destruct (loginSchema is_email email_ password_) as [|i rest_]; cbn.
    + unfold login. destruct (authService.login svc email_ password_) as [resp|e]; cbn.
      * split; [intros _; split; [reflexivity|by eexists]|reflexivity].
      * split; [discriminate|]. intros [_ [resp Hr]]. discriminate Hr.
    + split; [discriminate|]. intros [Habs _]. discriminate Habs.
  - destruct (loginSchema is_email email_ password_); cbn; [|by left].
    unfold login. destruct (authService.login svc email_ password_); cbn; eauto.
  - destruct (loginSchema is_email email_ password_); cbn; [|discriminate].
    unfold login. destruct (authService.login svc email_ password_); cbn;
      [reflexivity|discriminate].
  - destruct (loginSchema is_email email_ password_); cbn; [by intros []|by split].
  - intros ->. unfold login. by destruct (authService.login svc email_ password_).
  - unfold logout. by destruct (authService.logout svc).
  - unfold logout. by destruct (authService.logout svc).
Qed.

Lemma account_forms_navigate_only_after_success_witness :
  pushed (useLoginForm_onSubmit (fun _ => true) token_valid_fetch_succeeds
            "alice@example.com" "secret1" Auth.initial) = ["/dashboard"]
  ∧ pushed (useLoginForm_onSubmit (fun _ => true) token_valid_fetch_fails
              "alice@example.com" "wrong-password" Auth.initial) = []
  ∧ isAuthenticated (store (useLoginForm_onSubmit (fun _ => true) token_valid_fetch_succeeds
                              "alice@example.com" "secret1" Auth.initial)) = true.
Proof.
  assert (H : pushed (useLoginForm_onSubmit (fun _ => true) token_valid_fetch_succeeds
                        "alice@example.com" "secret1" Auth.initial) = ["/dashboard"])
    by reflexivity.
  destruct (account_forms_navigate_only_after_success (fun _ => true)
              token_valid_fetch_succeeds "alice@example.com" "secret1" Auth.initial)
    as (_ & _ & Ha & _).
  split; [exact H|]. split; [reflexivity|exact (Ha H)].
Defined.

(** X29: the registration form never registers.  Its handler asks
    [useAuth] for a [register] action, which the object [useAuth] returns
    does not have; the call fails inside the handler's [try] and is
    swallowed.  So whatever the data and whatever the server would answer, a
    submission makes no call on the service and pushes no route; valid data
    only clears the store's error. *)
Theorem registration_form_never_registers
    (is_email : string → bool) (rest : authServiceRest.t)
    (data : RegisterFormData) (s : AuthState) :
  let g := useRegisterForm_onSubmit is_email rest data s in
  service_calls g = []
  ∧ pushed g = []
  ∧ session (store g) = session s
  ∧ (registerSchema is_email data = [] → store g = Auth.final (clearError s))
  ∧ (registerSchema is_email data ≠ [] →
     store g = s ∧ AuthForms.issues g = registerSchema is_email data).
Proof.
  intros g. unfold g, useRegisterForm_onSubmit, rejected.
  destruct (registerSchema is_email data) as [|i l]; cbn; by repeat split.
Qed.

Lemma registration_form_never_registers_witness :
  registerSchema (fun _ => true)
    {| email := "carol@example.com"; password := "Secret123";
       confirmPassword := "Secret123"; full_name := "Carol";
       organization_name := "Initech" |} = []
  ∧ service_calls (useRegisterForm_onSubmit (fun _ => true) account_service
                     {| email := "carol@example.com"; password := "Secret123";
                        confirmPassword := "Secret123"; full_name := "Carol";
                        organization_name := "Initech" |} Auth.initial) = []
  ∧ pushed (useRegisterForm_onSubmit (fun _ => true) account_service
              {| email := "carol@example.com"; password := "Secret123";
                 confirmPassword := "Secret123"; full_name := "Carol";
                 organization_name := "Initech" |} Auth.initial) = [].
Proof.
  destruct (registration_form_never_registers (fun _ => true) account_service
              {| email := "carol@example.com"; password := "Secret123";
                 confirmPassword := "Secret123"; full_name := "Carol";
                 organization_name := "Initech" |} Auth.initial) as (Hc & Hp & _).
  split; [reflexivity|]. split; [exact Hc|exact Hp].
Defined.

(** ** The style form *)

Import StyleForm Uploads FormSamples.

Lemma upload_each_sent (server : Server) (files : list File.t) :
  (upload_each server files).1 = upload <$> until_failure server files.
Proof.
  induction files as [|f rest IH]; [reflexivity|]. cbn. unfold stores.
  destruct (uploadFile server f); [|reflexivity].
  destruct (upload_each server rest) as [sent outcome]. cbn in *. by rewrite IH.
Qed.

Lemma upload_each_outcome (server : Server) (files : list File.t) :
  match (upload_each server files).2 with
  | Resolved fileIds =>
      forallb (stores server) files = true ∧ fileIds = ids_of server files
  | Rejected e =>
      ∃ file, last (until_failure server files) = Some file
              ∧ uploadFile server file = Rejected e
  end.
Proof.
  induction files as [|f rest IH]; [by split|]. cbn. unfold stores, ids_of. cbn.
  destruct (uploadFile server f) as [result|e] eqn:Hf.
  - destruct (upload_each server rest) as [sent [ids|e]]; cbn in *.
    + destruct IH as [Hall ->]. by split.
    + destruct IH as (file & Hlast & Hrej). exists file. split; [|exact Hrej].
      destruct (until_failure server rest); [discriminate|exact Hlast].
  - exists f. by split.
Qed.

Lemma until_failure_all (server : Server) (files : list File.t) :
  forallb (stores server) files = true → until_failure server files = files.
Proof.
  induction files as [|f rest IH]; [reflexivity|]. cbn.
  destruct (stores server f); [|discriminate]. intros H. by rewrite IH.
Qed.

(** X24: when the style form creates a style it uploads the files one
    after the other and sends the creation only after every upload has
    succeeded, with the ids of the files in the order of the files; when an
    upload fails, the files before it have been uploaded, the ones after it
    are not, and no creation is sent.  When the form edits a style it sends
    the update of name and description and uploads nothing; yet in both
    modes a submission with no file is rejected by the schema and sends
    nothing. *)
Theorem style_is_created_only_after_all_uploads
    (server : Server) (data : StyleCreationFormData) :
  let r := onSubmit false server data in
  let files := reference_articles data in
  fired r
  = (upload <$> until_failure server files)
    ++ (if forallb (stores server) files
        then [create (name data) (description data) (ids_of server files)]
        else [])
  ∧ (forallb (stores server) files = true →
       fired r = (upload <$> files)
                 ++ [create (name data) (description data) (ids_of server files)]
       ∧ length (ids_of server files) = length files)
  ∧ (forallb (stores server) files = false →
       succeeded r = false
       ∧ (∀ n d ids, create n d ids ∉ fired r)
       ∧ ∃ file e, last (until_failure server files) = Some file
                   ∧ uploadFile server file = Rejected e ∧ logged r = Some e)
  ∧ (succeeded r = true → forallb (stores server) files = true
                          ∧ createStyle server = Resolved tt)
  ∧ fired (onSubmit true server data) = [update (name data) (description data)]
  ∧ (∀ isEditing, files = [] → fired (submit isEditing server data) = []
                                ∧ StyleForm.issues (submit isEditing server data) ≠ []).
Proof.
  intros r files.
  pose proof (upload_each_sent server files) as Hsent.
  pose proof (upload_each_outcome server files) as Hout.
  assert (Hfired : fired r
    = (upload <$> until_failure server files)
      ++ (if forallb (stores server) files
          then [create (name data) (description data) (ids_of server files)]
          else [])).
  { unfold r, onSubmit. fold files.
    destruct (upload_each server files) as [sent [ids|e]]; cbn in *.
    - destruct Hout as [-> ->]. rewrite Hsent. by destruct (createStyle server).
    - destruct Hout as (file & Hl & Hr). rewrite Hsent.
      destruct (forallb (stores server) files) eqn:Hall; [|by rewrite app_nil_r].
      exfalso. rewrite (until_failure_all _ _ Hall) in Hl.
      assert (Hin : In file files).
      { apply last_Some in Hl as [l' ->]. apply in_or_app. right. by left. }
      rewrite forallb_forall in Hall. apply Hall in Hin.
      unfold stores in Hin. by rewrite Hr in Hin. }
  split; [exact Hfired|]. split; [|split; [|split; [|split]]].
  - intros Hall. rewrite Hfired, Hall, (until_failure_all _ _ Hall). split; [reflexivity|].
    clear -Hall. unfold ids_of.
    induction files as [|f rest IH]; [reflexivity|]. cbn in *.
    unfold stores in Hall at 1. destruct (uploadFile server f); [|discriminate].
    cbn. f_equal. by apply IH.
  - intros Hall. unfold r, onSubmit. fold files.
    destruct (upload_each server files) as [sent [ids|e]] eqn:Hu; cbn in *.
    + destruct Hout as [Habs _]. congruence.
    + split; [reflexivity|]. split.
      * intros n d ids Hin. rewrite Hsent in Hin.
        apply list_elem_of_fmap in Hin as (f & Hf & _). discriminate Hf.
      * destruct Hout as (file & Hl & Hr). by exists file, e.
  - unfold r, onSubmit. fold files.
    destruct (upload_each server files) as [sent [ids|e]]; cbn in *; [|discriminate].
    destruct Hout as [Hall _]. destruct (createStyle server) as [[]|e]; cbn;
      [done|discriminate].
  - unfold onSubmit. by destruct (updateStyle server).
  - intros isEditing Hnil. unfold submit, styleCreationSchema, files_issues.
    fold files. rewrite Hnil. cbn [length Nat.ltb Nat.leb].
    destruct (min_length _ _ _ _); cbn; by split.
Qed.

Lemma style_is_created_only_after_all_uploads_witness :
  fired (onSubmit false storage (formal_style [notes; essay]))
  = [ upload notes; upload essay;
      create "Formal" None ["id-notes.txt"; "id-essay.pdf"] ]
  ∧ fired (onSubmit false storage (formal_style [notes; broken; essay]))
    = [ upload notes; upload broken ].
Proof.
  destruct (style_is_created_only_after_all_uploads storage (formal_style [notes; essay]))
    as (H1 & _).
  destruct (style_is_created_only_after_all_uploads storage
              (formal_style [notes; broken; essay])) as (H2 & _).
  split; [exact H1|exact H2].
Defined.

(** ** The reference articles *)

Import ReferenceArticles Paths.

Lemma split_slash_nonempty (s : string) : split_slash s ≠ [].
Proof.
  destruct s as [|c s]; [discriminate|]. cbn.
  destruct (Ascii.eqb c slash); [discriminate|]. by destruct (split_slash s).
Qed.

(** Joining the segments with [/] gives the string back. *)
Lemma split_slash_join (s : string) : String.concat "/" (split_slash s) = s.
Proof.
  induction s as [|c s IH]; [reflexivity|]. cbn [split_slash].
  destruct (Ascii.eqb c slash) eqn:Hc.
  - apply Ascii.eqb_eq in Hc as ->.
    pose proof (split_slash_nonempty s) as Hne.
    destruct (split_slash s) as [|h t] eqn:Hs; [done|].
    cbn [String.concat]. cbn [String.concat] in IH. by rewrite IH.
  - pose proof (split_slash_nonempty s) as Hne.
    destruct (split_slash s) as [|h t] eqn:Hs; [done|].
    cbn [String.concat] in IH |- *. destruct t as [|h' t'].
    + by rewrite IH.
    + change ((String c h +:+ "/" +:+ String.concat "/" (h' :: t')))
        with (String c (h +:+ "/" +:+ String.concat "/" (h' :: t'))).
      by rewrite IH.
Qed.

Lemma split_slash_segments (s seg : string) :
  seg ∈ split_slash s → slash_free seg = true.
Proof.
  revert seg. induction s as [|c s IH]; intros seg Hin.
  - cbn in Hin. apply list_elem_of_singleton in Hin as ->. reflexivity.
  - cbn [split_slash] in Hin. destruct (Ascii.eqb c slash) eqn:Hc.
    + apply elem_of_cons in Hin as [->|Hin]; [reflexivity|by apply IH].
    + pose proof (split_slash_nonempty s) as Hne.
      destruct (split_slash s) as [|h t] eqn:Hs; [done|].
      apply elem_of_cons in Hin as [->|Hin].
      * unfold slash_free, Schemas.has_char. cbn. rewrite Hc. cbn.
        apply (IH h). by left.
      * apply IH. by right.
Qed.

Lemma split_slash_free (s : string) : slash_free s = true → split_slash s = [s].
Proof.
  unfold slash_free, Schemas.has_char.
  induction s as [|c s IH]; [reflexivity|]. cbn.
  destruct (Ascii.eqb c slash); [discriminate|]. cbn. intros H. by rewrite (IH H).
Qed.

(** Splitting distributes over a [/]. *)
Lemma split_slash_app (dir rest : string) :
  split_slash (dir +:+ String slash rest) = split_slash dir ++ split_slash rest.
Proof.
  induction dir as [|c dir IH].
  - change (split_slash (String slash rest) = [EmptyString] ++ split_slash rest).
    cbn [split_slash]. by rewrite (proj2 (Ascii.eqb_eq slash slash) eq_refl).
  - change (split_slash (String c (dir +:+ String slash rest))
            = split_slash (String c dir) ++ split_slash rest).
    cbn [split_slash]. rewrite IH.
    pose proof (split_slash_nonempty dir) as Hne.
    destruct (Ascii.eqb c slash); [reflexivity|].
    by destruct (split_slash dir).
Qed.

Lemma last_split_after_slash (dir rest : string) :
  last (split_slash (dir +:+ String slash rest)) = last (split_slash rest).
Proof.
  rewrite split_slash_app, last_app.
  pose proof (split_slash_nonempty rest) as Hne.
  apply last_is_Some in Hne as [x ->]. reflexivity.
Qed.

(** X25: the title given to an uploaded reference article is the last
    segment of its file path: never empty and without a [/]; it is the name
    that follows the last [/], the whole path when that has no [/], and
    ["Unknown"] when the path is empty or ends in a [/].  The segments of a
    path, joined with [/], give the path back. *)
Theorem title_is_the_last_path_segment (file_path : string) :
  title_of file_path ≠ EmptyString
  ∧ slash_free (title_of file_path) = true
  ∧ String.concat "/" (split_slash file_path) = file_path
  ∧ (slash_free file_path = true → file_path ≠ EmptyString →
     title_of file_path = file_path)
  ∧ (∀ name, slash_free name = true → name ≠ EmptyString →
       title_of (file_path +:+ String slash name) = name)
  ∧ title_of (file_path +:+ String slash EmptyString) = "Unknown"
  ∧ title_of EmptyString = "Unknown".
Proof.
  assert (Hfree : ∀ s, slash_free s = true → s ≠ EmptyString → title_of s = s).
  { intros s Hs Hne. unfold title_of. rewrite (split_slash_free _ Hs). cbn.
    apply String.eqb_neq in Hne. by rewrite Hne. }
  split; [|split; [|split; [|split; [|split; [|split]]]]].
  - unfold title_of. destruct (last (split_slash file_path)) as [seg|]; [|discriminate].
    destruct (String.eqb seg EmptyString) eqn:E; [discriminate|].
    by apply String.eqb_neq in E.
  - unfold title_of. destruct (last (split_slash file_path)) as [seg|] eqn:Hl;
      [|reflexivity].
    destruct (String.eqb seg EmptyString); [reflexivity|].
    apply (split_slash_segments file_path). by apply last_Some_elem_of.
  - apply split_slash_join.
  - apply Hfree.
  - intros name Hs Hne. unfold title_of. rewrite last_split_after_slash.
    fold (title_of name). by apply Hfree.
  - unfold title_of. by rewrite last_split_after_slash.
  - reflexivity.
Qed.

Lemma title_is_the_last_path_segment_witness :
  title_of "uploads/org-1/notes.txt" = "notes.txt"
  ∧ title_of "uploads/org-1/" = "Unknown".
Proof.
  destruct (title_is_the_last_path_segment "uploads/org-1") as (_ & _ & _ & _ & Hn & Hu & _).
  split; [by apply (Hn "notes.txt")|exact Hu].
Defined.

Lemma all_settled_Resolved (outcomes : list (Settled FileUploadResponse.t))
    (results : list FileUploadResponse.t) :
  all_settled outcomes = Resolved results ↔ outcomes = Resolved <$> results.
Proof.
  revert results. induction outcomes as [|[r|e] rest IH]; intros results; cbn.
  - split; [by intros [= <-]|]. by destruct results.
  - destruct (all_settled rest) as [rs|e'] eqn:Hr.
    + split.
      * intros [= <-]. cbn. f_equal. by apply IH.
      * destruct results as [|r' rs']; [discriminate|]. cbn. intros [= -> H].
        apply IH in H. by injection H as ->.
    + split; [discriminate|]. destruct results as [|r' rs']; [discriminate|].
      cbn. intros [= -> H]. apply IH in H. discriminate H.
  - split; [discriminate|]. by destruct results.
Qed.

Lemma all_settled_Rejected (outcomes : list (Settled FileUploadResponse.t)) (e : Thrown) :
  all_settled outcomes = Rejected e → Rejected e ∈ outcomes.
Proof.
  induction outcomes as [|[r|e'] rest IH]; cbn; [discriminate| |].
  - destruct (all_settled rest); [discriminate|]. intros [= ->]. right. by apply IH.
  - intros [= ->]. by left.
Qed.

(** X26: [handleUpload] starts the upload of every selected file at once;
    when all succeed it hands on the articles it had followed by one new
    article per file, in the order of the files, and clears the selection;
    when one fails it hands on nothing and keeps the selection, although the
    other files have been sent.  With no file selected it does nothing.
    [handleDelete] hands on the articles without the deleted id when the
    deletion succeeds, and nothing when it fails. *)
Theorem reference_uploads_are_all_or_nothing
    (uploadFile : File.t → Settled FileUploadResponse.t)
    (deleteFile : string → Settled unit) (styleId now articleId : string)
    (articles : list ReferenceArticle.t) (selectedFiles : list File.t) :
  let r := handleUpload uploadFile styleId now articles selectedFiles in
  let d := handleDelete deleteFile articles selectedFiles articleId in
  uploads r = selectedFiles
  ∧ (∀ results, uploadFile <$> selectedFiles = Resolved <$> results →
       selectedFiles ≠ [] →
       changed r = Some (articles ++ (article_of styleId now <$> results))
       ∧ selected r = [] ∧ ReferenceArticles.logged r = None)
  ∧ (∀ new, changed r = Some new →
       ∃ results, uploadFile <$> selectedFiles = Resolved <$> results
                  ∧ new = articles ++ (article_of styleId now <$> results)
                  ∧ length new = (length articles + length selectedFiles)%nat)
  ∧ (∀ file e, file ∈ selectedFiles → uploadFile file = Rejected e →
       changed r = None ∧ selected r = selectedFiles
       ∧ is_Some (ReferenceArticles.logged r))
  ∧ (selectedFiles = [] → changed r = None ∧ ReferenceArticles.logged r = None)
  ∧ (deleteFile articleId = Resolved tt →
       ∃ kept, changed d = Some kept
               ∧ ∀ a, a ∈ kept ↔ a ∈ articles ∧ ReferenceArticle.id a ≠ articleId)
  ∧ (∀ e, deleteFile articleId = Rejected e →
       changed d = None ∧ ReferenceArticles.logged d = Some e).
Proof.
  intros r d. unfold r, d, handleUpload, handleDelete.
  split; [|split; [|split; [|split; [|split; [|split]]]]].
  - destruct selectedFiles as [|f fs]; [reflexivity|].
    by destruct (all_settled _).
  - intros results Hres Hne. destruct selectedFiles as [|f fs]; [done|].
    apply all_settled_Resolved in Hres. by rewrite Hres.
  - intros new. destruct selectedFiles as [|f fs]; [discriminate|].
    destruct (all_settled (uploadFile <$> f :: fs)) as [results|e] eqn:Hs; [|discriminate].
    cbn [changed]. intros [= <-]. apply all_settled_Resolved in Hs.
    exists results. split; [exact Hs|]. split; [reflexivity|].
    rewrite length_app, length_fmap. f_equal.
    apply (f_equal length) in Hs. by rewrite !length_fmap in Hs.
  - intros file e Hin Hrej. destruct selectedFiles as [|f fs]; [by apply elem_of_nil in Hin|].
    destruct (all_settled (uploadFile <$> f :: fs)) as [results|e'] eqn:Hs.
    + exfalso. apply all_settled_Resolved in Hs.
      assert (Hmem : uploadFile file ∈ uploadFile <$> f :: fs).
      { apply list_elem_of_fmap. by exists file. }
      rewrite Hs, Hrej in Hmem. apply list_elem_of_fmap in Hmem as (x & Hx & _).
      discriminate Hx.
    + cbn. by repeat split.
  - by intros ->.
  - intros ->. eexists. split; [reflexivity|]. intros a.
    rewrite !list_elem_of_In, filter_In, negb_true_iff, String.eqb_neq. reflexivity.
  - by intros e ->.
Qed.

Lemma reference_uploads_are_all_or_nothing_witness :
  changed (handleUpload (uploadFile storage) "s1" "2024-03-01T00:00:00.000Z" []
             [notes; broken]) = None
  ∧ uploads (handleUpload (uploadFile storage) "s1" "2024-03-01T00:00:00.000Z" []
               [notes; broken]) = [notes; broken]
  ∧ ReferenceArticle.title
      <$> default [] (changed (handleUpload (uploadFile storage) "s1"
                                 "2024-03-01T00:00:00.000Z" [] [notes; essay]))
    = ["notes.txt"; "essay.pdf"].
Proof.
  destruct (reference_uploads_are_all_or_nothing (uploadFile storage)
              (fun _ => Resolved tt) "s1" "2024-03-01T00:00:00.000Z" "a1" []
              [notes; broken]) as (Hu & _ & _ & Hfail & _).
  destruct (Hfail broken server_down) as (Hc & _); [by right; left|reflexivity|].
  split; [exact Hc|]. split; [exact Hu|reflexivity].
Defined.

(** ** The parameters of a list request *)

Import Url.

Lemma string_of_uint_nonempty (d : Decimal.uint) :
  NilZero.string_of_uint d ≠ EmptyString.
Proof. destruct d; cbn; discriminate. Qed.

Lemma append_nonempty_l (a b : string) : a ≠ EmptyString → a +:+ b ≠ EmptyString.
Proof. destruct a; [done|discriminate]. Qed.

(** The text of a number is never empty. *)
Lemma toString_nonempty (x : NumberValue.t) : NumberValue.toString x ≠ EmptyString.
Proof.
  destruct x as [|[]| |negative s n]; try discriminate.
  unfold NumberValue.toString. apply append_nonempty_r.
  assert (Hd : NumberValue.digits s ≠ EmptyString).
  { unfold NumberValue.digits.
    pose proof (string_of_uint_nonempty (Pos.to_uint s)) as H.
    by destruct (NilZero.string_of_uint (Pos.to_uint s)). }
  unfold NumberValue.format.
  repeat match goal with |- context [if ?b then _ else _] => destruct b end;
    first [ by apply append_nonempty_l
          | apply append_nonempty_r; discriminate
          | discriminate ].
Qed.

Lemma String_of_nonempty (v : JsValue) :
  is_set v = true → String_of v ≠ EmptyString.
Proof.
  intros H. apply is_set_spec in H as (_ & _ & Hs).
  destruct v as [| |s|x|[]]; cbn [String_of]; try discriminate.
  - congruence.
  - apply toString_nonempty.
Qed.

(** X27: the parameters built for a list request never carry an empty
    value; their names are field names of the search params, in the order of
    the object, so there are at most as many parameters as fields; and a
    field set to [false] or to [0] is sent, as ["false"] or ["0"]. *)
Theorem list_query_parameters_are_never_empty (searchParams : JsObject) :
  (∀ name value, (name, value) ∈ build_params (Some searchParams) →
     value ≠ EmptyString)
  ∧ (build_params (Some searchParams)).*1 `sublist_of` searchParams.*1
  ∧ (length (build_params (Some searchParams)) <= length searchParams)%nat
  ∧ (∀ name, (name, VBool false) ∈ searchParams →
       (name, "false") ∈ build_params (Some searchParams))
  ∧ (∀ name, (name, VNumber 0) ∈ searchParams →
       (name, "0") ∈ build_params (Some searchParams)).
Proof.
  assert (Hp : build_params (Some searchParams)
               = (fun kv => (kv.1, String_of kv.2)) <$> set_fields searchParams).
  { unfold build_params. by rewrite build_params_fold. }
  assert (Hsub : set_fields searchParams `sublist_of` searchParams).
  { clear Hp. unfold set_fields. induction searchParams as [|kv l IH]; [constructor|].
    cbn [List.filter]. destruct (is_set kv.2); by constructor. }
  assert (Hin : ∀ name v, (name, v) ∈ searchParams → is_set v = true →
                  (name, String_of v) ∈ build_params (Some searchParams)).
  { intros name v Hv Hs. rewrite Hp. apply list_elem_of_fmap. exists (name, v).
    split; [reflexivity|]. unfold set_fields.
    apply list_elem_of_In, filter_In. split; [by apply list_elem_of_In|exact Hs]. }
  split; [|split; [|split; [|split]]].
  - intros name value. rewrite Hp. intros Hv.
    apply list_elem_of_fmap in Hv as ([n v] & [= -> ->] & Hv).
    unfold set_fields in Hv. apply list_elem_of_In, filter_In in Hv as [_ Hs].
    by apply String_of_nonempty.
  - rewrite Hp, <- list_fmap_compose.
    change (fst ∘ (fun kv : string * JsValue => (kv.1, String_of kv.2))) with (@fst string JsValue).
    by apply fmap_sublist.
  - rewrite Hp, length_fmap. by apply sublist_length.
  - intros name Hv. by apply (Hin name (VBool false)).
  - intros name Hv. by apply (Hin name (VNumber 0)).
Qed.

(** ** The route guards *)

Import RouteGuards.

(** What the guard pushes at each render: the redirect when the store is
    settled and not authenticated and the effect runs, nothing otherwise.
    The effect runs when the dependencies are not those of the render
    before. *)
Lemma useProtectedRoute_from_lookup (redirectTo : string) (history : list AuthState) :
  ∀ previous c0 i s c p,
    useProtectedRoute_from redirectTo previous c0 history !! i = Some (s, c, p) →
    history !! i = Some s
    ∧ p = if negb (Auth.isLoading s) && negb (isAuthenticated s)
             && negb (bool_decide
                        (match i with
                         | O => previous
                         | S j => dependencies <$> history !! j
                         end = Some (dependencies s)))
          then [redirectTo] else [].
Proof.
  induction history as [|s0 rest IH]; intros previous c0 i s c p H; [done|].
  cbn [useProtectedRoute_from] in H. destruct i as [|i].
  - destruct (bool_decide (previous = Some (dependencies s0))) eqn:Hb.
    + injection H as <- <- <-. split; [reflexivity|]. rewrite Hb.
      by rewrite andb_false_r.
    + unfold useProtectedRoute_effect in H.
      destruct (Auth.isLoading s0) eqn:Hl, (isAuthenticated s0) eqn:Ha;
        injection H as <- <- <-; (split; [reflexivity|]);
        rewrite ?Hl, ?Ha, ?Hb; reflexivity.
  - destruct (if bool_decide (previous = Some (dependencies s0))
              then (c0, [])
              else useProtectedRoute_effect redirectTo s0 c0) as [c1 p1].
    change (useProtectedRoute_from redirectTo (Some (dependencies s0)) c1 rest !! i
            = Some (s, c, p)) in H.
    apply IH in H as [Hs ->]. split; [exact Hs|]. by destruct i.
Qed.

(** Every render has its entry. *)
Lemma useProtectedRoute_from_entry (redirectTo : string) (history : list AuthState) :
  ∀ previous c0 i s,
    history !! i = Some s →
    ∃ c p, useProtectedRoute_from redirectTo previous c0 history !! i = Some (s, c, p).
Proof.
  induction history as [|s0 rest IH]; intros previous c0 i s H; [done|].
  cbn [useProtectedRoute_from].
  destruct (if bool_decide (previous = Some (dependencies s0))
            then (c0, [])
            else useProtectedRoute_effect redirectTo s0 c0) as [c1 p1].
  destruct i as [|i].
  - injection H as <-. by exists c1, p1.
  - destruct (IH (Some (dependencies s0)) c1 i s H) as (c & p & H'). by exists c, p.
Qed.

(** A render with a settled, unauthenticated store comes after a push, with
    only such renders in between, unless the renders have been such since
    before the first. *)
Lemma useProtectedRoute_from_pushed (redirectTo : string) (history : list AuthState) :
  ∀ previous c0 i s,
    history !! i = Some s → dependencies s = (false, false) →
    (∃ j sj cj, (j <= i)%nat
       ∧ useProtectedRoute_from redirectTo previous c0 history !! j
         = Some (sj, cj, [redirectTo])
       ∧ ∀ k sk, (j <= k <= i)%nat → history !! k = Some sk →
           dependencies sk = (false, false))
    ∨ (previous = Some (false, false)
       ∧ ∀ k sk, (k <= i)%nat → history !! k = Some sk →
           dependencies sk = (false, false)).
Proof.
  induction history as [|s0 rest IH]; intros previous c0 i s H Hs; [done|].
  assert (Hfirst : dependencies s0 = (false, false) →
            (∀ k sk, (k <= i)%nat → (s0 :: rest) !! k = Some sk →
               dependencies sk = (false, false)) →
            (∃ j sj cj, (j <= i)%nat
               ∧ useProtectedRoute_from redirectTo previous c0 (s0 :: rest) !! j
                 = Some (sj, cj, [redirectTo])
               ∧ ∀ k sk, (j <= k <= i)%nat → (s0 :: rest) !! k = Some sk →
                   dependencies sk = (false, false))
            ∨ (previous = Some (false, false)
               ∧ ∀ k sk, (k <= i)%nat → (s0 :: rest) !! k = Some sk →
                   dependencies sk = (false, false))).
  { intros H0 Hall.
    destruct (decide (previous = Some (false, false))) as [Hp|Hp]; [by right|].
    left. exists 0%nat, s0, c0. split; [lia|]. split.
    - cbn [useProtectedRoute_from]. rewrite H0.
      rewrite bool_decide_eq_false_2 by exact Hp.
      unfold useProtectedRoute_effect. unfold dependencies in H0.
      injection H0 as -> ->. reflexivity.
    - intros k sk [_ Hk]. by apply Hall. }
  destruct i as [|i].
  - injection H as ->. apply Hfirst; [exact Hs|].
    intros k sk Hk Hsk. assert (k = 0%nat) as -> by lia. by injection Hsk as <-.
  - cbn [useProtectedRoute_from].
    destruct (if bool_decide (previous = Some (dependencies s0))
              then (c0, [])
              else useProtectedRoute_effect redirectTo s0 c0) as [c1 p1] eqn:He.
    destruct (IH (Some (dependencies s0)) c1 i s H Hs)
      as [(j & sj & cj & Hj & Hpush & Hall)|[Hp Hall]].
    + left. exists (S j), sj, cj. split; [lia|]. split; [exact Hpush|].
      intros k sk Hk Hsk. destruct k as [|k]; [lia|]. apply (Hall k); [lia|exact Hsk].
    + assert (Hd0 : dependencies s0 = (false, false)) by congruence.
      assert (Hall' : ∀ k sk, (k <= S i)%nat → (s0 :: rest) !! k = Some sk →
                        dependencies sk = (false, false)).
      { intros k sk Hk Hsk. destruct k as [|k].
        - by injection Hsk as <-.
        - apply (Hall k); [lia|exact Hsk]. }
      specialize (Hfirst Hd0 Hall'). cbn [useProtectedRoute_from] in Hfirst.
      by rewrite He in Hfirst.
Qed.

(** X28: [useProtectedRoute] over the successive states of the store it
    renders with, from the mount on.  It pushes the redirect at a render
    exactly when the store is settled and not authenticated there and the
    flags differ from those of the render before (or it is the first
    render): once for each time the store enters that state, and not again
    while the flags stay the same.  So whenever it renders with a settled,
    unauthenticated store, it has pushed the redirect since the store
    entered that state.  Until the store has been seen settled and
    authenticated once, it reports loading.  The body of the effect pushes
    nothing while the store is loading, in either guard, and for a settled
    store the body of exactly one of the two guards redirects. *)
Theorem protected_route_redirects_the_unauthenticated
    (redirectTo : string) (history : list AuthState) :
  (∀ i s c p, useProtectedRoute_over redirectTo history !! i = Some (s, c, p) →
     history !! i = Some s
     ∧ (p = [redirectTo] ∨ p = [])
     ∧ (p = [redirectTo] ↔
          Auth.isLoading s = false ∧ isAuthenticated s = false
          ∧ (i = 0%nat
             ∨ ∃ s0, history !! (i - 1)%nat = Some s0
                     ∧ dependencies s0 ≠ dependencies s)))
  ∧ (∀ i s, history !! i = Some s →
       Auth.isLoading s = false → isAuthenticated s = false →
       ∃ j sj cj, (j <= i)%nat
         ∧ useProtectedRoute_over redirectTo history !! j = Some (sj, cj, [redirectTo])
         ∧ ∀ k sk, (j <= k <= i)%nat → history !! k = Some sk →
             Auth.isLoading sk = false ∧ isAuthenticated sk = false)
  ∧ (Forall (fun s => Auth.isLoading s = true ∨ isAuthenticated s = false) history →
     ∀ s c p, (s, c, p) ∈ useProtectedRoute_over redirectTo history →
       reported_loading s c = true)
  ∧ (∀ s c, Auth.isLoading s = true →
       (useProtectedRoute_effect "/login" s c).2 = []
       ∧ (usePublicRoute_effect "/dashboard" s c).2 = [])
  ∧ (∀ s c, Auth.isLoading s = false →
       ((useProtectedRoute_effect "/login" s c).2 = ["/login"]
        ∧ (usePublicRoute_effect "/dashboard" s c).2 = [])
       ∨ ((useProtectedRoute_effect "/login" s c).2 = []
          ∧ (usePublicRoute_effect "/dashboard" s c).2 = ["/dashboard"])).
Proof.
  split; [|split; [|split; [|split]]].
  - intros i s c p H. unfold useProtectedRoute_over in H.
    apply useProtectedRoute_from_lookup in H as [Hs ->]. split; [exact Hs|].
    destruct i as [|i].
    + rewrite bool_decide_eq_false_2 by discriminate.
      destruct (Auth.isLoading s), (isAuthenticated s); cbn; (split; [tauto|]);
        split; try discriminate; try tauto; intros (? & ? & _); discriminate.
    + replace (S i - 1)%nat with i by lia.
      destruct (history !! i) as [s0|] eqn:H0; cbn [fmap option_fmap option_map].
      * destruct (decide (dependencies s0 = dependencies s)) as [Hd|Hd].
        -- rewrite bool_decide_eq_true_2 by by rewrite Hd.
           rewrite andb_false_r. split; [tauto|]. split; [discriminate|].
           intros (_ & _ & [?|(s1 & Hs1 & Hne)]); [lia|]. congruence.
        -- rewrite bool_decide_eq_false_2 by congruence.
           destruct (Auth.isLoading s), (isAuthenticated s); cbn; (split; [tauto|]);
             split; try discriminate; try (intros (? & ? & _); discriminate).
           ++ intros _. split; [reflexivity|]. split; [reflexivity|]. right. by exists s0.
           ++ by intros _.
      * apply lookup_lt_Some in Hs. apply lookup_ge_None in H0. lia.
  - intros i s Hs Hl Ha.
    assert (Hd : dependencies s = (false, false)) by (unfold dependencies; by rewrite Hl, Ha).
    destruct (useProtectedRoute_from_pushed redirectTo history None true i s Hs Hd)
      as [(j & sj & cj & Hj & Hpush & Hall)|[Hp _]]; [|discriminate Hp].
    exists j, sj, cj. split; [exact Hj|]. split; [exact Hpush|].
    intros k sk Hk Hsk. specialize (Hall k sk Hk Hsk). unfold dependencies in Hall.
    by injection Hall as -> ->.
  - intros Hall. unfold useProtectedRoute_over. generalize (@None (bool * bool)).
    induction Hall as [|s0 rest H0 Hrest IH]; intros previous s c p Hin.
    + by apply elem_of_nil in Hin.
    + cbn [useProtectedRoute_from] in Hin.
      assert (He : (if bool_decide (previous = Some (dependencies s0))
                    then (true, [])
                    else useProtectedRoute_effect redirectTo s0 true)
                   = (true, (if bool_decide (previous = Some (dependencies s0))
                             then (true, [])
                             else useProtectedRoute_effect redirectTo s0 true).2)).
      { case_bool_decide; [reflexivity|]. unfold useProtectedRoute_effect.
        destruct (Auth.isLoading s0), (isAuthenticated s0); cbn;
          try reflexivity; destruct H0; discriminate. }
      rewrite He in Hin. apply elem_of_cons in Hin as [[= -> -> ->]|Hin].
      * unfold reported_loading. apply orb_true_r.
      * by apply IH in Hin.
  - intros s c Hl. unfold useProtectedRoute_effect, usePublicRoute_effect.
    by rewrite Hl.
  - intros s c Hl. unfold useProtectedRoute_effect, usePublicRoute_effect.
    rewrite Hl. cbn. destruct (isAuthenticated s); cbn; [by right|by left].
Qed.

Lemma protected_route_redirects_the_unauthenticated_witness :
  let loading := {| user := None; organization := None; isAuthenticated := false;
                    isLoading := true; error := None |} in
  let failed := {| user := None; organization := None; isAuthenticated := false;
                   isLoading := false; error := Some "Invalid credentials" |} in
  useProtectedRoute_over "/login" [loading; cleared; failed; session1; cleared]
  = [ (loading, true, []); (cleared, true, ["/login"]); (failed, true, []);
      (session1, false, []); (cleared, false, ["/login"]) ]
  ∧ ∃ j sj cj, (j <= 2)%nat
      ∧ useProtectedRoute_over "/login" [loading; cleared; failed; session1; cleared] !! j
        = Some (sj, cj, ["/login"]).
Proof.
  intros loading failed. split; [reflexivity|].
  destruct (protected_route_redirects_the_unauthenticated "/login"
              [loading; cleared; failed; session1; cleared]) as (_ & H & _).
  destruct (H 2%nat failed eq_refl eq_refl eq_refl) as (j & sj & cj & Hj & Hpush & _).
  by exists j, sj, cj.
Defined.

(** ** The password strength indicator *)

Import PasswordStrength.

Lemma class_of_char (c : Ascii.ascii) :
  is_lower c || is_upper c || is_digit c || is_other c = true.
Proof.
  unfold is_other. destruct (is_upper c), (is_lower c), (is_digit c); reflexivity.
Qed.

(** X30: the strength indicator gives a non-empty password a score from 1
    to 5, the number of tests it passes, so the label of score 0 is never
    shown; a password that the registration schema accepts — at least 8
    characters (UTF-16 code units) matching the pattern — scores at least 4
    and is shown as ["Отличный"] in green. *)
Theorem accepted_password_is_shown_as_excellent (password : string) :
  (password ≠ EmptyString →
     (1 <= score (getPasswordStrength password) <= 5)%nat
     ∧ score (getPasswordStrength password) = count password
     ∧ label (getPasswordStrength password) ≠ "Очень слабый")
  ∧ ((8 <= JsString.length password)%nat → password_pattern password = true →
     (4 <= score (getPasswordStrength password))%nat
     ∧ label (getPasswordStrength password) = "Отличный"
     ∧ color (getPasswordStrength password) = "bg-green-500")
  ∧ getPasswordStrength EmptyString
    = {| score := 0; label := EmptyString; color := EmptyString |}.
Proof.
  assert (Hpos : password ≠ EmptyString → (1 <= count password)%nat).
  { destruct password as [|c s]; [done|]. intros _. unfold count, has_char.
    generalize (point (8 <=? JsString.length (String c s))%nat). intros n.
    cbn [String.list_ascii_of_string existsb].
    pose proof (class_of_char c) as Hc.
    destruct (is_lower c), (is_upper c), (is_digit c), (is_other c);
      cbn in *; try discriminate; lia. }
  assert (Hle : (count password <= 5)%nat).
  { unfold count, point. repeat match goal with |- context [if ?b then _ else _] =>
      destruct b end; lia. }
  assert (Hget : password ≠ EmptyString →
            ∀ n, count password = n →
            getPasswordStrength password
            = default {| score := 0; label := EmptyString; color := EmptyString |}
                      (strength !! n)).
  { intros Hne n Hn. unfold getPasswordStrength.
    apply String.eqb_neq in Hne. rewrite Hne, Hn. f_equal. f_equal. lia. }
  split; [|split; [|reflexivity]].
  - intros Hne. specialize (Hpos Hne). rewrite (Hget Hne _ eq_refl).
    destruct (count password) as [|[|[|[|[|[|n]]]]]]; cbn; try lia;
      repeat split; try lia; discriminate.
  - intros Hlen Hpat.
    assert (Hne : password ≠ EmptyString) by (intros ->; cbn in Hlen; lia).
    unfold password_pattern in Hpat. rewrite !andb_true_iff in Hpat.
    destruct Hpat as [[Hl Hu] Hd].
    apply lookahead_has_char in Hl, Hu, Hd.
    assert (H4 : (4 <= count password)%nat).
    { unfold count. rewrite Hl, Hu, Hd. apply Nat.leb_le in Hlen. rewrite Hlen.
      cbn. lia. }
    rewrite (Hget Hne _ eq_refl).
    destruct (count password) as [|[|[|[|[|[|n]]]]]]; cbn; try lia; by repeat split.
Qed.

Lemma accepted_password_is_shown_as_excellent_witness :
  (8 <= JsString.length "Secret123")%nat
  ∧ password_pattern "Secret123" = true
  ∧ score (getPasswordStrength "Secret123") = 4%nat
  ∧ label (getPasswordStrength "Secret123") = "Отличный"
  ∧ score (getPasswordStrength "пароль") = 1%nat.
Proof.
  assert (Hlen : (8 <= JsString.length "Secret123")%nat) by (vm_compute; lia).
  destruct (accepted_password_is_shown_as_excellent "Secret123") as (_ & H & _).
  destruct (H Hlen eq_refl) as (_ & Hlab & _).
  destruct (accepted_password_is_shown_as_excellent "пароль") as (H1 & _).
  destruct (H1 ltac:(discriminate)) as (_ & Hscore & _).
  split; [exact Hlen|]. split; [reflexivity|]. split; [reflexivity|].
  split; [exact Hlab|]. rewrite Hscore. reflexivity.
Defined.
